(** * Positions-finance backend: a shallow embedding of the ledger, the
    ownership-Merkle engine and the block indexer, with the properties of
    the specification that hold (or fail) on them.

    Conventions of the embedding.
    - A USD amount is a JavaScript [number]: an IEEE 754 double, with the
      sums, differences and comparisons of the code rounded as the
      machine rounds them.  A [decimal(24,8)] field of a row holds the
      number that [Number(...)] of the loaded field is.  A value that
      went through [toFixed(8)] is read back from its column as it was
      written; a number written as it came from the price oracle is read
      back as the database rounded it, a function [column] that the
      model takes as given.  Amounts the column refuses (10^16 USD and
      more) are outside the model.
    - A repository is the list of its rows in the order a query without
      an [order] option returns them; [save] of an entity that has an id
      rewrites the row with that id, [save] of a fresh entity appends.
    - 32-byte buffers and their [0x]-prefixed hex strings are the same
      integer; [Buffer.compare] on them is the order of [Z]. *)

From Stdlib Require Import ZArith Lia Ascii String Sorted SpecFloat.
From stdpp Require Import base list strings.

Local Open Scope Z_scope.

(* ================================================================== *)
(** * Part I: the program                                              *)
(* ================================================================== *)

(** ** The JavaScript [number]: binary64, round to nearest even *)
Module Num.

(** The doubles are the values [valid_binary prec emax] accepts; the
    operations are the ones the standard library specifies the machine
    floats with. *)
Definition number : Type := spec_float.

Definition prec : Z := 53.
Definition emax : Z := 1024.

#[global] Instance number_eq_dec : EqDecision number.
Proof. solve_decision. Defined.

(** The literal [0]. *)
Definition zero : number := S754_zero false.

(** [a + b], [a - b], [a / b]. *)
Definition add (a b : number) : number := SFadd prec emax a b.
Definition sub (a b : number) : number := SFsub prec emax a b.
Definition div (a b : number) : number := SFdiv prec emax a b.

(** [a < b], [a <= b], [a >= b]: false when an operand is [NaN]. *)
Definition ltb (a b : number) : bool := SFltb a b.
Definition leb (a b : number) : bool := SFleb a b.
Definition geb (a b : number) : bool := SFleb b a.

(** [Number(n)] of an integer. *)
Definition ofZ (n : Z) : number := binary_normalize prec emax n 0 false.

(** The double nearest to [n / d], with sign [s]. *)
Definition ratio (s : bool) (n d : positive) : number :=
  let '(q, e, l) := SFdiv_core_binary prec emax (Zpos n) 0 (Zpos d) 0 in
  binary_round_aux prec emax s q e l.

(** The decimal literal [n * 10^-places]. *)
Definition ofDecimal (n : Z) (places : positive) : number :=
  match n with
  | Z0 => zero
  | Zpos p => ratio false p (10 ^ places)
  | Zneg p => ratio true p (10 ^ places)
  end.

(** [Math.max(a, b)] and [Math.min(a, b)]: [NaN] when an argument is,
    and [+0] above [-0]. *)
Definition max (a b : number) : number :=
  match a, b with
  | S754_nan, _ | _, S754_nan => S754_nan
  | _, _ =>
      if ltb a b then b
      else if ltb b a then a
      else match a with S754_zero true => b | _ => a end
  end.

Definition min (a b : number) : number :=
  match a, b with
  | S754_nan, _ | _, S754_nan => S754_nan
  | _, _ =>
      if ltb a b then a
      else if ltb b a then b
      else match a with S754_zero false => b | _ => a end
  end.

(** The value [m * 2^e] of a finite double as a fraction. *)
Definition numerator (m : positive) (e : Z) : Z :=
  match e with Zneg _ => Zpos m | _ => Zpos m * 2 ^ e end.
Definition denominator (e : Z) : Z :=
  match e with Zneg p => 2 ^ Zpos p | _ => 1 end.

(** The digits of [x.toFixed(8)] for [|x| = m * 2^e] below [10^21]:
    the integer [n] with [n / 10^8] nearest to [|x|], the larger one
    when two are as near. *)
Definition toFixed8 (m : positive) (e : Z) : Z :=
  (2 * numerator m e * 10 ^ 8 + denominator e) / (2 * denominator e).

(** [Number] of the string of [toFixed(8)] with sign [s] and digits
    [n]. *)
Definition ofFixed8 (s : bool) (n : Z) : number :=
  match n with
  | Zpos p => ratio s p (10 ^ 8)
  | _ => S754_zero s
  end.

#[global] Arguments add : simpl never.
#[global] Arguments sub : simpl never.
#[global] Arguments div : simpl never.
#[global] Arguments min : simpl never.
#[global] Arguments max : simpl never.
#[global] Arguments ofZ : simpl never.
#[global] Arguments ratio : simpl never.

End Num.

(** ** utils/decimal.ts *)
Module Decimal.
Import Num.

(** [Number(Number(value).toFixed(precision))] with [precision = 8].
    [toFixed] drops the sign of a zero, and gives the string of
    [String(value)] for [NaN], the infinities and [|value| >= 10^21],
    which [Number] reads back as [value]. *)
Definition formatDecimal (value : number) : number :=
  match value with
  | S754_finite s m e =>
      if 10 ^ 21 * denominator e <=? numerator m e then value
      else ofFixed8 s (toFixed8 m e)
  | S754_zero _ => zero
  | _ => value
  end.

Definition safeAdd (a b : number) : number := formatDecimal (add a b).

Definition safeSubtract (a b : number) : number := formatDecimal (sub a b).

#[global] Arguments formatDecimal : simpl never.

End Decimal.

(** ** models/*.ts: the ledger entities *)
Module Models.
Import Num.

Inductive WithdrawalStatus := pending | completed | rejected.
Inductive BorrowStatus := active | repaid.
Inductive VaultEventType := deposit | withdraw_request | withdraw.

#[global] Instance WithdrawalStatus_eq_dec : EqDecision WithdrawalStatus.
Proof. solve_decision. Defined.
#[global] Instance BorrowStatus_eq_dec : EqDecision BorrowStatus.
Proof. solve_decision. Defined.
#[global] Instance VaultEventType_eq_dec : EqDecision VaultEventType.
Proof. solve_decision. Defined.

Record User := mkUser {
  u_id : string;
  walletAddress : string;
  totalUsdBalance : number;
  floatingUsdBalance : number;
  borrowedUsdAmount : number
}.

Record Deposit := mkDeposit {
  d_user : string;
  d_chainId : Z;
  d_chainName : string;
  d_amount : string;
  d_tokenAddress : string;
  d_transactionHash : string;
  d_blockNumber : Z;
  usdValueAtDeposit : number
}.

Record Withdrawal := mkWithdrawal {
  w_id : string;
  w_user : string;
  w_chainId : Z;
  w_chainName : string;
  w_amount : string;
  w_tokenAddress : string;
  w_transactionHash : string;
  w_blockNumber : Z;
  usdValueAtWithdrawal : number;
  w_status : WithdrawalStatus;
  destinationAddress : string;
  w_requestId : string
}.

Record Borrow := mkBorrow {
  b_id : string;
  b_user : string;
  b_borrowedUsdAmount : number;
  b_status : BorrowStatus;
  repaymentAmount : option number;
  loanStartDate : Z;
  loanEndDate : option Z;
  createdAt : Z;
  tokenSentAddress : string;
  tokenAmount : string;
  b_transactionHash : string
}.

Record VaultEvent := mkVaultEvent {
  ve_type : VaultEventType;
  ve_chainId : Z;
  ve_transactionHash : string;
  ve_blockNumber : Z;
  ve_sender : string;
  ve_asset : string;
  ve_vault : string;
  ve_amount : string;
  ve_tokenId : string;
  ve_requestId : string;
  ve_usdValue : number
}.

(** The tables the ledger services share. *)
Record Db := mkDb {
  users : list User;
  deposits : list Deposit;
  withdrawals : list Withdrawal;
  borrows : list Borrow;
  vaultEvents : list VaultEvent
}.

(** [userRepository.save(user)] for a loaded user. *)
Definition saveUser (user : User) (us : list User) : list User :=
  map (fun u => if String.eqb (u_id u) (u_id user) then user else u) us.

(** [withdrawalRepository.save(w)] for a loaded withdrawal. *)
Definition saveWithdrawal (w : Withdrawal) (ws : list Withdrawal)
  : list Withdrawal :=
  map (fun x => if String.eqb (w_id x) (w_id w) then w else x) ws.

(** [borrowRepository.save(b)] for a loaded borrow. *)
Definition saveBorrow (b : Borrow) (bs : list Borrow) : list Borrow :=
  map (fun x => if String.eqb (b_id x) (b_id b) then b else x) bs.

Definition setUsers (db : Db) (us : list User) : Db :=
  mkDb us (deposits db) (withdrawals db) (borrows db) (vaultEvents db).
Definition setWithdrawals (db : Db) (ws : list Withdrawal) : Db :=
  mkDb (users db) (deposits db) ws (borrows db) (vaultEvents db).
Definition setBorrows (db : Db) (bs : list Borrow) : Db :=
  mkDb (users db) (deposits db) (withdrawals db) bs (vaultEvents db).

(** [l.reduce((sum, x) => sum + Number(f(x)), 0)]. *)
Definition sumOf {A} (f : A -> number) (l : list A) : number :=
  fold_left (fun sum x => add sum (f x)) l zero.

End Models.

(** ** services/VaultEventService: withdraw request and withdraw *)
Module VaultEventService.
Import Num Decimal Models.

(** [calculateTotalDeposits]: every deposit of the user. *)
Definition calculateTotalDeposits (db : Db) (user : User) : number :=
  sumOf usdValueAtDeposit
    (filter (fun d => d_user d = u_id user) (deposits db)).

(** [calculateTotalBorrows]: every borrow of the user, whatever its
    status. *)
Definition calculateTotalBorrows (db : Db) (user : User) : number :=
  sumOf b_borrowedUsdAmount
    (filter (fun b => b_user b = u_id user) (borrows db)).

(** [calculatePendingWithdrawals]. *)
Definition calculatePendingWithdrawals (db : Db) (user : User) : number :=
  sumOf usdValueAtWithdrawal
    (filter (fun w => w_user w = u_id user /\ w_status w = pending)
            (withdrawals db)).

Definition availableBalance (db : Db) (user : User) : number :=
  sub (sub (calculateTotalDeposits db user) (calculateTotalBorrows db user))
      (calculatePendingWithdrawals db user).

(** [validateWithdrawal]; [ev] is the event as the service holds it,
    its [usdValue] the number the price oracle answered. *)
Definition validateWithdrawal (db : Db) (user : User) (ev : VaultEvent)
  : bool :=
  geb (availableBalance db user) (ve_usdValue ev).

(** [handleWithdrawRequest]; [wid] is the id the store gives the new
    row, [chainName] is [chain.chainName], [column] what the
    [usd_value_at_withdrawal] column gives back for the number written
    to it.  The call of [completeWithdraw] that follows the two saves
    catches its own errors and writes to no table. *)
Definition handleWithdrawRequest (column : number -> number) (db : Db)
    (ev : VaultEvent) (user : User) (chainName wid : string) : Db :=
  let isValid := validateWithdrawal db user ev in
  let withdrawal :=
    mkWithdrawal wid (u_id user) (ve_chainId ev) chainName (ve_amount ev)
      (ve_asset ev) (ve_transactionHash ev) (ve_blockNumber ev)
      (column (ve_usdValue ev)) (if isValid then pending else rejected)
      (walletAddress user) (ve_requestId ev) in
  let db1 := setWithdrawals db (withdrawals db ++ [withdrawal]) in
  if isValid then
    let user' :=
      mkUser (u_id user) (walletAddress user) (totalUsdBalance user)
        (formatDecimal
           (safeSubtract (floatingUsdBalance user) (ve_usdValue ev)))
        (borrowedUsdAmount user) in
    setUsers db1 (saveUser user' (users db1))
  else db1.

Definition completeWithdrawal (ev : VaultEvent) (user : User) : User :=
  mkUser (u_id user) (walletAddress user)
    (formatDecimal (safeSubtract (totalUsdBalance user) (ve_usdValue ev)))
    (floatingUsdBalance user) (borrowedUsdAmount user).

Definition setCompleted (w : Withdrawal) (requestId : string)
  : Withdrawal :=
  mkWithdrawal (w_id w) (w_user w) (w_chainId w) (w_chainName w)
    (w_amount w) (w_tokenAddress w) (w_transactionHash w) (w_blockNumber w)
    (usdValueAtWithdrawal w) completed (destinationAddress w) requestId.

(** The first query of [handleWithdraw]: by request id. *)
Definition findByRequestId (db : Db) (ev : VaultEvent)
  : option Withdrawal :=
  head (filter (fun w => w_requestId w = ve_requestId ev
                         /\ w_status w = pending) (withdrawals db)).

(** The fallback of [handleWithdraw]: a pending withdrawal of the user
    with the same asset and amount. *)
Definition findByAssetAmount (db : Db) (ev : VaultEvent) (user : User)
  : option Withdrawal :=
  let pendingWithdrawals :=
    filter (fun w => w_user w = u_id user /\ w_status w = pending)
           (withdrawals db) in
  head (filter (fun w => w_tokenAddress w = ve_asset ev
                         /\ w_amount w = ve_amount ev) pendingWithdrawals).

Definition handleWithdraw (db : Db) (ev : VaultEvent) (user : User) : Db :=
  match findByRequestId db ev with
  | Some pendingWithdrawal =>
      let w' := setCompleted pendingWithdrawal
                  (w_requestId pendingWithdrawal) in
      let db1 := setWithdrawals db (saveWithdrawal w' (withdrawals db)) in
      setUsers db1 (saveUser (completeWithdrawal ev user) (users db1))
  | None =>
      match findByAssetAmount db ev user with
      | Some matchingWithdrawal =>
          let w' := setCompleted matchingWithdrawal (ve_requestId ev) in
          let db1 :=
            setWithdrawals db (saveWithdrawal w' (withdrawals db)) in
          setUsers db1 (saveUser (completeWithdrawal ev user) (users db1))
      | None => db
      end
  end.

End VaultEventService.

(** ** services/UserService.recalculateUserBalances: the sibling
    computation of a user's balances from the same tables *)
Module UserService.
Import Num Decimal Models.

Definition totalDeposits (db : Db) (user : User) : number :=
  fold_left (fun sum d => safeAdd sum (usdValueAtDeposit d))
    (filter (fun d => d_user d = u_id user) (deposits db)) zero.

Definition totalWithdrawals (db : Db) (user : User) : number :=
  fold_left (fun sum w =>
               if decide (w_status w = completed)
               then safeAdd sum (usdValueAtWithdrawal w) else sum)
    (filter (fun w => w_user w = u_id user) (withdrawals db)) zero.

Definition totalBorrowedAmount (db : Db) (user : User) : number :=
  fold_left (fun sum b =>
               if decide (b_status b = active)
               then safeAdd sum (b_borrowedUsdAmount b) else sum)
    (filter (fun b => b_user b = u_id user) (borrows db)) zero.

Definition recalculateUserBalances (db : Db) (user : User) : User :=
  let netDepositAmount :=
    safeSubtract (totalDeposits db user) (totalWithdrawals db user) in
  mkUser (u_id user) (walletAddress user) netDepositAmount
    (safeSubtract netDepositAmount (totalBorrowedAmount db user))
    (totalBorrowedAmount db user).

End UserService.

(** ** JavaScript values the services rely on *)
Module Js.

(** [String.prototype.toLowerCase] on the ASCII range. *)
Definition lowerAscii (c : ascii) : ascii :=
  let n := N_of_ascii c in
  if ((65 <=? n) && (n <=? 90))%N then ascii_of_N (n + 32) else c.

Fixpoint toLowerCase (s : string) : string :=
  match s with
  | EmptyString => EmptyString
  | String c r => String (lowerAscii c) (toLowerCase r)
  end.

(** [s.slice(n)]. *)
Fixpoint slice (n : nat) (s : string) : string :=
  match n, s with
  | O, _ => s
  | S m, EmptyString => EmptyString
  | S m, String _ r => slice m r
  end.

(** Truthiness of a string. *)
Definition truthy (s : string) : bool :=
  match s with EmptyString => false | _ => true end.

(** A plain object used as a dictionary from strings to strings: the
    own properties in creation order. *)
Definition object := list (string * string).

(** [o[k] = v]: an existing property keeps its place. *)
Fixpoint set (k v : string) (o : object) : object :=
  match o with
  | [] => [(k, v)]
  | (k', v') :: r =>
      if String.eqb k' k then (k', v) :: r else (k', v') :: set k v r
  end.

(** [o[k]] for an own property ([None] is [undefined]). *)
Fixpoint get (k : string) (o : object) : option string :=
  match o with
  | [] => None
  | (k', v') :: r => if String.eqb k' k then Some v' else get k r
  end.

Definition digitOf (c : ascii) : option N :=
  let n := N_of_ascii c in
  if ((48 <=? n) && (n <=? 57))%N then Some (n - 48)%N else None.

Fixpoint parseDigits (acc : N) (s : string) : option N :=
  match s with
  | EmptyString => Some acc
  | String c r =>
      match digitOf c with
      | Some d => parseDigits (10 * acc + d)%N r
      | None => None
      end
  end.

(** A property name that is an array index: the canonical decimal form
    of an integer below 2^32 - 1. *)
Definition arrayIndex (s : string) : option N :=
  match s with
  | EmptyString => None
  | String "0"%char EmptyString => Some 0%N
  | String "0"%char _ => None
  | _ => match parseDigits 0 s with
         | Some n => if (n <? 4294967295)%N then Some n else None
         | None => None
         end
  end.

Fixpoint insertIndex (e : N * (string * string))
    (l : list (N * (string * string))) : list (N * (string * string)) :=
  match l with
  | [] => [e]
  | x :: r => if (fst e <=? fst x)%N then e :: x :: r
              else x :: insertIndex e r
  end.

(** [Object.entries(o)]: array-index names in ascending order, then the
    other names in creation order. *)
Definition entries (o : object) : list (string * string) :=
  let indexed :=
    omap (fun kv => match arrayIndex (fst kv) with
                    | Some n => Some (n, kv)
                    | None => None
                    end) o in
  let named :=
    List.filter (fun kv => match arrayIndex (fst kv) with
                           | Some _ => false
                           | None => true
                           end) o in
  map snd (fold_right insertIndex [] indexed) ++ named.

End Js.

(** ** merkletreejs, as [new MerkleTree(leaves, keccak256, {sortPairs: true})]
    uses it; [hashFn a b] is [keccak256(Buffer.concat([a, b]))]. *)
Module MerkleTree.
Section WithHash.
Variable hashFn : Z -> Z -> Z.

(** The empty buffer, which compares equal to no digest. *)
Definition emptyBuffer : Z := -1.

(** [combined.sort(Buffer.compare)] then hash. *)
Definition combine (l r : Z) : Z :=
  if l <=? r then hashFn l r else hashFn r l.

(** One round of [_createHashes]; an odd last node is carried up. *)
Fixpoint createLayer (nodes : list Z) : list Z :=
  match nodes with
  | l :: r :: rest => combine l r :: createLayer rest
  | _ => nodes
  end.

Fixpoint createHashes (fuel : nat) (nodes : list Z) : list (list Z) :=
  match fuel with
  | O => []
  | S f =>
      if (1 <? length nodes)%nat
      then let layer := createLayer nodes in layer :: createHashes f layer
      else []
  end.

Definition layers (leaves : list Z) : list (list Z) :=
  leaves :: createHashes (length leaves) leaves.

Definition getRoot (leaves : list Z) : Z :=
  match last (layers leaves) with
  | Some (root :: _) => root
  | _ => emptyBuffer
  end.

(** Index of the first leaf equal to [leaf]. *)
Fixpoint indexOf (leaf : Z) (leaves : list Z) : option nat :=
  match leaves with
  | [] => None
  | x :: r => if x =? leaf then Some O else S <$> indexOf leaf r
  end.

Fixpoint proofFrom (index : nat) (ls : list (list Z)) : list Z :=
  match ls with
  | [] => []
  | layer :: rest =>
      let pairIndex :=
        if Nat.odd index then (index - 1)%nat else (index + 1)%nat in
      match layer !! pairIndex with
      | Some data => data :: proofFrom (index / 2)%nat rest
      | None => proofFrom (index / 2)%nat rest
      end
  end.

Definition getProof (leaves : list Z) (leaf : Z) : list Z :=
  match indexOf leaf leaves with
  | None => []
  | Some index => proofFrom index (layers leaves)
  end.

Definition verifyStep (hash data : Z) : Z :=
  if hash <? data then hashFn hash data else hashFn data hash.

Definition verify (proof : list Z) (targetNode root : Z) : bool :=
  fold_left verifyStep proof targetNode =? root.

End WithHash.
End MerkleTree.

(** ** models/NftTransfer.ts, the messages and the chain table *)
Module NftModels.

Record NftTransfer := mkNftTransfer {
  chainId : Z;
  chainName : string;
  transactionHash : string;
  blockNumber : Z;
  blockHash : string;
  tokenAddress : string;
  tokenId : string;
  fromAddress : string;
  toAddress : string;
  transactionTimestamp : Z;
  includedInMerkle : bool;
  merkleRoot : option Z
}.

Record Log := mkLog {
  address : string;
  topics : list string;
  data : string
}.

(** The transaction of a message; [tx_timestamp = 0] when the message
    carries none. *)
Record Transaction := mkTransaction {
  tx_hash : string;
  tx_chainId : Z;
  tx_blockNumber : Z;
  tx_blockHash : string;
  tx_timestamp : Z;
  tx_logs : list Log
}.

(** An entry of [SUPPORTED_CHAINS]. *)
Record Chain := mkChain {
  c_chainId : Z;
  c_chainName : string;
  relayerAddress : option string;
  nftContractAddress : option string
}.

Definition TRANSFER_EVENT_TOPIC : string :=
  "0xddf252ad1be2c89b69c2b068fc378daa952ba7f163c4a11628f55a4df523b3ef".

Definition setMerkleRoot (t : NftTransfer) (root : Z) : NftTransfer :=
  mkNftTransfer (chainId t) (chainName t) (transactionHash t)
    (blockNumber t) (blockHash t) (tokenAddress t) (tokenId t)
    (fromAddress t) (toAddress t) (transactionTimestamp t) true (Some root).

Fixpoint insertByBlock (t : NftTransfer) (l : list NftTransfer)
  : list NftTransfer :=
  match l with
  | [] => [t]
  | x :: r => if blockNumber t <=? blockNumber x then t :: x :: r
              else x :: insertByBlock t r
  end.

(** Rows by ascending [blockNumber], rows of one block in the order of
    the input: [order: { blockNumber: "ASC" }] of a query, and the
    stable [Array.prototype.sort((a, b) => a.blockNumber - b.blockNumber)]. *)
Definition sortByBlock (l : list NftTransfer) : list NftTransfer :=
  fold_right insertByBlock [] l.

(** One turn of the loop that fills the ownership object. *)
Definition ownershipStep (ownership : Js.object) (transfer : NftTransfer)
  : Js.object :=
  if Js.truthy (tokenId transfer) && Js.truthy (toAddress transfer)
  then Js.set (tokenId transfer) (Js.toLowerCase (toAddress transfer))
         ownership
  else ownership.

End NftModels.

(** ** services/MerkleService *)
Module MerkleService.
Import NftModels.
Section WithCrypto.
(** [keccak256(Buffer.concat([a, b]))] and
    [solidityPackedKeccak256(["address", "uint256"], [owner, tokenId])]. *)
Variable hashFn : Z -> Z -> Z.
Variable leafHash : string -> string -> Z.

Record ProofResult := mkProofResult {
  proof : list Z;
  root : Z;
  verified : bool
}.

Definition getCurrentOwnershipFromTransfers (transfers : list NftTransfer)
  : Js.object :=
  fold_left ownershipStep transfers [].

Definition createLeavesFromOwnership (ownership : Js.object) : list Z :=
  map (fun kv => leafHash (Js.toLowerCase (snd kv)) (fst kv))
      (Js.entries ownership).

(** [findOne] of the included transfers that carry a root, by
    descending block number. *)
Definition latestTransfer (store : list NftTransfer) : option NftTransfer :=
  fold_left
    (fun best t =>
       if includedInMerkle t && bool_decide (is_Some (merkleRoot t))
       then match best with
            | None => Some t
            | Some b => if blockNumber b <? blockNumber t then Some t
                        else best
            end
       else best)
    store None.

(** The transfers the tree of [latest] is rebuilt from. *)
Definition transfersUpTo (store : list NftTransfer) (latest : NftTransfer)
  : list NftTransfer :=
  sortByBlock
    (List.filter (fun t => blockNumber t <=? blockNumber latest) store).

Definition getMerkleProof (store : list NftTransfer)
    (owner tokenId : string) : option ProofResult :=
  let normalizedOwner := Js.toLowerCase owner in
  let normalizedTokenId := tokenId in
  match latestTransfer store with
  | None => None
  | Some latest =>
      let allTransfers := transfersUpTo store latest in
      let currentOwnership :=
        getCurrentOwnershipFromTransfers allTransfers in
      let leaves := createLeavesFromOwnership currentOwnership in
      match leaves with
      | [] => None
      | _ =>
          match Js.get normalizedTokenId currentOwnership with
          | None => None
          | Some actualOwner =>
              if negb (Js.truthy actualOwner)
                 || negb (String.eqb (Js.toLowerCase actualOwner)
                                     normalizedOwner)
              then None
              else
                let targetLeaf := leafHash normalizedOwner normalizedTokenId in
                let proof := MerkleTree.getProof hashFn leaves targetLeaf in
                let verified :=
                  MerkleTree.verify hashFn proof targetLeaf
                    (MerkleTree.getRoot hashFn leaves) in
                if verified
                then Some (mkProofResult proof
                             (MerkleTree.getRoot hashFn leaves) verified)
                else None
          end
      end
  end.

Definition verifyNftOwnership (store : list NftTransfer)
    (owner tokenId : string) : bool :=
  match getMerkleProof store owner tokenId with
  | Some proof => verified proof
  | None => false
  end.

End WithCrypto.
End MerkleService.

(** ** services/NftTransferService *)
Module NftTransferService.
Import NftModels.
Section WithCrypto.
Variable hashFn : Z -> Z -> Z.
Variable leafHash : string -> string -> Z.
(** [ethers.getAddress] and [ethers.toBigInt(_).toString()]; [None]
    when they throw. *)
Variable getAddress : string -> option string.
Variable toBigInt : string -> option string.

(** Latest transfer per token wins. *)
Definition getCurrentOwnershipFromTransfers (transfers : list NftTransfer)
  : Js.object :=
  let sortedTransfers := sortByBlock transfers in
  fold_left ownershipStep sortedTransfers [].

Definition createLeavesFromOwnership (ownership : Js.object) : list Z :=
  map (fun kv => leafHash (Js.toLowerCase (snd kv)) (fst kv))
      (Js.entries ownership).

(** [updateTransfersWithMerkleRoot] on the transfers not yet included:
    each of them is saved with the root, the others are not touched. *)
Definition updateTransfersWithMerkleRoot (store : list NftTransfer)
    (merkleRoot : Z) : list NftTransfer :=
  map (fun t => if includedInMerkle t then t else setMerkleRoot t merkleRoot)
      store.

(** [generateMerkleTree]: the root ([None] is the empty string) and the
    store after it. *)
Definition generateMerkleTree (store : list NftTransfer)
  : option Z * list NftTransfer :=
  let allTransfers := sortByBlock store in
  match allTransfers with
  | [] => (None, store)
  | _ =>
      let newTransfers :=
        sortByBlock (List.filter (fun t => negb (includedInMerkle t)) store) in
      match newTransfers with
      | [] => (None, store)
      | _ =>
          let currentOwnership :=
            getCurrentOwnershipFromTransfers allTransfers in
          let leaves := createLeavesFromOwnership currentOwnership in
          match leaves with
          | [] => (None, store)
          | _ =>
              let merkleRoot := MerkleTree.getRoot hashFn leaves in
              (Some merkleRoot,
               updateTransfersWithMerkleRoot store merkleRoot)
          end
      end
  end.

(** [processTransferEvent]: the store after it, and whether it threw.
    [getOrCreateUser] writes to the users table only; the submission of
    the root to the relayers writes to no table and its errors are
    caught. *)
Definition processTransferEvent (autoGenerateMerkle : bool) (now : Z)
    (store : list NftTransfer) (log : Log) (transaction : Transaction)
    (chain : Chain) : list NftTransfer * bool :=
  match topics log with
  | [_; topic1; topic2; topic3] =>
      match getAddress ("0x" +:+ Js.slice 26 topic1),
            getAddress ("0x" +:+ Js.slice 26 topic2),
            toBigInt topic3 with
      | Some fromAddress, Some toAddress, Some tokenId =>
          if existsb (fun t => String.eqb (transactionHash t)
                                          (tx_hash transaction)) store
          then (store, false)
          else
            let nftTransfer :=
              mkNftTransfer (tx_chainId transaction) (c_chainName chain)
                (tx_hash transaction) (tx_blockNumber transaction)
                (tx_blockHash transaction) (address log) tokenId
                fromAddress toAddress
                (if tx_timestamp transaction =? 0 then now
                 else tx_timestamp transaction)
                false None in
            let store1 := store ++ [nftTransfer] in
            if autoGenerateMerkle
            then (snd (generateMerkleTree store1), false)
            else (store1, false)
      | _, _, _ => (store, true)
      end
  | _ => (store, false)
  end.

Fixpoint processLogs (autoGenerateMerkle : bool) (now : Z)
    (store : list NftTransfer) (logs : list Log)
    (transaction : Transaction) (chain : Chain) (nft : string)
  : list NftTransfer * bool :=
  match logs with
  | [] => (store, false)
  | log :: rest =>
      if negb (String.eqb (Js.toLowerCase (address log))
                          (Js.toLowerCase nft))
      then processLogs autoGenerateMerkle now store rest transaction chain nft
      else if negb (bool_decide (head (topics log)
                                 = Some TRANSFER_EVENT_TOPIC))
      then processLogs autoGenerateMerkle now store rest transaction chain nft
      else
        match processTransferEvent autoGenerateMerkle now store log
                transaction chain with
        | (store1, true) => (store1, true)
        | (store1, false) =>
            processLogs autoGenerateMerkle now store1 rest transaction
              chain nft
        end
  end.

(** [processTransaction] over [SUPPORTED_CHAINS = chains]. *)
Definition processTransaction (chains : list Chain)
    (autoGenerateMerkle : bool) (now : Z) (store : list NftTransfer)
    (transaction : Transaction) : list NftTransfer * bool :=
  match List.find (fun c => c_chainId c =? tx_chainId transaction) chains with
  | None => (store, false)
  | Some chain =>
      match nftContractAddress chain with
      | None => (store, false)
      | Some nft =>
          processLogs autoGenerateMerkle now store (tx_logs transaction)
            transaction chain nft
      end
  end.

End WithCrypto.
End NftTransferService.

(** ** services/RelayerService *)
Module RelayerService.
Import Num Decimal Models.
Import NftModels(Log, address, topics, TRANSFER_EVENT_TOPIC, NftTransfer).

Record RelayerEvent := mkRelayerEvent {
  requestId : string;
  re_tokenId : string;
  protocol : string;
  asset : string;
  sender : string;
  amount : string;
  deadline : Z;
  status : Z;                 (* 1 pending, 2 approved, 3 rejected *)
  errorData : option string;
  re_chainId : Z
}.

(** What the service reads from outside the tables: the clock, the
    relayer contract of each chain ([Some c] when one is configured;
    [c requestId approval] tells whether the transaction was submitted
    and confirmed), and the figures that come from the price oracle and
    the lending pools. *)
Record Env := mkEnv {
  currentTime : Z;
  relayerContracts : Z -> option (string -> bool -> bool);
  totalLTV : string -> number;
  totalUtilization : string -> Z -> number;
  amountInUsd : string -> string -> Z -> number
}.

(** A repository the ownership check reads. *)
Inductive Lookup := MerkleLookup | DepositHistoryLookup.

(** What a run of [validateAndProcessRequest] leaves behind: the
    [processRequest] transactions it sent, the request as it holds it,
    and the error it threw, if any. *)
Record Run := mkRun {
  calls : list (string * bool);
  request : RelayerEvent;
  thrown : option string
}.

Section WithCrypto.
Variable hashFn : Z -> Z -> Z.
Variable leafHash : string -> string -> Z.

(** [verifyNftOwnership]: the answer and the lookups made for it. *)
Definition verifyNftOwnership (store : list NftTransfer) (db : Db)
    (userAddress tokenId : string) : bool * list Lookup :=
  let normalizedAddress := Js.toLowerCase userAddress in
  let isVerified :=
    MerkleService.verifyNftOwnership hashFn leafHash store
      normalizedAddress tokenId in
  if isVerified then (true, [MerkleLookup])
  else
    let deposits :=
      filter (fun e => ve_sender e = normalizedAddress
                       /\ ve_tokenId e = tokenId /\ ve_type e = deposit)
             (vaultEvents db) in
    let hasDeposits := (0 <? length deposits)%nat in
    (hasDeposits, [MerkleLookup; DepositHistoryLookup]).

Definition setStatus (r : RelayerEvent) (st : Z) (err : option string)
  : RelayerEvent :=
  mkRelayerEvent (requestId r) (re_tokenId r) (protocol r) (asset r)
    (sender r) (amount r) (deadline r) st err (re_chainId r).

(** [processRequestOnChain]. *)
Definition processRequestOnChain (env : Env) (req : RelayerEvent)
    (chainId : Z) (approval : bool) (errorReason : option string) : Run :=
  match relayerContracts env chainId with
  | None => mkRun [] req (Some "Relayer contract not found")
  | Some relayerContract =>
      if relayerContract (requestId req) approval
      then
        let err :=
          match errorReason with
          | Some reason =>
              if negb approval && Js.truthy reason then Some reason
              else errorData req
          | None => errorData req
          end in
        mkRun [(requestId req, approval)]
              (setStatus req (if approval then 2 else 3) err) None
      else mkRun [(requestId req, approval)] req
                 (Some "transaction failed")
  end.

(** The body of the [try] of [validateAndProcessRequest]: the single
    call of [processRequestOnChain] it ends with. *)
Definition validation (env : Env) (store : list NftTransfer) (db : Db)
    (req : RelayerEvent) (chainId : Z) : bool * option string :=
  if deadline req <? currentTime env then (false, Some "Request expired")
  else
    match List.find (fun u => String.eqb (walletAddress u) (sender req))
                    (users db) with
    | None => (false, Some "User not found")
    | Some user =>
        let isNftVerified :=
          fst (verifyNftOwnership store db (sender req) (re_tokenId req)) in
        if negb isNftVerified
        then (false, Some "NFT ownership verification failed")
        else
          let isWithinLtvLimit :=
            leb (add (totalUtilization env (re_tokenId req) chainId)
                     (amountInUsd env (asset req) (amount req) chainId))
                (totalLTV env (re_tokenId req)) in
          if negb isWithinLtvLimit then (false, Some "Exceeds LTV limits")
          else (true, None)
    end.

Definition validateAndProcessRequest (env : Env) (store : list NftTransfer)
    (db : Db) (req : RelayerEvent) (chainId : Z) : Run :=
  let '(approval, errorReason) := validation env store db req chainId in
  let run := processRequestOnChain env req chainId approval errorReason in
  match thrown run with
  | None => run
  | Some message =>
      let again :=
        processRequestOnChain env (request run) chainId false
          (Some ("Error: " +:+ message)) in
      mkRun (calls run ++ calls again) (request again) (thrown again)
  end.

End WithCrypto.

(** *** REPAY *)

(** The asset of a repayment: the emitter of the ERC20 Transfer log of
    the transaction, else of the receipt the provider returns, else the
    first configured asset, else ["0x0"]. *)
Definition isTransferLog (log : Log) : bool :=
  bool_decide (head (topics log) = Some TRANSFER_EVENT_TOPIC).

Definition resolveAssetAddress (txLogs : list Log)
    (firstAsset : option string) (receiptLogs : option (list Log))
  : string :=
  let fromTx :=
    match List.find isTransferLog txLogs with
    | Some transferLog => address transferLog
    | None => ""
    end in
  if Js.truthy fromTx then fromTx
  else
    let fallback :=
      match firstAsset with
      | Some a => if Js.truthy a then a else "0x0"
      | None => "0x0"
      end in
    match receiptLogs with
    | Some logs =>
        match List.find isTransferLog logs with
        | Some transferLog => address transferLog
        | None => fallback
        end
    | None => fallback
    end.

(** [getOrCreateUser]; [uid] is the id a new row gets. *)
Definition getOrCreateUser (db : Db) (wallet uid : string) : Db * User :=
  let normalizedAddress := Js.toLowerCase wallet in
  match List.find (fun u => String.eqb (walletAddress u) normalizedAddress)
                  (users db) with
  | Some existingUser => (db, existingUser)
  | None =>
      let newUser := mkUser uid normalizedAddress zero zero zero in
      (setUsers db (users db ++ [newUser]), newUser)
  end.

Definition activeBorrowsOf (db : Db) (user : User) : list Borrow :=
  filter (fun b => b_user b = u_id user /\ b_status b = active) (borrows db).

Definition totalActiveBorrowAmount (activeBorrows : list Borrow) : number :=
  sumOf b_borrowedUsdAmount activeBorrows.

Definition markRepaid (now : Z) (b : Borrow) : Borrow :=
  mkBorrow (b_id b) (b_user b) (b_borrowedUsdAmount b) repaid
    (Some (formatDecimal (b_borrowedUsdAmount b))) (loanStartDate b)
    (Some now) (createdAt b) (tokenSentAddress b) (tokenAmount b)
    (b_transactionHash b).

Definition reduceBy (remainingRepayAmount : number) (b : Borrow) : Borrow :=
  mkBorrow (b_id b) (b_user b)
    (formatDecimal (safeSubtract (b_borrowedUsdAmount b) remainingRepayAmount))
    (b_status b)
    (Some (formatDecimal
             (safeAdd (default zero (repaymentAmount b))
                      remainingRepayAmount)))
    (loanStartDate b) (loanEndDate b) (createdAt b) (tokenSentAddress b)
    (tokenAmount b) (b_transactionHash b).

(** The loop over [activeBorrows]: the borrows it saves, in the order
    it saves them. *)
Fixpoint repayLoop (now : Z) (remainingRepayAmount : number)
    (activeBorrows : list Borrow) : list Borrow :=
  match activeBorrows with
  | [] => []
  | borrow :: rest =>
      if leb remainingRepayAmount zero then []
      else
        let borrowAmount := b_borrowedUsdAmount borrow in
        if geb remainingRepayAmount borrowAmount
        then markRepaid now borrow
               :: repayLoop now (sub remainingRepayAmount borrowAmount) rest
        else reduceBy remainingRepayAmount borrow :: repayLoop now zero rest
  end.

Definition repayUser (user : User) (actualRepayAmount : number) : User :=
  mkUser (u_id user) (walletAddress user) (totalUsdBalance user)
    (formatDecimal (safeAdd (floatingUsdBalance user) actualRepayAmount))
    (formatDecimal
       (max zero (safeSubtract (borrowedUsdAmount user) actualRepayAmount))).

(** [handleRepayEvent] once the [Repay] log is parsed: [by] is the
    payer, [repayAmountInUsd] the oracle's value of the amount in the
    resolved asset. *)
Definition handleRepayEvent (now : Z) (db : Db) (by_ uid : string)
    (assetAddress : string) (repayAmountInUsd : number) : Db :=
  let '(db1, user) := getOrCreateUser db by_ uid in
  if negb (Js.truthy assetAddress) || String.eqb assetAddress "0x0"
  then db1
  else
    let activeBorrows := activeBorrowsOf db1 user in
    match activeBorrows with
    | [] => db1
    | _ =>
        let actualRepayAmount :=
          min repayAmountInUsd (totalActiveBorrowAmount activeBorrows) in
        if leb actualRepayAmount zero then db1
        else
          let db2 :=
            setUsers db1 (saveUser (repayUser user actualRepayAmount)
                                   (users db1)) in
          setBorrows db2
            (fold_left (fun table b => saveBorrow b table)
               (repayLoop now actualRepayAmount activeBorrows)
               (borrows db2))
    end.

End RelayerService.

(** ** producer: services/processed-blocks.service *)
Module ProcessedBlocksService.

Record ProcessedBlock := mkProcessedBlock {
  chainId : Z;
  blockNumber : Z;
  blockHash : string;
  parentHash : string;
  isReorged : bool
}.

(** The fields of an ethers [Block] the service reads; a missing hash
    is the empty string. *)
Record Block := mkBlock {
  number : Z;
  hash : string;
  b_parentHash : string
}.

Definition addBlock (repository : list ProcessedBlock) (chain : Z)
    (block : Block) : list ProcessedBlock :=
  repository
    ++ [mkProcessedBlock chain (number block) (hash block)
          (b_parentHash block) false].

(** [findOne({ where: { chainId, isReorged: false },
               order: { blockNumber: "DESC" } })]. *)
Definition getLatestProcessedBlock (repository : list ProcessedBlock)
    (chain : Z) : option ProcessedBlock :=
  fold_left
    (fun best r =>
       if (chainId r =? chain) && negb (isReorged r)
       then match best with
            | None => Some r
            | Some b => if blockNumber b <? blockNumber r then Some r
                        else best
            end
       else best)
    repository None.

Definition minOf (n : Z) (ns : list Z) : Z := fold_left Z.min ns n.
Definition maxOf (n : Z) (ns : list Z) : Z := fold_left Z.max ns n.

Definition setReorged (r : ProcessedBlock) : ProcessedBlock :=
  mkProcessedBlock (chainId r) (blockNumber r) (blockHash r)
    (parentHash r) true.

(** [update({ chainId, blockNumber: Between(min, max) },
            { isReorged: true })]. *)
Definition markBlocksAsReorged (repository : list ProcessedBlock)
    (chain : Z) (blockNumbers : list Z) : list ProcessedBlock :=
  match blockNumbers with
  | [] => repository
  | n :: ns =>
      map (fun r =>
             if (chainId r =? chain)
                && (minOf n ns <=? blockNumber r)
                && (blockNumber r <=? maxOf n ns)
             then setReorged r else r)
          repository
  end.

(** [cleanupOldBlocks]: the number of rows deleted and the rows left. *)
Definition cleanupOldBlocks (repository : list ProcessedBlock) (chain : Z)
    (keepBlocksCount : Z) : Z * list ProcessedBlock :=
  match getLatestProcessedBlock repository chain with
  | None => (0, repository)
  | Some latestBlock =>
      if blockNumber latestBlock <? keepBlocksCount then (0, repository)
      else
        let cutoffBlock := blockNumber latestBlock - keepBlocksCount in
        let kept :=
          List.filter
            (fun r => negb ((chainId r =? chain)
                            && (0 <=? blockNumber r)
                            && (blockNumber r <=? cutoffBlock)))
            repository in
        (Z.of_nat (length repository - length kept), kept)
  end.

(** The writes of the service. *)
Inductive Op :=
| AddBlock (chain : Z) (block : Block)
| MarkBlocksAsReorged (chain : Z) (blockNumbers : list Z)
| CleanupOldBlocks (chain : Z) (keepBlocksCount : Z).

Definition step (repository : list ProcessedBlock) (op : Op)
  : list ProcessedBlock :=
  match op with
  | AddBlock chain block => addBlock repository chain block
  | MarkBlocksAsReorged chain ns => markBlocksAsReorged repository chain ns
  | CleanupOldBlocks chain keep => snd (cleanupOldBlocks repository chain keep)
  end.

Definition run (repository : list ProcessedBlock) (ops : list Op)
  : list ProcessedBlock :=
  fold_left step ops repository.

End ProcessedBlocksService.

(** ** producer: services/events.service *)
Module EventsService.

(** *** BloomFilter *)
Record BloomFilter := mkBloomFilter {
  filter_ : list Z;          (* the Uint8Array *)
  size : Z;
  hashFunctions : nat
}.

Definition newBloomFilter : BloomFilter :=
  mkBloomFilter (replicate 2048 0) 2048 3.

(** [ToInt32]. *)
Definition toInt32 (z : Z) : Z := (z + 2 ^ 31) mod 2 ^ 32 - 2 ^ 31.

Fixpoint hashLoop (h : Z) (str : string) : Z :=
  match str with
  | EmptyString => h
  | String c r =>
      let h1 := toInt32 (h * 32) - h + Z.of_N (N_of_ascii c) in
      hashLoop (toInt32 h1) r
  end.

Definition hash (str : string) (seed : Z) : Z := Z.abs (hashLoop seed str).

Definition position (b : BloomFilter) (str : string) (i : nat) : nat :=
  Z.to_nat (hash str (Z.of_nat i) mod size b).

Definition add (b : BloomFilter) (str : string) : BloomFilter :=
  mkBloomFilter
    (fold_left (fun f i => <[position b str i := 1]> f)
               (seq 0 (hashFunctions b)) (filter_ b))
    (size b) (hashFunctions b).

Definition mightContain (b : BloomFilter) (str : string) : bool :=
  forallb (fun i => match filter_ b !! position b str i with
                    | Some 0 => false
                    | _ => true
                    end)
          (seq 0 (hashFunctions b)).

Definition clear (b : BloomFilter) : BloomFilter :=
  mkBloomFilter (replicate (length (filter_ b)) 0) (size b)
    (hashFunctions b).

(** *** The processor *)
Record TopicFilter := mkTopicFilter {
  tf_hash : string;
  description : option string;
  contractAddress : option string
}.

Record Log := mkLog {
  address : string;
  topics : list string;
  data : string;
  logIndex : Z
}.

(** A [TransactionReceipt]; numbers that the processor only prints are
    already in decimal. *)
Record TransactionReceipt := mkReceipt {
  r_logs : list Log;
  r_blockHash : string;
  r_blockNumber : Z;
  r_hash : string;
  r_from : string;
  r_to : option string;
  r_gasUsed : option string;
  r_status : option string
}.

Record TransactionResponse := mkResponse {
  t_value : option string;
  t_data : string;
  t_gasPrice : option string
}.

Record FilteredTransaction := mkFiltered {
  ft_blockHash : string;
  ft_blockNumber : Z;
  ft_topics : list string;
  ft_chainId : Z;
  ft_chainName : string;
  ft_hash : string;
  ft_from : string;
  ft_to : option string;
  ft_value : string;
  ft_data : string;
  ft_gasUsed : option string;
  ft_gasPrice : option string;
  ft_status : string;
  ft_logs : list Log
}.

(** [updateTopicBloomFilter]. *)
Definition updateTopicBloomFilter (b : BloomFilter)
    (topicFilters : list TopicFilter) : BloomFilter :=
  fold_left (fun acc f => add acc (Js.toLowerCase (tf_hash f)))
            topicFilters (clear b).

(** [new Set(topicFilters.map(f => f.hash.toLowerCase()))]. *)
Definition topicHashSet (topicFilters : list TopicFilter) : list string :=
  map (fun f => Js.toLowerCase (tf_hash f)) topicFilters.

Definition has (s : list string) (x : string) : bool :=
  existsb (String.eqb x) s.

(** [Set.prototype.add] on a set kept in insertion order. *)
Definition setAdd (s : list string) (x : string) : list string :=
  if has s x then s else s ++ [x].

(** The test of one log in the first loop of
    [processReceiptFromCache]. *)
Definition logMatches (topicBloomFilter : BloomFilter)
    (hashes : list string) (log : Log) : bool :=
  match topics log with
  | [] => false
  | t :: _ =>
      let topic0 := Js.toLowerCase t in
      mightContain topicBloomFilter topic0 && has hashes topic0
  end.

Definition matchingTopics (topicBloomFilter : BloomFilter)
    (hashes : list string) (logs : list Log) : list string :=
  fold_left
    (fun acc log =>
       if logMatches topicBloomFilter hashes log
       then match topics log with
            | t :: _ => setAdd acc (Js.toLowerCase t)
            | [] => acc
            end
       else acc)
    logs [].

Definition filteredLogs (hashes : list string) (logs : list Log)
  : list Log :=
  List.filter (fun log => match topics log with
                          | t :: _ => has hashes (Js.toLowerCase t)
                          | [] => false
                          end) logs.

Definition processReceiptFromCache (chain : Z) (chainName : string)
    (topicBloomFilter : BloomFilter) (txHash : string)
    (receipt : option TransactionReceipt)
    (transaction : option TransactionResponse) (hashes : list string)
  : option FilteredTransaction :=
  match receipt with
  | None => None
  | Some receipt =>
      match r_logs receipt with
      | [] => None
      | _ =>
          let topicsArray :=
            matchingTopics topicBloomFilter hashes (r_logs receipt) in
          match topicsArray with
          | [] => None
          | _ =>
              Some (mkFiltered (r_blockHash receipt) (r_blockNumber receipt)
                      topicsArray chain chainName (r_hash receipt)
                      (r_from receipt) (r_to receipt)
                      (default "0" (transaction ≫= t_value))
                      (default "" (t_data <$> transaction))
                      (r_gasUsed receipt)
                      (transaction ≫= t_gasPrice)
                      (default "1" (r_status receipt))
                      (filteredLogs hashes (r_logs receipt)))
          end
      end
  end.

(** [processBlock] rebuilds the bloom filter from the filters it then
    hands to [filterTransactionsByTopicsOptimized], which builds the
    hash set from the same filters; this is the receipt test under
    that pairing. *)
Definition processReceipt (chain : Z) (chainName : string)
    (b : BloomFilter) (topicFilters : list TopicFilter) (txHash : string)
    (receipt : option TransactionReceipt)
    (transaction : option TransactionResponse)
  : option FilteredTransaction :=
  processReceiptFromCache chain chainName
    (updateTopicBloomFilter b topicFilters) txHash receipt transaction
    (topicHashSet topicFilters).

End EventsService.

(** ** The ledger of the specification, and sample rows *)
Module LedgerSpec.
Import Num Decimal Models VaultEventService.

(** The balance of the specification: deposits less completed
    withdrawals, pending withdrawals and active borrows. *)
Definition spec_availableBalance (db : Db) (user : User) : number :=
  sub (sub (sub
    (sumOf usdValueAtDeposit
       (filter (fun d => d_user d = u_id user) (deposits db)))
    (sumOf usdValueAtWithdrawal
       (filter (fun w => w_user w = u_id user /\ w_status w = completed)
               (withdrawals db))))
    (sumOf usdValueAtWithdrawal
       (filter (fun w => w_user w = u_id user /\ w_status w = pending)
               (withdrawals db))))
    (sumOf b_borrowedUsdAmount
       (filter (fun b => b_user b = u_id user /\ b_status b = active)
               (borrows db))).

(** Whole dollars. *)
Definition usd (n : Z) : number := ofZ n.

End LedgerSpec.

(** ** Readings of the specification used to state what fails *)
Module RelayerSpec.
Import Models RelayerService.

(** Oldest first: a borrow left as it was has no younger borrow that
    was written. *)
Definition walkedOldestFirst (before after : list Borrow) : Prop :=
  forall older newer,
    older ∈ before -> newer ∈ before ->
    loanStartDate older < loanStartDate newer ->
    older ∈ after -> newer ∈ after.

Definition bob : User :=
  mkUser "u2" "0xbb" Num.zero Num.zero (LedgerSpec.usd 200).

Definition newerLoan : Borrow :=
  mkBorrow "b1" "u2" (LedgerSpec.usd 100) active None 2000 None 2000
    "0xa55e7" "100" "0xe1".
Definition olderLoan : Borrow :=
  mkBorrow "b2" "u2" (LedgerSpec.usd 100) active None 1000 None 1000
    "0xa55e7" "100" "0xe2".

(** The borrow table as the query returns it: the younger loan first. *)
Definition db_two_loans : Db := mkDb [bob] [] [] [newerLoan; olderLoan] [].

(** What is left of a repayment once the borrows of [taken] were paid
    from it, one subtraction after the other. *)
Definition remainingAfter (repaidAmount : Num.number) (taken : list Borrow)
  : Num.number :=
  fold_left (fun remaining b => Num.sub remaining (b_borrowedUsdAmount b))
    taken repaidAmount.

(** Erin owes 0.1 USD and 0.2 USD. *)
Definition erin : User :=
  mkUser "u5" "0xee" Num.zero Num.zero (Num.ofDecimal 3 1).

Definition db_small_loans : Db :=
  mkDb [erin] [] []
    [mkBorrow "b3" "u5" (Num.ofDecimal 1 1) active None 1000 None 1000
       "0xa55e7" "1" "0xe3";
     mkBorrow "b4" "u5" (Num.ofDecimal 2 1) active None 2000 None 2000
       "0xa55e7" "2" "0xe4"] [].

(** A deployment whose relayer contract confirms every transaction. *)
Definition env_at (now : Z) (ltv utilization amountUsd : Num.number) : Env :=
  mkEnv now (fun _ => Some (fun _ _ => true)) (fun _ => ltv)
    (fun _ _ => utilization) (fun _ _ _ => amountUsd).

Definition carol : User := mkUser "u3" "0xcc" Num.zero Num.zero Num.zero.

Definition carolDeposit : VaultEvent :=
  mkVaultEvent deposit 80094 "0xd9" 5 "0xcc" "0xa55e7" "0xva" "1000" "7"
    "" (LedgerSpec.usd 1000).

Definition db_carol : Db := mkDb [carol] [] [] [] [carolDeposit].

Definition request_due (deadline_ : Z) : RelayerEvent :=
  mkRelayerEvent "0x77" "7" "0x9001" "0xa55e7" "0xcc" "100" deadline_ 1
    None 80094.

(** Token 7 went to 0xdd and that transfer carries a root. *)
Definition store_token7_of_dd : list NftModels.NftTransfer :=
  [NftModels.mkNftTransfer 80094 "berachain" "0xf1" 3 "0xb3" "0x11a5" "7"
     "0x00" "0xdd" 0 true (Some 99)].

(** Stand-ins for keccak256 where a hash has to be run. *)
Definition toyHash (a b : Z) : Z := 2 * a + 3 * b + 1.
Definition toyLeaf (owner tokenId : string) : Z :=
  Z.of_nat (String.length owner + 7 * String.length tokenId).

End RelayerSpec.

(** ** Readings of the specification for the collateral request and the
    ownership check *)
Module CollateralSpec.
Import Models RelayerService.
Section WithCrypto.
Variable hashFn : Z -> Z -> Z.
Variable leafHash : string -> string -> Z.

(** The request is approved: [processRequest] was sent once, with
    [true], and the stored event is marked approved. *)
Definition approved (run : Run) (req : RelayerEvent) : Prop :=
  calls run = [(requestId req, true)] /\ status (request run) = 2.

(** The request is rejected: [processRequest] was sent once, with
    [false], and the stored event carries an error reason. *)
Definition rejected (run : Run) (req : RelayerEvent) : Prop :=
  calls run = [(requestId req, false)] /\ status (request run) = 3
  /\ exists reason, errorData (request run) = Some reason.

(** The claim on a collateral request, the deadline read as strictly
    after the current time. *)
Definition approvedIffDeadlineInFuture (env : Env)
    (store : list NftModels.NftTransfer) (db : Db) (req : RelayerEvent)
    (chainId : Z) : Prop :=
  approved (validateAndProcessRequest hashFn leafHash env store db req chainId)
           req
  <-> (Num.leb (Num.add (totalUtilization env (re_tokenId req) chainId)
                        (amountInUsd env (asset req) (amount req) chainId))
               (totalLTV env (re_tokenId req)) = true
       /\ fst (verifyNftOwnership hashFn leafHash store db (sender req)
                 (re_tokenId req)) = true
       /\ currentTime env < deadline req).

(** The claim on the ownership check: true exactly when a proof would
    be returned, and the deposit history read only when no transfer
    carries a root. *)
Definition fallbackOnlyWithoutRoot (store : list NftModels.NftTransfer)
    (db : Db) (owner tokenId : string) : Prop :=
  (fst (verifyNftOwnership hashFn leafHash store db owner tokenId) = true
   <-> is_Some (MerkleService.getMerkleProof hashFn leafHash store owner
                  tokenId))
  /\ (DepositHistoryLookup
        ∈ snd (verifyNftOwnership hashFn leafHash store db owner tokenId)
      -> MerkleService.latestTransfer store = None).

End WithCrypto.
End CollateralSpec.

(** ** The scan behind [findOne] with [order: { blockNumber: "DESC" }] *)
Module Scan.

(** One turn: a row that passes the [where] clause replaces the best
    row so far when its key is higher. *)
Definition laterBy {A} (alive : A -> bool) (key : A -> Z)
    (best : option A) (r : A) : option A :=
  if alive r
  then match best with
       | None => Some r
       | Some b => if key b <? key r then Some r else best
       end
  else best.

End Scan.

(** ** Readings of the specification for the block ledger *)
Module BlockLedgerSpec.
Import ProcessedBlocksService.

(** [latestProcessed(chain) >= n]. *)
Definition latestAtLeast (repository : list ProcessedBlock) (chain n : Z)
  : Prop :=
  exists r, getLatestProcessedBlock repository chain = Some r
            /\ n <= blockNumber r.

(** A later write that is not a reorg mark reaching block [n] of the
    chain, nor a cleanup of the chain that keeps no block. *)
Definition keepsLatest (chain n : Z) (op : Op) : Prop :=
  match op with
  | AddBlock _ _ => True
  | MarkBlocksAsReorged c ns => c <> chain \/ Forall (fun m => m < n) ns
  | CleanupOldBlocks c keep => c <> chain \/ 1 <= keep
  end.

(** A row that counts for the latest block of [chain]. *)
Definition live (chain : Z) (r : ProcessedBlock) : bool :=
  (chainId r =? chain) && negb (isReorged r).

(** The invariant: a live row of the chain at or above [n]. *)
Definition hasLiveAtLeast (repository : list ProcessedBlock) (chain n : Z)
  : Prop :=
  exists r, r ∈ repository /\ live chain r = true /\ n <= blockNumber r.

Definition block5 : Block := mkBlock 5 "0xh5" "0xh4".
Definition block6 : Block := mkBlock 6 "0xh6" "0xh5".

End BlockLedgerSpec.

(** ** Readings of the specification for the topic matcher *)
Module MatcherSpec.
Import EventsService.

(** The first topic of the log is the hash of one of the filters. *)
Definition topicInFilters (topicFilters : list TopicFilter) (log : Log)
  : Prop :=
  exists f t rest,
    f ∈ topicFilters /\ topics log = t :: rest
    /\ Js.toLowerCase (tf_hash f) = Js.toLowerCase t.

(** The same, and the filter has no contract or the contract that
    emitted the log. *)
Definition topicAndContractInFilters (topicFilters : list TopicFilter)
    (log : Log) : Prop :=
  exists f t rest,
    f ∈ topicFilters /\ topics log = t :: rest
    /\ Js.toLowerCase (tf_hash f) = Js.toLowerCase t
    /\ match contractAddress f with
       | None => True
       | Some c => Js.toLowerCase c = Js.toLowerCase (address log)
       end.

(** The claim on the log test of the block processor. *)
Definition matchesWithinContract (b : BloomFilter)
    (topicFilters : list TopicFilter) (log : Log) : Prop :=
  logMatches (updateTopicBloomFilter b topicFilters)
             (topicHashSet topicFilters) log = true
  <-> topicAndContractInFilters topicFilters log.

(** The ERC721 Transfer filter of the NFT contract, and an ERC20
    Transfer log of another contract. *)
Definition nftTransferFilter : TopicFilter :=
  mkTopicFilter NftModels.TRANSFER_EVENT_TOPIC (Some "NFT Transfer event")
    (Some "0x11a5398855dde5e08d87bacb0d86ef682f7de118").

Definition erc20TransferLog : Log :=
  mkLog "0xFCBD14DC51f0A4d49d5E53C2E0950e0bC26d0Dce"
    [NftModels.TRANSFER_EVENT_TOPIC; "0x01"; "0x02"] "0x64" 0.

End MatcherSpec.

(** ** Readings of the specification for the ownership snapshot *)
Module SnapshotSpec.
Import NftModels.

(** A transfer the snapshot loop records for [tid]. *)
Definition recordsFor (tid : string) (t : NftTransfer) : bool :=
  Js.truthy (tokenId t) && Js.truthy (toAddress t)
  && String.eqb (tokenId t) tid.

(** The order of the sort by block number. *)
Definition byBlock (a b : NftTransfer) : Prop :=
  blockNumber a <= blockNumber b.

(** The greatest block number of a list of transfers. *)
Definition maxBlock (ts : list NftTransfer) : Z :=
  match ts with
  | [] => 0
  | t :: r => fold_right (fun x m => Z.max (blockNumber x) m) (blockNumber t) r
  end.

(** The owner of [tid]: among its transfers of greatest block number,
    the recipient of the one that comes last in the input. *)
Definition latestOwner (transfers : list NftTransfer) (tid : string)
  : option string :=
  let ofToken := List.filter (recordsFor tid) transfers in
  (fun t => Js.toLowerCase (toAddress t))
    <$> last (List.filter (fun t => blockNumber t =? maxBlock ofToken)
                          ofToken).

(** The transfers of [tid] in the greatest block it has a transfer
    in. *)
Definition topTransfers (transfers : list NftTransfer) (tid : string)
  : list NftTransfer :=
  let ofToken := List.filter (recordsFor tid) transfers in
  List.filter (fun t => blockNumber t =? maxBlock ofToken) ofToken.

(** The claim that the snapshot does not depend on the order of the
    transfer list. *)
Definition snapshotIndependentOfOrder (l l' : list NftTransfer) : Prop :=
  Permutation l l' ->
  forall tid,
    Js.get tid (NftTransferService.getCurrentOwnershipFromTransfers l)
    = Js.get tid (NftTransferService.getCurrentOwnershipFromTransfers l').

Definition transferTo (txHash : string) (block : Z) (tid to_ : string)
  : NftTransfer :=
  mkNftTransfer 80094 "berachain" txHash block "0xb0" "0x11a5" tid "0x00"
    to_ 0 false None.

(** Token 7 changes hands twice in block 20. *)
Definition mintTo_aa : NftTransfer := transferTo "0xf1" 20 "7" "0xAA".
Definition thenTo_bb : NftTransfer := transferTo "0xf2" 20 "7" "0xBB".

End SnapshotSpec.

(** ** Notions used to follow a proof up the tree *)
Module MerkleSpec.
Section WithHash.
Variable hashFn : Z -> Z -> Z.

Definition pairIndex (index : nat) : nat :=
  if Nat.odd index then (index - 1)%nat else (index + 1)%nat.

(** The node above [x]: [x] hashed with its pair, or [x] itself when it
    is the odd node carried up. *)
Definition parent (nodes : list Z) (index : nat) (x : Z) : Z :=
  match nodes !! pairIndex index with
  | Some data => MerkleTree.verifyStep hashFn x data
  | None => x
  end.

(** The first node of the highest layer. *)
Definition rootOf (ls : list (list Z)) : Z :=
  match last ls with
  | Some (root :: _) => root
  | _ => MerkleTree.emptyBuffer
  end.

End WithHash.
End MerkleSpec.

(** ** Readings of the specification for the proof query *)
Module ProofSpec.
Import NftModels.

(** A transfer that carries a Merkle root. *)
Definition rooted (t : NftTransfer) : bool :=
  includedInMerkle t && bool_decide (is_Some (merkleRoot t)).

End ProofSpec.

(** ** Readings of the specification for the transfer store *)
Module TransferSpec.
Import NftModels.

(** An ERC721 Transfer log of the NFT contract: the emitter, the first
    topic and the four topics [processTransaction] and
    [processTransferEvent] look for. *)
Definition isNftTransferLog (nft : string) (log : Log) : bool :=
  String.eqb (Js.toLowerCase (address log)) (Js.toLowerCase nft)
  && bool_decide (head (topics log) = Some TRANSFER_EVENT_TOPIC)
  && (length (topics log) =? 4)%nat.

(** The row [processTransferEvent] builds for a decoded log. *)
Definition rowOf (now : Z) (transaction : Transaction) (chain : Chain)
    (log : Log) (from_ to_ tid : string) : NftTransfer :=
  mkNftTransfer (tx_chainId transaction) (c_chainName chain)
    (tx_hash transaction) (tx_blockNumber transaction)
    (tx_blockHash transaction) (address log) tid from_ to_
    (if tx_timestamp transaction =? 0 then now else tx_timestamp transaction)
    false None.

Definition hashes (store : list NftTransfer) : list string :=
  map transactionHash store.

(** The store after a sequence of messages, each processed at its own
    time, whether or not its processing threw. *)
Definition processAll (hashFn : Z -> Z -> Z) (leafHash : string -> string -> Z)
    (getAddress toBigInt : string -> option string) (chains : list Chain)
    (autoGenerateMerkle : bool) (messages : list (Z * Transaction))
    (store : list NftTransfer) : list NftTransfer :=
  fold_left
    (fun st m =>
       fst (NftTransferService.processTransaction hashFn leafHash getAddress
              toBigInt chains autoGenerateMerkle (fst m) st (snd m)))
    messages store.

(** A mint of token 1 and a mint of token 2 in one transaction. *)
Definition nftAddress : string := "0x11A5398855dDe5e08D87bAcb0d86ef682f7DE118".

Definition berachain : Chain :=
  mkChain 80094 "berachain" (Some "0xBd95") (Some nftAddress).

(** The 32-byte topic of an address given by its 40 hex digits. *)
Definition addressTopic (hex40 : string) : string :=
  "0x000000000000000000000000" +:+ hex40.

Definition zeroAccount : string := "0000000000000000000000000000000000000000".
Definition accountAA : string := "00000000000000000000000000000000000000AA".
Definition accountBB : string := "00000000000000000000000000000000000000BB".

Definition mintLog (tid : string) : Log :=
  mkLog nftAddress
    [TRANSFER_EVENT_TOPIC; addressTopic zeroAccount; addressTopic accountAA;
     tid] "0x".

Definition doubleMint : Transaction :=
  mkTransaction "0xabc" 80094 100 "0xb100" 1700000000
    [mintLog "1"; mintLog "2"].

(** Stand-ins for the ethers decoders, for running the handlers. *)
Definition toyAddress (s : string) : option string := Some s.
Definition toyBigInt (s : string) : option string := Some s.

End TransferSpec.

(** ** Sample messages for running the services *)
Module Samples.
Import NftModels.

(** The mint of token 1 to the account AA in block 100. *)
Definition mintOfToken1 : Transaction :=
  mkTransaction "0xabc" 80094 100 "0xb100" 1700000000
    [TransferSpec.mintLog "1"].

(** The store after the mint, the root being regenerated on the way. *)
Definition storeAfterMint : list NftTransfer :=
  fst (NftTransferService.processTransaction RelayerSpec.toyHash
         RelayerSpec.toyLeaf TransferSpec.toyAddress TransferSpec.toyBigInt
         [TransferSpec.berachain] true 0 [] mintOfToken1).

End Samples.

(** ** services/VaultEventService: from the message to the handlers *)
Module VaultEventPipeline.
Import Num Decimal Models VaultEventService.

Definition DEPOSIT_TOPIC : string :=
  "0x76fbc6746f9766ec8a8dc297122a14d120cc5fc43cd3f389031392fd382a236e".
Definition WITHDRAW_REQUEST_TOPIC : string :=
  "0x1e8654c3fc91901b235669b278816887272843156bcd33601d80c57cdc8a8c3f".
Definition WITHDRAW_TOPIC : string :=
  "0x31e649bf611b383ca34d2043146756fcdcae0060c80c6c8647e825cf9f5d5af6".

(** A log of a message; [logIndex] is [None] when the message carries
    no such field. *)
Record Log := mkLog {
  address : string;
  topics : list string;
  data : string;
  logIndex : option Z
}.

Record Transaction := mkTransaction {
  tx_hash : string;
  tx_chainId : Z;
  tx_blockNumber : Z;
  tx_logs : list Log
}.

(** An entry of [SUPPORTED_CHAINS], as this service reads it. *)
Record Chain := mkChain {
  c_chainId : Z;
  c_chainName : string;
  vaultContractAddress : option string
}.

(** What [parseEventLog] returns; a field the event does not have is
    the empty string. *)
Record ParsedLog := mkParsedLog {
  p_sender : string;
  p_asset : string;
  p_vault : string;
  p_amount : string;
  p_tokenId : string;
  p_requestId : string
}.

(** What one run of [processVaultEvent] takes from outside the tables:
    the number [getUsdPrice] answers, and the ids the store gives to a
    new user and to a new withdrawal. *)
Record Outside := mkOutside {
  usdValue : number;
  uid : string;
  wid : string
}.

Definition getEventType (topic : string) : option VaultEventType :=
  if String.eqb topic DEPOSIT_TOPIC then Some deposit
  else if String.eqb topic WITHDRAW_REQUEST_TOPIC then Some withdraw_request
  else if String.eqb topic WITHDRAW_TOPIC then Some withdraw
  else None.

(** [getOrCreateUser]: the text of the method is the one of
    [RelayerService.getOrCreateUser]. *)
Definition getOrCreateUser (db : Db) (wallet uid : string) : Db * User :=
  RelayerService.getOrCreateUser db wallet uid.

(** [userRepository.findOne({ where: { walletAddress } })]. *)
Definition findUser (db : Db) (wallet : string) : option User :=
  List.find (fun u => String.eqb (walletAddress u) wallet) (users db).

(** [handleDeposit]; [ev] is the event as the service holds it, and
    [column] what the [usd_value_at_deposit] column gives back for the
    number written to it. *)
Definition handleDeposit (column : number -> number) (db : Db)
    (ev : VaultEvent) (user : User) (chainName : string) : Db :=
  let deposit :=
    mkDeposit (u_id user) (ve_chainId ev) chainName (ve_amount ev)
      (ve_asset ev) (ve_transactionHash ev) (ve_blockNumber ev)
      (column (ve_usdValue ev)) in
  let db1 :=
    mkDb (users db) (deposits db ++ [deposit]) (withdrawals db) (borrows db)
      (vaultEvents db) in
  let user' :=
    mkUser (u_id user) (walletAddress user)
      (formatDecimal (safeAdd (totalUsdBalance user) (ve_usdValue ev)))
      (formatDecimal (safeAdd (floatingUsdBalance user) (ve_usdValue ev)))
      (borrowedUsdAmount user) in
  setUsers db1 (saveUser user' (users db1)).

(** The query that opens [processVaultEvent].  The where clause has the
    transaction hash and the chain, and the log index when the log has
    one; [processVaultEvent] assigns no [logIndex] to the event it
    saves, so the column is null in every row and a clause on it holds
    of none. *)
Definition existingEvent (db : Db) (transaction : Transaction)
    (chain : Chain) (log : Log) : bool :=
  match logIndex log with
  | None =>
      existsb (fun e => String.eqb (ve_transactionHash e) (tx_hash transaction)
                        && (ve_chainId e =? c_chainId chain))
              (vaultEvents db)
  | Some _ => false
  end.

(** Whether an event of the transaction is stored for the chain. *)
Definition storedFor (transaction : Transaction) (chain : Chain)
    (events : list VaultEvent) : bool :=
  existsb (fun e => String.eqb (ve_transactionHash e) (tx_hash transaction)
                    && (ve_chainId e =? c_chainId chain)) events.

(** [vaultEventRepository.save(vaultEvent)]: the row holds what its
    [usd_value] column gives back. *)
Definition saveVaultEvent (column : number -> number) (db : Db)
    (vaultEvent : VaultEvent) : Db :=
  let row :=
    mkVaultEvent (ve_type vaultEvent) (ve_chainId vaultEvent)
      (ve_transactionHash vaultEvent) (ve_blockNumber vaultEvent)
      (ve_sender vaultEvent) (ve_asset vaultEvent) (ve_vault vaultEvent)
      (ve_amount vaultEvent) (ve_tokenId vaultEvent)
      (ve_requestId vaultEvent) (column (ve_usdValue vaultEvent)) in
  mkDb (users db) (deposits db) (withdrawals db) (borrows db)
    (vaultEvents db ++ [row]).

Section WithDecoder.
(** What a [decimal(24,8)] column gives back for a number written to
    it. *)
Variable column : number -> number.
(** [parseEventLog], which decodes with ethers; [None] when it returns
    null. *)
Variable parseEventLog : Log -> VaultEventType -> option ParsedLog.

(** [processVaultEvent]: the tables after it, and whether it threw. *)
Definition processVaultEvent (out : Outside) (db : Db) (log : Log)
    (transaction : Transaction) (chain : Chain) : Db * bool :=
  if existingEvent db transaction chain log then (db, false)
  else
    match head (topics log) ≫= getEventType with
    | None => (db, false)
    | Some eventType =>
        match parseEventLog log eventType with
        | None => (db, false)
        | Some parsedLog =>
            let sender := Js.toLowerCase (p_sender parsedLog) in
            let '(db1, user) :=
              match eventType with
              | deposit =>
                  let '(db0, created) :=
                    getOrCreateUser db (p_sender parsedLog) (uid out) in
                  let db0' := setUsers db0 (saveUser created (users db0)) in
                  (db0', findUser db0' sender)
              | _ => (db, None)
              end in
            let userMissing :=
              match eventType, user with
              | deposit, None => true
              | _, _ => false
              end in
            if userMissing then (db1, true)
            else
              let vaultEvent :=
                mkVaultEvent eventType (c_chainId chain) (tx_hash transaction)
                  (tx_blockNumber transaction) sender (p_asset parsedLog)
                  (p_vault parsedLog) (p_amount parsedLog)
                  (p_tokenId parsedLog) (p_requestId parsedLog)
                  (usdValue out) in
              let db2 := saveVaultEvent column db1 vaultEvent in
              match eventType with
              | deposit =>
                  match user with
                  | Some user =>
                      (handleDeposit column db2 vaultEvent user
                         (c_chainName chain), false)
                  | None => (db2, false)
                  end
              | withdraw_request =>
                  match findUser db2 sender with
                  | Some existingUser =>
                      (handleWithdrawRequest column db2 vaultEvent
                         existingUser (c_chainName chain) (wid out), false)
                  | None => (db2, false)
                  end
              | withdraw =>
                  match findUser db2 sender with
                  | Some existingUser =>
                      (handleWithdraw db2 vaultEvent existingUser, false)
                  | None => (db2, false)
                  end
              end
        end
    end.

Definition isVaultTopic (log : Log) : bool :=
  match topics log with
  | [] => false
  | t :: _ =>
      String.eqb t DEPOSIT_TOPIC || String.eqb t WITHDRAW_REQUEST_TOPIC
      || String.eqb t WITHDRAW_TOPIC
  end.

(** The loop of [processTransaction]; [outside i] is what the run on
    the log at position [i] takes from outside. *)
Fixpoint processLogs (outside : nat -> Outside) (i : nat) (db : Db)
    (logs : list Log) (transaction : Transaction) (chain : Chain)
    (vault : string) : Db * bool :=
  match logs with
  | [] => (db, false)
  | log :: rest =>
      if negb (String.eqb (Js.toLowerCase (address log))
                          (Js.toLowerCase vault))
      then processLogs outside (S i) db rest transaction chain vault
      else if negb (isVaultTopic log)
      then processLogs outside (S i) db rest transaction chain vault
      else
        match processVaultEvent (outside i) db log transaction chain with
        | (db1, true) => (db1, true)
        | (db1, false) =>
            processLogs outside (S i) db1 rest transaction chain vault
        end
  end.

(** [processTransaction] over [SUPPORTED_CHAINS = chains]. *)
Definition processTransaction (chains : list Chain)
    (outside : nat -> Outside) (db : Db) (transaction : Transaction)
  : Db * bool :=
  match List.find (fun c => c_chainId c =? tx_chainId transaction) chains with
  | None => (db, false)
  | Some chain =>
      match vaultContractAddress chain with
      | None => (db, false)
      | Some vault =>
          if negb (Js.truthy vault) then (db, false)
          else processLogs outside 0 db (tx_logs transaction) transaction
                 chain vault
      end
  end.

End WithDecoder.

(** The topic hash ethers derives from each fragment of [EVENT_ABI]:
    keccak256 of [Deposit(address,address,address,uint256,uint256,uint256)],
    of [WithdrawRequest(bytes32,address,address,address,uint256,uint256,uint256)]
    and of [Withdraw(address,address,address,bytes32,uint256,uint256,uint256)]. *)
Definition fragmentTopic (eventType : VaultEventType) : string :=
  match eventType with
  | deposit =>
      "0x76fbc6746f9766ec8a8dc297122a14d120cc5fc43cd3f389031392fd382a236e"
  | withdraw_request =>
      "0x1e8654c3fc91901b235669b278816887272843156bcd33601d80c57cdc8a8c3f"
  | withdraw =>
      "0xde76781ca68af715eef786199e67905fc64020e7a21c0a39e605b2389eb0ed17"
  end.

(** [parseEventLog].  [iface.decodeEventLog] throws a fragment/topic
    mismatch unless [topics[0]], in lower case, is the topic hash of
    the fragment it is given, and the [catch] turns every throw into
    [null].  [decode] is the rest of the [try]: the [getAddress] calls
    and the decoding of the data, [None] when one of them throws. *)
Definition parseEventLog
    (decode : Log -> VaultEventType -> option ParsedLog) (log : Log)
    (eventType : VaultEventType) : option ParsedLog :=
  match head (topics log) with
  | Some topic0 =>
      if String.eqb (Js.toLowerCase topic0) (fragmentTopic eventType)
      then decode log eventType
      else None
  | None => None
  end.

(** [getMerkleProofForWithdrawal].  The token id of the event is the
    bigint the decoder returned, here in decimal: it is falsy when it
    is zero (and when the event has none).  The root of a result is a
    [0x]-prefixed string, which is truthy. *)
Definition falsyTokenId (tokenId : string) : bool :=
  negb (Js.truthy tokenId) || String.eqb tokenId "0".

Definition getMerkleProofForWithdrawal (hashFn : Z -> Z -> Z)
    (leafHash : string -> string -> Z)
    (store : list NftModels.NftTransfer) (vaultEvent : VaultEvent)
  : list Z :=
  let userAddress := ve_sender vaultEvent in
  let tokenId := ve_tokenId vaultEvent in
  if falsyTokenId tokenId then []
  else
    match MerkleService.getMerkleProof hashFn leafHash store userAddress
            tokenId with
    | None => []
    | Some merkleResult =>
        if negb (MerkleService.verified merkleResult) then []
        else
          match MerkleService.proof merkleResult with
          | _ :: _ => MerkleService.proof merkleResult
          | [] => [MerkleService.root merkleResult]
          end
    end.

(** Sample rows. *)
Definition dave : User := mkUser "u4" "0xdd" zero zero zero.

Definition depositLog (i : option Z) : Log :=
  mkLog "0x48bd18FD6c1415DfDCC34abd8CcCB50A6ABca40e"
    [DEPOSIT_TOPIC; "0xDD"; "0xa55e7"; "0x7a017"] "0x" i.

Definition withdrawRequestLog : Log :=
  mkLog "0x48bd18FD6c1415DfDCC34abd8CcCB50A6ABca40e"
    [WITHDRAW_REQUEST_TOPIC; "0xDD"; "0xa55e7"; "0x7a017"] "0x" None.

Definition sampleTransaction : Transaction :=
  mkTransaction "0xfeed" 80094 12 [depositLog None; withdrawRequestLog].

Definition berachain : Chain :=
  mkChain 80094 "berachain"
    (Some "0x48bd18FD6c1415DfDCC34abd8CcCB50A6ABca40e").

(** A decoder for the sample logs: the indexed fields are the topics. *)
Definition toyParse (log : Log) (eventType : VaultEventType)
  : option ParsedLog :=
  match topics log with
  | [_; sender; asset; vault] =>
      Some (mkParsedLog sender asset vault "1000" "7"
              (match eventType with deposit => "" | _ => "0x01" end))
  | _ => None
  end.

Definition emptyDb : Db := mkDb [] [] [] [] [].

End VaultEventPipeline.

(** ** services/PricingService: where a price comes from *)
Module PricingService.

(** A [TokenPrice]. *)
Record TokenPrice := mkTokenPrice {
  price : Num.number;
  decimals : Z
}.

Record Cached := mkCached {
  c_price : TokenPrice;
  c_timestamp : Z
}.

Definition CACHE_TTL : Z := 1000.

(** [this.mockPrices], as the constructor fills it. *)
Definition mockPrices : list (string * TokenPrice) :=
  [("0xETH_ADDRESS", mkTokenPrice (Num.ofZ 2500) 18);
   ("0xBTC_ADDRESS", mkTokenPrice (Num.ofZ 50000) 8);
   ("0xUSDC_ADDRESS", mkTokenPrice (Num.ofZ 1) 6);
   ("0xDAI_ADDRESS", mkTokenPrice (Num.ofZ 1) 18)].

Definition NETWORK_MAPPING (chainId : Z) : option string :=
  if chainId =? 80069 then Some "berachain-mainnet"
  else if chainId =? 80094 then Some "berachain-mainnet"
  else if chainId =? 42161 then Some "arb-mainnet"
  else if chainId =? 421614 then Some "arb-mainnet"
  else None.

(** [Map.prototype.get] on a map with string keys. *)
Definition mapGet {V} (k : string) (m : list (string * V)) : option V :=
  snd <$> List.find (fun kv => String.eqb (fst kv) k) m.

(** [getMockPrice]; [vary p] is [p] times the random factor. *)
Definition getMockPrice (vary : Num.number -> Num.number)
    (normalizedAddress : string)
  : option TokenPrice :=
  match mapGet normalizedAddress mockPrices with
  | None => None
  | Some tokenInfo =>
      Some (mkTokenPrice (vary (price tokenInfo)) (decimals tokenInfo))
  end.

(** The price cache; the key [`${chainId}-${normalizedAddress}`] is the
    pair. *)
Definition PriceCache := list ((Z * string) * Cached).

Definition sameKey (k1 k2 : Z * string) : bool :=
  (fst k1 =? fst k2) && String.eqb (snd k1) (snd k2).

Definition cacheGet (k : Z * string) (cache : PriceCache) : option Cached :=
  snd <$> List.find (fun kv => sameKey (fst kv) k) cache.

Fixpoint cacheSet (k : Z * string) (v : Cached) (cache : PriceCache)
  : PriceCache :=
  match cache with
  | [] => [(k, v)]
  | (k', v') :: r =>
      if sameKey k' k then (k', v) :: r else (k', v') :: cacheSet k v r
  end.

(** [fetchMarketPrice]: the answer and the cache after it.  [now] is
    [Date.now()], [apiKey] is [env.ALCHEMY.API_KEY], and
    [fetchFromAlchemy network address] is the answer of the request for
    one address: [None] when it throws, else the parsed values of
    [prices] for each entry of [data]. *)
Definition fetchMarketPrice (vary : Num.number -> Num.number) (now : Z)
    (apiKey : string)
    (fetchFromAlchemy : string -> string -> option (list (list Num.number)))
    (priceCache : PriceCache) (tokenAddress : string) (chainId : Z)
  : option TokenPrice * PriceCache :=
  let normalizedAddress := Js.toLowerCase tokenAddress in
  let cacheKey := (chainId, normalizedAddress) in
  let fresh :=
    match cacheGet cacheKey priceCache with
    | Some cached =>
        if now - c_timestamp cached <? CACHE_TTL then Some (c_price cached)
        else None
    | None => None
    end in
  match fresh with
  | Some cachedPrice => (Some cachedPrice, priceCache)
  | None =>
      match NETWORK_MAPPING chainId with
      | None => (getMockPrice vary normalizedAddress, priceCache)
      | Some network =>
          if negb (Js.truthy apiKey)
          then (getMockPrice vary normalizedAddress, priceCache)
          else
            match fetchFromAlchemy network normalizedAddress with
            | Some ((value :: _) :: _) =>
                let tokenPrice := mkTokenPrice value 18 in
                (Some tokenPrice,
                 cacheSet cacheKey (mkCached tokenPrice now) priceCache)
            | Some _ => (getMockPrice vary normalizedAddress, priceCache)
            | None => (getMockPrice vary normalizedAddress, priceCache)
            end
      end
  end.

End PricingService.

(** ** producer: services/processed-blocks.service, the queries *)
Module ProcessedBlocksQueries.
Import ProcessedBlocksService.

(** [addBlocks]: the rows are saved in the order of the blocks. *)
Definition addBlocks (repository : list ProcessedBlock) (chain : Z)
    (blocks : list Block) : list ProcessedBlock :=
  match blocks with
  | [] => repository
  | _ =>
      let processedBlocks :=
        map (fun block =>
               mkProcessedBlock chain (number block) (hash block)
                 (b_parentHash block) false) blocks in
      repository ++ processedBlocks
  end.

(** [isBlockProcessed]. *)
Definition isBlockProcessed (repository : list ProcessedBlock)
    (chain blockNumber_ : Z) : bool :=
  let count :=
    length (List.filter
              (fun r => (chainId r =? chain)
                        && (blockNumber r =? blockNumber_)
                        && negb (isReorged r)) repository) in
  (0 <? count)%nat.

(** A [Map<number, boolean>] in insertion order. *)
Fixpoint mapSet (k : Z) (v : bool) (m : list (Z * bool)) : list (Z * bool) :=
  match m with
  | [] => [(k, v)]
  | (k', v') :: r => if k' =? k then (k', v) :: r else (k', v') :: mapSet k v r
  end.

Fixpoint mapGet (k : Z) (m : list (Z * bool)) : option bool :=
  match m with
  | [] => None
  | (k', v') :: r => if k' =? k then Some v' else mapGet k r
  end.

(** [areBlocksProcessed]. *)
Definition areBlocksProcessed (repository : list ProcessedBlock)
    (chain : Z) (blockNumbers : list Z) : list (Z * bool) :=
  match blockNumbers with
  | [] => []
  | n :: ns =>
      let processedBlocks :=
        List.filter
          (fun r => (chainId r =? chain)
                    && (minOf n ns <=? blockNumber r)
                    && (blockNumber r <=? maxOf n ns)
                    && negb (isReorged r)) repository in
      let processedSet := map blockNumber processedBlocks in
      fold_left
        (fun result blockNumber_ =>
           mapSet blockNumber_ (existsb (Z.eqb blockNumber_) processedSet)
             result)
        blockNumbers []
  end.

Record Stats := mkStats {
  totalProcessed : nat;
  latestBlock : option Z;
  reorgedCount : nat
}.

(** [getProcessingStats]; [block?.blockNumber || null] is null for
    block number 0 as well. *)
Definition getProcessingStats (repository : list ProcessedBlock)
    (chain : Z) : Stats :=
  mkStats
    (length (List.filter (fun r => (chainId r =? chain) && negb (isReorged r))
                         repository))
    (match getLatestProcessedBlock repository chain with
     | Some block =>
         if blockNumber block =? 0 then None else Some (blockNumber block)
     | None => None
     end)
    (length (List.filter (fun r => (chainId r =? chain) && isReorged r)
                         repository)).

End ProcessedBlocksQueries.

(** ** producer: services/events.service, the processor around the
    receipt test *)
Module EventsProcessor.
Import EventsService.

(** A bloom filter as its constructor builds it. *)
Definition wellFormed (b : BloomFilter) : Prop :=
  0 < size b /\ size b = Z.of_nat (length (filter_ b)).

Section WithRates.
(** A success rate is a fraction of two counts; the processor only
    tests whether the average of the window is below 0.1. *)
Variable Rate : Type.
Variable averageBelowTenth : list Rate -> bool.

Record PerformanceMetrics := mkMetrics {
  processingTimes : list Z;
  successRates : list Rate;
  lastAdjustmentTime : Z;
  adjustmentInterval : Z;
  metricsWindow : Z
}.

Record Processor := mkProcessor {
  concurrentLimit : Z;
  minConcurrentLimit : Z;
  maxConcurrentLimit : Z;
  cacheSize : Z;
  enableDynamicConcurrency : bool;
  performanceMetrics : PerformanceMetrics
}.

(** [updatePerformanceMetrics]: push, then one [shift] when the window
    is exceeded. *)
Definition updatePerformanceMetrics (m : PerformanceMetrics)
    (processingTime : Z) (successRate : Rate) : PerformanceMetrics :=
  let times := processingTimes m ++ [processingTime] in
  let rates := successRates m ++ [successRate] in
  if metricsWindow m <? Z.of_nat (length times)
  then mkMetrics (tail times) (tail rates) (lastAdjustmentTime m)
         (adjustmentInterval m) (metricsWindow m)
  else mkMetrics times rates (lastAdjustmentTime m) (adjustmentInterval m)
         (metricsWindow m).

Definition setLimit (p : Processor) (limit : Z) (m : PerformanceMetrics)
  : Processor :=
  mkProcessor limit (minConcurrentLimit p) (maxConcurrentLimit p)
    (cacheSize p) (enableDynamicConcurrency p) m.

(** [maybeAdjustConcurrency] at time [now].  The average processing
    time is the sum of the window over its length; it is compared with
    a bound by comparing the sum with the bound times the length. *)
Definition maybeAdjustConcurrency (now : Z) (p : Processor) : Processor :=
  let m := performanceMetrics p in
  if negb (enableDynamicConcurrency p) then p
  else if now - lastAdjustmentTime m <? adjustmentInterval m then p
  else if (length (processingTimes m) <? 5)%nat then p
  else
    let m' :=
      mkMetrics (processingTimes m) (successRates m) now
        (adjustmentInterval m) (metricsWindow m) in
    let total := fold_left Z.add (processingTimes m) 0 in
    let count := Z.of_nat (length (processingTimes m)) in
    let newLimit :=
      if (total <? 1000 * count) && averageBelowTenth (successRates m)
      then Z.min (maxConcurrentLimit p) (concurrentLimit p + 5)
      else if 5000 * count <? total
      then Z.max (minConcurrentLimit p) (concurrentLimit p - 3)
      else if 2000 * count <? total
      then Z.max (minConcurrentLimit p) (concurrentLimit p - 1)
      else concurrentLimit p in
    setLimit p newLimit m'.

Definition setConcurrentLimit (limit : Z) (p : Processor) : Processor :=
  setLimit p
    (Z.max (minConcurrentLimit p) (Z.min limit (maxConcurrentLimit p)))
    (performanceMetrics p).

Definition setDynamicConcurrency (enable : bool) (p : Processor)
  : Processor :=
  mkProcessor (concurrentLimit p) (minConcurrentLimit p)
    (maxConcurrentLimit p) (cacheSize p) enable (performanceMetrics p).

Definition setCacheSize (size_ : Z) (p : Processor) : Processor :=
  mkProcessor (concurrentLimit p) (minConcurrentLimit p)
    (maxConcurrentLimit p) (Z.max 100 (Z.min size_ 10000))
    (enableDynamicConcurrency p) (performanceMetrics p).

(** The calls that write the settings: the end of a [processBlock]
    that filtered the block, and the setters. *)
Inductive Call :=
| BlockProcessed (processingTime : Z) (successRate : Rate) (now : Z)
| SetConcurrentLimit (limit : Z)
| SetDynamicConcurrency (enable : bool)
| SetCacheSize (size_ : Z).

Definition step (p : Processor) (c : Call) : Processor :=
  match c with
  | BlockProcessed processingTime successRate now =>
      let m :=
        updatePerformanceMetrics (performanceMetrics p) processingTime
          successRate in
      maybeAdjustConcurrency now
        (mkProcessor (concurrentLimit p) (minConcurrentLimit p)
           (maxConcurrentLimit p) (cacheSize p)
           (enableDynamicConcurrency p) m)
  | SetConcurrentLimit limit => setConcurrentLimit limit p
  | SetDynamicConcurrency enable => setDynamicConcurrency enable p
  | SetCacheSize size_ => setCacheSize size_ p
  end.

Definition run (p : Processor) (calls : list Call) : Processor :=
  fold_left step calls p.

(** The processor of [DEFAULT_CONFIG], created at time [now]. *)
Definition defaultProcessor (now : Z) : Processor :=
  mkProcessor 10 5 50 1000 true (mkMetrics [] [] now 60000 20).

End WithRates.

Arguments mkMetrics {Rate}.
Arguments processingTimes {Rate}.
Arguments successRates {Rate}.
Arguments lastAdjustmentTime {Rate}.
Arguments adjustmentInterval {Rate}.
Arguments metricsWindow {Rate}.
Arguments mkProcessor {Rate}.
Arguments concurrentLimit {Rate}.
Arguments minConcurrentLimit {Rate}.
Arguments maxConcurrentLimit {Rate}.
Arguments cacheSize {Rate}.
Arguments enableDynamicConcurrency {Rate}.
Arguments performanceMetrics {Rate}.
Arguments updatePerformanceMetrics {Rate}.
Arguments setLimit {Rate}.
Arguments maybeAdjustConcurrency {Rate}.
Arguments setConcurrentLimit {Rate}.
Arguments setDynamicConcurrency {Rate}.
Arguments setCacheSize {Rate}.
Arguments BlockProcessed {Rate}.
Arguments SetConcurrentLimit {Rate}.
Arguments SetDynamicConcurrency {Rate}.
Arguments SetCacheSize {Rate}.
Arguments step {Rate}.
Arguments run {Rate}.
Arguments defaultProcessor {Rate}.

(** *** The receipt cache *)
Record CacheEntry := mkEntry {
  e_receipt : option TransactionReceipt;
  e_transaction : option TransactionResponse
}.

(** The [Map] from transaction hash to entry, in insertion order. *)
Definition Cache := list (string * CacheEntry).

Definition cacheGet (k : string) (cache : Cache) : option CacheEntry :=
  snd <$> List.find (fun kv => String.eqb (fst kv) k) cache.

Fixpoint cacheSet (k : string) (v : CacheEntry) (cache : Cache) : Cache :=
  match cache with
  | [] => [(k, v)]
  | (k', v') :: r =>
      if String.eqb k' k then (k', v) :: r else (k', v') :: cacheSet k v r
  end.

(** [Array.prototype.slice(start)]. *)
Definition sliceFrom {A} (start : Z) (l : list A) : list A :=
  let len := Z.of_nat (length l) in
  let k := if start <? 0 then Z.max (len + start) 0 else Z.min start len in
  drop (Z.to_nat k) l.

(** [pruneCache]; [Math.floor(cacheSize * 0.75)] is the quotient of
    [3 * cacheSize] by 4. *)
Definition pruneCache (cacheSize : Z) (receiptCache : Cache) : Cache :=
  let entriesToKeep := (cacheSize * 3) / 4 in
  sliceFrom (- entriesToKeep) receiptCache.

(** The end of [filterTransactionsByTopicsOptimized]. *)
Definition pruneIfOver (cacheSize : Z) (receiptCache : Cache) : Cache :=
  if cacheSize <? Z.of_nat (length receiptCache)
  then pruneCache cacheSize receiptCache
  else receiptCache.

(** *** One transaction *)

(** The provider: [None] when the call throws, [Some None] when it
    answers null. *)
Record Provider := mkProvider {
  getTransaction : string -> option (option TransactionResponse);
  getTransactionReceipt : string -> option (option TransactionReceipt)
}.

Record State := mkState {
  receiptCache : Cache;
  rpcCallsCount : Z
}.

Definition emptyData (transaction : TransactionResponse) : bool :=
  negb (Js.truthy (t_data transaction)) || String.eqb (t_data transaction) "0x".

(** [processTransactionOptimized]: the answer and the state after it.
    [aborted] is what the signal reads during the call. *)
Definition processTransactionOptimized (chain : Z) (chainName : string)
    (topicBloomFilter : BloomFilter) (provider : Provider) (aborted : bool)
    (st : State) (txHash : string) (topicHashSet : list string)
  : option FilteredTransaction * State :=
  let cached := cacheGet txHash (receiptCache st) in
  let fetchReceipt (st1 : State) (transaction : option TransactionResponse) :=
    if aborted then (None, st1)
    else
      match getTransactionReceipt provider txHash with
      | None => (None, st1)
      | Some receipt =>
          (processReceiptFromCache chain chainName topicBloomFilter txHash
             receipt transaction topicHashSet,
           mkState (cacheSet txHash (mkEntry receipt transaction)
                      (receiptCache st1))
                   (rpcCallsCount st1 + 1))
      end in
  match cached ≫= e_receipt with
  | Some receipt =>
      (processReceiptFromCache chain chainName topicBloomFilter txHash
         (Some receipt) (cached ≫= e_transaction) topicHashSet, st)
  | None =>
      match cached ≫= e_transaction with
      | Some transaction =>
          if emptyData transaction then (None, st)
          else fetchReceipt st (Some transaction)
      | None =>
          if aborted then (None, st)
          else
            match getTransaction provider txHash with
            | None => (None, st)
            | Some transaction =>
                let st1 := mkState (receiptCache st) (rpcCallsCount st + 1) in
                match transaction with
                | None =>
                    (None,
                     mkState (cacheSet txHash (mkEntry None None)
                                (receiptCache st1)) (rpcCallsCount st1))
                | Some tx =>
                    if emptyData tx
                    then (None,
                          mkState (cacheSet txHash (mkEntry None (Some tx))
                                     (receiptCache st1)) (rpcCallsCount st1))
                    else fetchReceipt st1 (Some tx)
                end
            end
      end
  end.

(** Sample data: a transfer with calldata and its receipt. *)
Definition sampleResponse : TransactionResponse :=
  mkResponse (Some "0") "0xa9059cbb" (Some "1").

Definition sampleReceipt : TransactionReceipt :=
  mkReceipt [MatcherSpec.erc20TransferLog] "0xb1" 1 "0xfeed" "0xaa"
    (Some "0xbb") (Some "21000") (Some "1").

Definition sampleProvider : Provider :=
  mkProvider (fun _ => Some (Some sampleResponse))
             (fun _ => Some (Some sampleReceipt)).

End EventsProcessor.

(** ** producer: the topic filters of the indexer *)
Module Indexer.
Import EventsService.

Definition sameHash (a b : string) : bool :=
  String.eqb (Js.toLowerCase a) (Js.toLowerCase b).

(** [addTopicFilter]. *)
Definition addTopicFilter (topicFilters : list TopicFilter)
    (filter : TopicFilter) : list TopicFilter :=
  let exists_ :=
    existsb (fun f => sameHash (tf_hash f) (tf_hash filter)) topicFilters in
  if negb exists_
  then topicFilters
         ++ [mkTopicFilter (Js.toLowerCase (tf_hash filter))
               (description filter)
               (match contractAddress filter with
                | Some a => if Js.truthy a then Some (Js.toLowerCase a)
                            else None
                | None => None
                end)]
  else topicFilters.

(** [removeTopicFilter]. *)
Definition removeTopicFilter (topicFilters : list TopicFilter)
    (topicHash : string) : list TopicFilter :=
  List.filter (fun filter => negb (sameHash (tf_hash filter) topicHash))
    topicFilters.

(** The hashes the filters are compared by. *)
Definition hashesOf (topicFilters : list TopicFilter) : list string :=
  map (fun f => Js.toLowerCase (tf_hash f)) topicFilters.

End Indexer.

(** ** services/RelayerService: requests, loans and utilization *)
Module RelayerLoans.
Import Num Decimal Models RelayerService.

(** What [parseEventLog] makes of a decoded [CollateralRequest]: the
    sender goes to lower case. *)
Definition parseCollateralRequest (decoded : RelayerEvent) : RelayerEvent :=
  mkRelayerEvent (requestId decoded) (re_tokenId decoded) (protocol decoded)
    (asset decoded) (Js.toLowerCase (sender decoded)) (amount decoded)
    (deadline decoded) (status decoded) (errorData decoded)
    (re_chainId decoded).

(** The request [handleCollateralRequest] saves: pending, with no
    error data. *)
Definition newRequest (parsedEvent : RelayerEvent) (chainId : Z)
  : RelayerEvent :=
  mkRelayerEvent (requestId parsedEvent) (re_tokenId parsedEvent)
    (protocol parsedEvent) (asset parsedEvent) (sender parsedEvent)
    (amount parsedEvent) (deadline parsedEvent) 1 None chainId.

Section WithCrypto.
Variable hashFn : Z -> Z -> Z.
Variable leafHash : string -> string -> Z.

(** [handleCollateralRequest]: the tables after it and the run of the
    validation. *)
Definition handleCollateralRequest (env : Env)
    (store : list NftModels.NftTransfer) (db : Db)
    (parsedEvent : RelayerEvent) (chainId : Z) (uid : string) : Db * Run :=
  let '(db1, user) := getOrCreateUser db (sender parsedEvent) uid in
  let relayerEvent := newRequest parsedEvent chainId in
  (db1,
   validateAndProcessRequest hashFn leafHash env store db1 relayerEvent
     chainId).

End WithCrypto.

(** [createBorrowRecord]: the tables after it, and whether it threw.
    [user] is the [user] relation of the request, [amountInUsd] what
    [getAmountInUsd] answers, [timestamp] the timestamp of the
    transaction (0 when it has none), [bid] the id of the new row. *)
Definition createBorrowRecord (now : Z) (db : Db) (request : RelayerEvent)
    (user : option User) (amountInUsd : number) (txHash : string)
    (timestamp : Z) (bid : string) : Db * bool :=
  match user with
  | None => (db, true)
  | Some user =>
      let borrow :=
        mkBorrow bid (u_id user) (formatDecimal amountInUsd) active None
          (if 0 <? timestamp then timestamp * 1000 else now) None now
          (asset request) (amount request) txHash in
      let db1 := setBorrows db (borrows db ++ [borrow]) in
      let user' :=
        mkUser (u_id user) (walletAddress user) (totalUsdBalance user)
          (formatDecimal (safeAdd (floatingUsdBalance user) amountInUsd))
          (formatDecimal (safeAdd (borrowedUsdAmount user) amountInUsd)) in
      (setUsers db1 (saveUser user' (users db1)), false)
  end.

(** [handleCollateralProcess] on the request its query finds, with the
    [user] relation loaded: the request as saved, the tables, and
    whether it threw. *)
Definition handleCollateralProcess (now : Z) (db : Db)
    (found : option (RelayerEvent * option User)) (parsedStatus : Z)
    (parsedErrorData : option string) (amountInUsd : number)
    (txHash : string)
    (timestamp : Z) (bid : string) : option RelayerEvent * (Db * bool) :=
  match found with
  | None => (None, (db, false))
  | Some (request, user) =>
      let request' := setStatus request parsedStatus parsedErrorData in
      if parsedStatus =? 2
      then (Some request',
            createBorrowRecord now db request' user amountInUsd txHash
              timestamp bid)
      else (Some request', (db, false))
  end.

(** The protocols of the approved requests, each once, in lower
    case. *)
Definition seenProtocols (approvedRequests : list RelayerEvent)
  : list string :=
  fold_left
    (fun seen request =>
       if Js.truthy (protocol request)
       then EventsService.setAdd seen (Js.toLowerCase (protocol request))
       else seen)
    approvedRequests [].

(** [calculateTotalUtilization] over the stored requests.
    [utilization protocol tokenId] is the integer the lending pool
    answers ([None] when the call throws). *)
Definition calculateTotalUtilization (hasProvider : bool)
    (utilization : string -> string -> option Z)
    (requests : list RelayerEvent) (tokenId : string) : number :=
  let approvedRequests :=
    List.filter (fun r => String.eqb (re_tokenId r) tokenId && (status r =? 2))
                requests in
  fold_left
    (fun totalUtilization protocol =>
       if hasProvider
       then match utilization protocol tokenId with
            | Some u => add totalUtilization (div (ofZ u) (ofZ 1000000))
            | None => totalUtilization
            end
       else totalUtilization)
    (seenProtocols approvedRequests) zero.

(** Sample rows: two approved requests on one pool, spelled in two
    ways. *)
Definition approvedOn (protocol_ : string) : RelayerEvent :=
  mkRelayerEvent "0x01" "7" protocol_ "0xa55e7" "0xcc" "1000" 1700000000 2
    None 80094.

End RelayerLoans.

(** ** producer: services/unprocessed-blocks.service *)
Module UnprocessedBlocksService.

Inductive BlockProcessingStatus :=
| PENDING | PROCESSING | COMPLETED | FAILED | REORGED.

#[global] Instance BlockProcessingStatus_eq_dec
  : EqDecision BlockProcessingStatus.
Proof. solve_decision. Defined.

Record UnprocessedBlock := mkUnprocessedBlock {
  id : string;
  chainId : Z;
  blockNumber : Z;
  blockHash : string;
  parentHash : string;
  status : BlockProcessingStatus;
  retryCount : Z;
  errorMessage : option string;
  processedAt : option Z
}.

(** The fields of an ethers [Block] the service reads; the hash may be
    null. *)
Record Block := mkBlock {
  number : Z;
  hash : option string;
  b_parentHash : string
}.

Definition MAX_RETRIES : Z := 5.
Definition REORG_DEPTH : Z := 10.

(** [repository.save(entity)]: the row with the id of the entity is
    rewritten; an entity whose id is not in the table is inserted. *)
Definition save (b : UnprocessedBlock) (repository : list UnprocessedBlock)
  : list UnprocessedBlock :=
  if existsb (fun r => String.eqb (id r) (id b)) repository
  then map (fun r => if String.eqb (id r) (id b) then b else r) repository
  else repository ++ [b].

Definition saveAll (bs repository : list UnprocessedBlock)
  : list UnprocessedBlock :=
  fold_left (fun table b => save b table) bs repository.

Definition setStatus (b : UnprocessedBlock) (s : BlockProcessingStatus)
    (message : option string) : UnprocessedBlock :=
  mkUnprocessedBlock (id b) (chainId b) (blockNumber b) (blockHash b)
    (parentHash b) s (retryCount b) message (processedAt b).

(** [createNewBlockEntry]'s entity; [newId] is the id the store gives
    it. *)
Definition newEntry (chain : Z) (block : Block) (newId : string)
  : UnprocessedBlock :=
  mkUnprocessedBlock newId chain (number block) (default "" (hash block))
    (b_parentHash block) PENDING 0 None None.

(** [existing.blockHash !== block.hash]. *)
Definition hashDiffers (existing : UnprocessedBlock) (block : Block) : bool :=
  match hash block with
  | Some h => negb (String.eqb (blockHash existing) h)
  | None => true
  end.

(** [addBlock]. *)
Definition addBlock (repository : list UnprocessedBlock) (chain : Z)
    (block : Block) (newId : string) : list UnprocessedBlock :=
  match List.find (fun r => (chainId r =? chain)
                            && (blockNumber r =? number block)) repository with
  | Some existingBlock =>
      if hashDiffers existingBlock block
      then
        let reorged :=
          setStatus existingBlock REORGED
            (Some "Block hash mismatch - possible reorg") in
        save reorged repository ++ [newEntry chain block newId]
      else repository
  | None => repository ++ [newEntry chain block newId]
  end.

(** [existingBlockMap.get(n)]: of the rows found, the last one with the
    number. *)
Definition existingFor (repository : list UnprocessedBlock) (chain n : Z)
  : option UnprocessedBlock :=
  last (List.filter (fun r => (chainId r =? chain) && (blockNumber r =? n))
                    repository).

(** New entries for [blocks], with the ids [newId i], [newId (i + 1)],
    and so on. *)
Fixpoint newEntries (chain : Z) (blocks : list Block) (newId : nat -> string)
    (i : nat) : list UnprocessedBlock :=
  match blocks with
  | [] => []
  | block :: rest =>
      newEntry chain block (newId i) :: newEntries chain rest newId (S i)
  end.

(** [addBlocks]. *)
Definition addBlocks (repository : list UnprocessedBlock) (chain : Z)
    (blocks : list Block) (newId : nat -> string) : list UnprocessedBlock :=
  let blocksToUpdate :=
    omap (fun block =>
            match existingFor repository chain (number block) with
            | Some existing =>
                if hashDiffers existing block
                then Some (setStatus existing REORGED
                             (Some "Block hash mismatch - possible reorg"))
                else None
            | None => None
            end) blocks in
  let blocksToCreate :=
    List.filter
      (fun block =>
         match existingFor repository chain (number block) with
         | Some existing => hashDiffers existing block
         | None => true
         end) blocks in
  saveAll blocksToUpdate repository ++ newEntries chain blocksToCreate newId 0.

Fixpoint insertAscending (b : UnprocessedBlock) (l : list UnprocessedBlock)
  : list UnprocessedBlock :=
  match l with
  | [] => [b]
  | x :: r => if blockNumber b <=? blockNumber x then b :: x :: r
              else x :: insertAscending b r
  end.

(** [getBlocksToProcess]: pending rows of the chain under the retry
    bound, by ascending block number, at most [limit] of them (a
    [limit] of at least 1). *)
Definition getBlocksToProcess (repository : list UnprocessedBlock)
    (chain : Z) (limit : nat) : list UnprocessedBlock :=
  take limit
    (fold_right insertAscending []
       (List.filter
          (fun r => (chainId r =? chain)
                    && bool_decide (status r = PENDING)
                    && (retryCount r <? MAX_RETRIES)) repository)).

Definition markAsProcessing (repository : list UnprocessedBlock)
    (block : UnprocessedBlock) : list UnprocessedBlock :=
  save (setStatus block PROCESSING (errorMessage block)) repository.

Definition markAsProcessingBatch (repository : list UnprocessedBlock)
    (blocks : list UnprocessedBlock) : list UnprocessedBlock :=
  saveAll (map (fun block => setStatus block PROCESSING (errorMessage block))
               blocks) repository.

Definition completed (now : Z) (block : UnprocessedBlock) : UnprocessedBlock :=
  mkUnprocessedBlock (id block) (chainId block) (blockNumber block)
    (blockHash block) (parentHash block) COMPLETED (retryCount block)
    (errorMessage block) (Some now).

Definition markAsCompleted (repository : list UnprocessedBlock)
    (block : UnprocessedBlock) (now : Z) : list UnprocessedBlock :=
  save (completed now block) repository.

Definition markAsCompletedBatch (repository : list UnprocessedBlock)
    (blocks : list UnprocessedBlock) (now : Z) : list UnprocessedBlock :=
  saveAll (map (completed now) blocks) repository.

(** [markAsFailed]. *)
Definition markAsFailed (repository : list UnprocessedBlock)
    (block : UnprocessedBlock) (message : string) : list UnprocessedBlock :=
  save (mkUnprocessedBlock (id block) (chainId block) (blockNumber block)
          (blockHash block) (parentHash block) FAILED (retryCount block + 1)
          (Some message) (processedAt block)) repository.

Fixpoint insertDescending (b : UnprocessedBlock) (l : list UnprocessedBlock)
  : list UnprocessedBlock :=
  match l with
  | [] => [b]
  | x :: r => if blockNumber x <=? blockNumber b then b :: x :: r
              else x :: insertDescending b r
  end.

(** [checkForReorgs]; [chainBlocks n] is the block the provider gives
    for [n], [None] when it gives none or throws. *)
Definition checkForReorgs (repository : list UnprocessedBlock) (chain : Z)
    (currentBlock : Block) (chainBlocks : Z -> option Block)
    (newId : nat -> string) : list UnprocessedBlock :=
  let recentBlocks :=
    fold_right insertDescending []
      (List.filter
         (fun r => (chainId r =? chain)
                   && (number currentBlock - REORG_DEPTH <=? blockNumber r)
                   && bool_decide (status r = COMPLETED)) repository) in
  let reorgedOf (storedBlock : UnprocessedBlock) : bool :=
    match chainBlocks (blockNumber storedBlock) with
    | None => true
    | Some chainBlock => hashDiffers storedBlock chainBlock
    end in
  let blocksToReorg :=
    map (fun storedBlock =>
           setStatus storedBlock REORGED
             (Some "Block hash mismatch - reorg detected"))
        (List.filter reorgedOf recentBlocks) in
  let newBlocksToCreate :=
    omap (fun storedBlock => chainBlocks (blockNumber storedBlock))
         (List.filter reorgedOf recentBlocks) in
  let repository1 := saveAll blocksToReorg repository in
  match newBlocksToCreate with
  | [] => repository1
  | _ => addBlocks repository1 chain newBlocksToCreate newId
  end.

(** [cleanupCompletedBlocks] with the cutoff date computed. *)
Definition cleanupCompletedBlocks (repository : list UnprocessedBlock)
    (chain : Z) (cutoffDate : Z) : list UnprocessedBlock :=
  List.filter
    (fun r => negb ((chainId r =? chain)
                    && bool_decide (status r = COMPLETED)
                    && match processedAt r with
                       | Some t => t <? cutoffDate
                       | None => false
                       end)) repository.

(** The writes of the service. *)
Inductive Op :=
| AddBlock (chain : Z) (block : Block) (newId : string)
| AddBlocks (chain : Z) (blocks : list Block) (newId : nat -> string)
| MarkAsProcessing (block : UnprocessedBlock)
| MarkAsProcessingBatch (blocks : list UnprocessedBlock)
| MarkAsCompleted (block : UnprocessedBlock) (now : Z)
| MarkAsCompletedBatch (blocks : list UnprocessedBlock) (now : Z)
| MarkAsFailed (block : UnprocessedBlock) (message : string)
| CheckForReorgs (chain : Z) (currentBlock : Block)
    (chainBlocks : Z -> option Block) (newId : nat -> string)
| CleanupCompletedBlocks (chain : Z) (cutoffDate : Z).

Definition step (repository : list UnprocessedBlock) (op : Op)
  : list UnprocessedBlock :=
  match op with
  | AddBlock chain block newId => addBlock repository chain block newId
  | AddBlocks chain blocks newId => addBlocks repository chain blocks newId
  | MarkAsProcessing block => markAsProcessing repository block
  | MarkAsProcessingBatch blocks => markAsProcessingBatch repository blocks
  | MarkAsCompleted block now => markAsCompleted repository block now
  | MarkAsCompletedBatch blocks now =>
      markAsCompletedBatch repository blocks now
  | MarkAsFailed block message => markAsFailed repository block message
  | CheckForReorgs chain currentBlock chainBlocks newId =>
      checkForReorgs repository chain currentBlock chainBlocks newId
  | CleanupCompletedBlocks chain cutoffDate =>
      cleanupCompletedBlocks repository chain cutoffDate
  end.

Definition run (repository : list UnprocessedBlock) (ops : list Op)
  : list UnprocessedBlock :=
  fold_left step ops repository.

(** A pending row has never failed. *)
Definition pendingUntried (repository : list UnprocessedBlock) : Prop :=
  forall r, r ∈ repository -> status r = PENDING -> retryCount r = 0.

Definition block7 : Block := mkBlock 7 (Some "0xh7") "0xh6".
Definition block7' : Block := mkBlock 7 (Some "0xh7b") "0xh6".

End UnprocessedBlocksService.

(** ** services/RelayerService: a CollateralProcess event, from the
    duplicate lookup to the borrow *)
Module RelayerProcess.
Import Num Decimal Models RelayerService RelayerLoans.

(** A row of [relayer_events]: only [handleCollateralRequest] inserts
    rows, with the hash of the transaction of the request;
    [handleCollateralProcess] adds the hash of the processing
    transaction. *)
Record StoredRequest := mkStoredRequest {
  s_id : string;
  s_transactionHash : string;
  s_event : RelayerEvent;
  s_processTransactionHash : option string
}.

(** The query that opens [processRelayerEvent]: by transaction hash
    and chain, and by log index when the log has one; no row carries a
    log index, as the service assigns none. *)
Definition existingEvent (table : list StoredRequest) (txHash : string)
    (chainId : Z) (logIndex : option Z) : bool :=
  match logIndex with
  | None =>
      existsb (fun r => String.eqb (s_transactionHash r) txHash
                        && (re_chainId (s_event r) =? chainId)) table
  | Some _ => false
  end.

Definition saveRequest (r : StoredRequest) (table : list StoredRequest)
  : list StoredRequest :=
  map (fun x => if String.eqb (s_id x) (s_id r) then r else x) table.

(** The row [handleCollateralRequest] inserts for a parsed request:
    pending, under the hash of the transaction of the request; [id] is
    the id the store gives it. *)
Definition insertedRequest (id txHash : string) (parsedEvent : RelayerEvent)
    (chainId : Z) : StoredRequest :=
  mkStoredRequest id txHash (newRequest parsedEvent chainId) None.

(** What a run takes from outside the tables. *)
Record Outside := mkOutside {
  now : Z;
  amountInUsd : number;
  timestamp : Z;
  bid : string
}.

(** [processRelayerEvent] on a [CollateralProcess] log that
    [parseEventLog] has parsed: the requests, the tables, and whether
    it threw. *)
Definition processCollateralProcess (out : Outside)
    (table : list StoredRequest) (db : Db) (txHash : string) (chainId : Z)
    (logIndex : option Z) (parsedRequestId : string) (parsedStatus : Z)
    (parsedErrorData : option string)
  : list StoredRequest * (Db * bool) :=
  if existingEvent table txHash chainId logIndex then (table, (db, false))
  else
    match List.find (fun r => String.eqb (requestId (s_event r))
                                         parsedRequestId
                              && (re_chainId (s_event r) =? chainId))
                    table with
    | None => (table, (db, false))
    | Some stored =>
        let user :=
          List.find (fun u => String.eqb (walletAddress u)
                                         (sender (s_event stored)))
                    (users db) in
        let request := setStatus (s_event stored) parsedStatus parsedErrorData in
        let table' :=
          saveRequest (mkStoredRequest (s_id stored) (s_transactionHash stored)
                         request (Some txHash)) table in
        if parsedStatus =? 2
        then (table',
              createBorrowRecord (now out) db request user (amountInUsd out)
                txHash (timestamp out) (bid out))
        else (table', (db, false))
    end.

(** Sample rows: the request of carol, stored with the hash of its
    transaction. *)
Definition carolRequest : StoredRequest :=
  mkStoredRequest "r1" "0x7e01" (RelayerSpec.request_due 1700000000) None.

End RelayerProcess.

(** ** Runs of the services from empty tables *)
Module LedgerRun.
Import Num Models VaultEventPipeline.

(** The amounts of the runs are whole dollars, which a column gives
    back as they were written. *)
Definition column (x : number) : number := x.

(** [processTransaction] on a message of one log of the vault, the
    price oracle answering [usd] dollars. *)
Definition vaultRun (db : Db) (usd : Z) (txHash : string) (block : Z)
    (log : Log) (wid : string) : Db :=
  fst (processTransaction column (parseEventLog toyParse) [berachain]
         (fun _ => mkOutside (LedgerSpec.usd usd) "u1" wid) db
         (mkTransaction txHash 80094 block [log])).

(** Dave deposits 100 USD. *)
Definition afterDeposit : Db :=
  vaultRun emptyDb 100 "0xd1" 10 (depositLog None) "w0".

(** Dave asks for a loan, the request being worth 60 USD; the
    relayer contract emits its approval ... *)
Definition daveRequest : RelayerProcess.StoredRequest :=
  RelayerProcess.insertedRequest "r1" "0x7e01"
    (RelayerLoans.parseCollateralRequest
       (RelayerService.mkRelayerEvent "0x77" "7" "0x9001" "0xa55e7" "0xDD"
          "60" 1700000000 1 None 80094))
    80094.

Definition afterBorrow : Db :=
  fst (snd (RelayerProcess.processCollateralProcess
              (RelayerProcess.mkOutside 5000 (LedgerSpec.usd 60) 5 "b1")
              [daveRequest] afterDeposit "0x7e02" 80094 None "0x77" 2 None)).

(** ... and repaid in full. *)
Definition afterRepay : Db :=
  RelayerService.handleRepayEvent 6000 afterBorrow "0xDD" "u9" "0xa55e7"
    (LedgerSpec.usd 60).

(** Dave then asks to withdraw 50 USD. *)
Definition afterRequest : Db :=
  vaultRun afterRepay 50 "0xd2" 12 withdrawRequestLog "w1".

(** Without a loan: dave deposits 100 USD and asks to withdraw 50 USD;
    the vault then emits the [Withdraw] event of the request. *)
Definition afterPlainRequest : Db :=
  vaultRun afterDeposit 50 "0xd2" 11 withdrawRequestLog "w1".

Definition withdrawLog : Log :=
  mkLog "0x48bd18FD6c1415DfDCC34abd8CcCB50A6ABca40e"
    [WITHDRAW_TOPIC; "0xDD"; "0xa55e7"; "0x7a017"] "0x" None.

Definition withdrawTransaction : Transaction :=
  mkTransaction "0xd3" 80094 12 [withdrawLog].

(** The event of that log, as [processVaultEvent] would build it. *)
Definition withdrawEvent : VaultEvent :=
  mkVaultEvent withdraw 80094 "0xd3" 12 "0xdd" "0xa55e7" "0x7a017" "1000" "7"
    "0x01" (LedgerSpec.usd 50).

(** Tables with 0.3 USD deposited and 0.1 USD pending, and a request
    of 0.2 USD. *)
Definition frank : User := mkUser "u6" "0xff" zero zero zero.

Definition db_cents : Db :=
  mkDb [frank]
    [mkDeposit "u6" 80094 "berachain" "3" "0xa55e7" "0xc1" 10
       (ofDecimal 3 1)]
    [mkWithdrawal "w6" "u6" 80094 "berachain" "1" "0xa55e7" "0xc2" 11
       (ofDecimal 1 1) pending "0xff" "0x06"]
    [] [].

Definition request_cents : VaultEvent :=
  mkVaultEvent withdraw_request 80094 "0xc3" 12 "0xff" "0xa55e7" "0x7a017"
    "2" "7" "0x07" (ofDecimal 2 1).

End LedgerRun.

(* ================================================================== *)
(** * Part II: the properties                                          *)
(* ================================================================== *)

(** ** Ledger: WITHDRAW_REQUEST and WITHDRAW *)
Section LedgerProperties.
Import Num Decimal Models VaultEventService LedgerSpec.

Lemma sumOf_snoc {A} (f : A -> number) (l : list A) (x : A) :
  sumOf f (l ++ [x]) = add (sumOf f l) (f x).
Proof. unfold sumOf. now rewrite fold_left_app. Qed.

Lemma sumOf_filter_snoc {A} (f : A -> number) (P : A -> Prop)
    `{!forall x, Decision (P x)} (l : list A) (x : A) :
  sumOf f (filter P (l ++ [x]))
  = if decide (P x) then add (sumOf f (filter P l)) (f x)
    else sumOf f (filter P l).
Proof.
  rewrite filter_app, filter_cons, filter_nil.
  destruct (decide (P x)); [apply sumOf_snoc|now rewrite app_nil_r].
Qed.

(** What a withdraw request does, whatever the tables hold: the new
    row is pending exactly when the balance of [validateWithdrawal]
    covers the value, and a rejected request leaves the users alone. *)
Lemma handleWithdrawRequest_outcome column db ev user chainName wid :
  let db' := handleWithdrawRequest column db ev user chainName wid in
  exists w,
    withdrawals db' = withdrawals db ++ [w]
    /\ usdValueAtWithdrawal w = column (ve_usdValue ev)
    /\ (w_status w = pending
        <-> geb (availableBalance db user) (ve_usdValue ev) = true)
    /\ (w_status w = rejected
        <-> geb (availableBalance db user) (ve_usdValue ev) = false)
    /\ (w_status w = rejected -> users db' = users db).
Proof.
  unfold handleWithdrawRequest, validateWithdrawal.
  destruct (geb (availableBalance db user) (ve_usdValue ev)) eqn:H;
    simpl; eexists; (split; [reflexivity|]); simpl;
    repeat split; intros; try reflexivity; try congruence.
Qed.

End LedgerProperties.

(** C1 (the code departs from the claim): on a WITHDRAW_REQUEST the
    balance is to be the deposits less the completed withdrawals, the
    pending withdrawals and the active borrows, and the request is to be
    accepted when that balance covers the value.  Dave deposits 100 USD,
    is lent 60 USD and repays them: the tables the services leave hold
    his deposit and one borrow, repaid.  The balance of the claim is
    100 USD, as is the floating balance
    [UserService.recalculateUserBalances] computes from the same rows,
    yet [validateWithdrawal] still subtracts the repaid borrow and
    counts 40 USD: the request of 50 USD that follows is saved as
    rejected and no balance of the user changes. *)
Theorem C1_withdraw_request_counts_repaid_borrows :
  Models.u_id <$> Models.users LedgerRun.afterRepay = ["u1"]
  /\ Models.b_status <$> Models.borrows LedgerRun.afterRepay
     = [Models.repaid]
  /\ Models.withdrawals LedgerRun.afterRepay = []
  /\ LedgerSpec.spec_availableBalance LedgerRun.afterRepay
       <$> Models.users LedgerRun.afterRepay
     = [LedgerSpec.usd 100]
  /\ (fun user =>
        Models.floatingUsdBalance
          (UserService.recalculateUserBalances LedgerRun.afterRepay user))
       <$> Models.users LedgerRun.afterRepay
     = [LedgerSpec.usd 100]
  /\ Num.geb (LedgerSpec.usd 100) (LedgerSpec.usd 50) = true
  /\ VaultEventService.availableBalance LedgerRun.afterRepay
       <$> Models.users LedgerRun.afterRepay
     = [LedgerSpec.usd 40]
  /\ (fun w => (Models.usdValueAtWithdrawal w, Models.w_status w))
       <$> Models.withdrawals LedgerRun.afterRequest
     = [(LedgerSpec.usd 50, Models.rejected)]
  /\ Models.users LedgerRun.afterRequest = Models.users LedgerRun.afterRepay.
Proof. vm_compute. repeat split; reflexivity. Qed.

Section WithdrawProperties.
Import Num Decimal Models VaultEventService VaultEventPipeline.

Lemma getEventType_withdraw topic :
  getEventType topic = Some withdraw -> topic = WITHDRAW_TOPIC.
Proof.
  unfold getEventType.
  destruct (String.eqb topic DEPOSIT_TOPIC); [discriminate|].
  destruct (String.eqb topic WITHDRAW_REQUEST_TOPIC); [discriminate|].
  destruct (String.eqb topic WITHDRAW_TOPIC) eqn:E; [|discriminate].
  intros _. now apply String.eqb_eq.
Qed.

(** No log that [getEventType] takes for a [Withdraw] gets through
    [parseEventLog]: the topic the service listens to is not the topic
    hash of the [Withdraw] fragment of its ABI. *)
Lemma parseEventLog_withdraw decode log :
  head (topics log) ≫= getEventType = Some withdraw ->
  parseEventLog decode log withdraw = None.
Proof.
  unfold parseEventLog.
  destruct (head (topics log)) as [topic0|]; [|reflexivity].
  simpl. intros H. apply getEventType_withdraw in H. subst topic0.
  reflexivity.
Qed.

End WithdrawProperties.

(** C7 (the code departs from the claim): a WITHDRAW event is to set
    the pending withdrawal of its request to completed and to lower the
    total balance of the user.  The service hands no such event to
    [handleWithdraw]: [WITHDRAW_TOPIC], by which [getEventType] knows
    the event, is not the topic hash of the [Withdraw] fragment of
    [EVENT_ABI], so [decodeEventLog] throws, [parseEventLog] returns
    null and [processVaultEvent] returns before anything is written.
    Whatever the tables hold, the log of a WITHDRAW event leaves them as
    they were, a pending withdrawal of its request included. *)
Theorem C7_withdraw_event_completes_nothing
    (column : Num.number -> Num.number)
    (decode : VaultEventPipeline.Log -> Models.VaultEventType
              -> option VaultEventPipeline.ParsedLog)
    (out : VaultEventPipeline.Outside) (db : Models.Db)
    (log : VaultEventPipeline.Log)
    (transaction : VaultEventPipeline.Transaction)
    (chain : VaultEventPipeline.Chain) :
  head (VaultEventPipeline.topics log) ≫= VaultEventPipeline.getEventType
  = Some Models.withdraw ->
  VaultEventPipeline.processVaultEvent column
    (VaultEventPipeline.parseEventLog decode) out db log transaction chain
  = (db, false).
Proof.
  intros H. unfold VaultEventPipeline.processVaultEvent.
  destruct (VaultEventPipeline.existingEvent db transaction chain log);
    [reflexivity|].
  rewrite H, (parseEventLog_withdraw decode log H). reflexivity.
Qed.

(** Dave has deposited 100 USD and his request of 50 USD is pending
    under request id 0x01.  The [Withdraw] log of that request changes
    no row: the withdrawal stays pending and the total balance stays at
    100 USD, where [handleWithdraw], had it been called, would have
    completed the withdrawal and left a total of 50 USD. *)
Lemma C7_witness :
  Models.totalUsdBalance <$> Models.users LedgerRun.afterPlainRequest
  = [LedgerSpec.usd 100]
  /\ Models.w_status
       <$> VaultEventService.findByRequestId LedgerRun.afterPlainRequest
             LedgerRun.withdrawEvent
     = Some Models.pending
  /\ (fun user =>
        let db' :=
          VaultEventService.handleWithdraw LedgerRun.afterPlainRequest
            LedgerRun.withdrawEvent user in
        (Models.w_status <$> Models.withdrawals db',
         Models.totalUsdBalance <$> Models.users db'))
       <$> Models.users LedgerRun.afterPlainRequest
     = [([Models.completed], [LedgerSpec.usd 50])]
  /\ VaultEventPipeline.processVaultEvent LedgerRun.column
       (VaultEventPipeline.parseEventLog VaultEventPipeline.toyParse)
       (VaultEventPipeline.mkOutside (LedgerSpec.usd 50) "u1" "w2")
       LedgerRun.afterPlainRequest LedgerRun.withdrawLog
       LedgerRun.withdrawTransaction VaultEventPipeline.berachain
     = (LedgerRun.afterPlainRequest, false).
Proof.
  split; [vm_compute; reflexivity|].
  split; [vm_compute; reflexivity|].
  split; [vm_compute; reflexivity|].
  - apply (C7_withdraw_event_completes_nothing LedgerRun.column
             VaultEventPipeline.toyParse
             (VaultEventPipeline.mkOutside (LedgerSpec.usd 50) "u1" "w2")
             LedgerRun.afterPlainRequest LedgerRun.withdrawLog
             LedgerRun.withdrawTransaction VaultEventPipeline.berachain).
    reflexivity.
Defined.

(** ** JavaScript strings and objects *)
Section JsProperties.

Lemma lowerAscii_idem c : Js.lowerAscii (Js.lowerAscii c) = Js.lowerAscii c.
Proof.
  destruct c as [[] [] [] [] [] [] [] []]; vm_compute; reflexivity.
Qed.

Lemma toLowerCase_idem s : Js.toLowerCase (Js.toLowerCase s) = Js.toLowerCase s.
Proof.
  induction s as [|c s IH]; simpl; [reflexivity|].
  now rewrite lowerAscii_idem, IH.
Qed.

Lemma truthy_toLowerCase s : Js.truthy (Js.toLowerCase s) = Js.truthy s.
Proof. destruct s; reflexivity. Qed.

Lemma get_set_eq k v o : Js.get k (Js.set k v o) = Some v.
Proof.
  induction o as [|[k' v'] o IH]; simpl.
  - now rewrite String.eqb_refl.
  - destruct (String.eqb k' k) eqn:E; simpl; rewrite E; auto.
Qed.

Lemma get_set_ne k k' v o : k <> k' -> Js.get k' (Js.set k v o) = Js.get k' o.
Proof.
  intros Hne. induction o as [|[k0 v0] o IH]; simpl.
  - destruct (String.eqb k k') eqn:E; [|reflexivity].
    apply String.eqb_eq in E. contradiction.
  - destruct (String.eqb k0 k) eqn:E; simpl.
    + apply String.eqb_eq in E; subst k0.
      destruct (String.eqb k k') eqn:E'; [|reflexivity].
      apply String.eqb_eq in E'. contradiction.
    + now rewrite IH.
Qed.

End JsProperties.

(** ** Relayer: REPAY *)
Section RepayProperties.
Import Num Decimal Models RelayerService RelayerSpec.

Lemma repayLoop_zero now l : repayLoop now zero l = [].
Proof. destruct l; reflexivity. Qed.

Lemma remainingAfter_cons remaining b l :
  remainingAfter remaining (b :: l)
  = remainingAfter (sub remaining (b_borrowedUsdAmount b)) l.
Proof. reflexivity. Qed.

(** The shape of the walk: a prefix of the queried borrows is marked
    repaid, each while what is left of the repayment is above zero and
    at least its amount; then at most one borrow is reduced by what is
    left. *)
Lemma repayLoop_shape now (act : list Borrow) :
  forall remaining,
    exists (k : nat) (partial : list Borrow),
      repayLoop now remaining act
        = map (markRepaid now) (take k act) ++ partial
      /\ (forall (i : nat) b,
            take k act !! i = Some b ->
            leb (remainingAfter remaining (take i act)) zero = false
            /\ geb (remainingAfter remaining (take i act))
                   (b_borrowedUsdAmount b) = true)
      /\ ((partial = []
           /\ (k = length act
               \/ leb (remainingAfter remaining (take k act)) zero = true))
          \/ exists b,
               act !! k = Some b
               /\ partial
                  = [reduceBy (remainingAfter remaining (take k act)) b]
               /\ leb (remainingAfter remaining (take k act)) zero = false
               /\ geb (remainingAfter remaining (take k act))
                      (b_borrowedUsdAmount b) = false).
Proof.
  induction act as [|b rest IH]; intros remaining.
  - exists 0%nat, []. split; [reflexivity|]. split.
    + intros i b Hi. destruct i; discriminate Hi.
    + left. split; [reflexivity|]. left. reflexivity.
  - cbn [repayLoop].
    destruct (leb remaining zero) eqn:E0.
    { exists 0%nat, []. split; [reflexivity|]. split.
      - intros i b0 Hi. destruct i; discriminate Hi.
      - left. split; [reflexivity|]. right. exact E0. }
    destruct (geb remaining (b_borrowedUsdAmount b)) eqn:E1.
    + destruct (IH (sub remaining (b_borrowedUsdAmount b)))
        as (k & partial & Heq & Hpre & Hcase).
      exists (S k), partial. split; [cbn [take map app]; now rewrite Heq|].
      split.
      * intros i b0 Hi. destruct i as [|i].
        -- cbn in Hi. inversion Hi; subst b0. split; assumption.
        -- cbn [take] in *. rewrite remainingAfter_cons.
           apply Hpre. exact Hi.
      * cbn [take length]. rewrite remainingAfter_cons.
        destruct Hcase as [[-> [->|Hz]]|(b0 & Hk & -> & Hr0 & Hr1)].
        -- left. split; [reflexivity|]. left. reflexivity.
        -- left. split; [reflexivity|]. right. exact Hz.
        -- right. exists b0. repeat split; assumption.
    + rewrite repayLoop_zero.
      exists 0%nat, [reduceBy remaining b]. split; [reflexivity|]. split.
      * intros i b0 Hi. destruct i; discriminate Hi.
      * right. exists b. repeat split; assumption.
Qed.

Lemma binary_round_aux_sign mx ex lx :
  ltb (binary_round_aux prec emax false mx ex lx) zero = false.
Proof.
  unfold binary_round_aux.
  destruct (shr_fexp prec emax mx ex lx) as [mrs' e'].
  destruct (shr_fexp prec emax _ e' loc_Exact) as [mrs'' e''].
  destruct (shr_m mrs''); [reflexivity| |reflexivity].
  destruct (Z.leb e'' (emax - prec)); reflexivity.
Qed.

Lemma ofFixed8_sign n : ltb (ofFixed8 false n) zero = false.
Proof.
  destruct n as [|p|p]; [reflexivity| |reflexivity].
  unfold ofFixed8, ratio.
  destruct (SFdiv_core_binary prec emax (Z.pos p) 0 (Z.pos (10 ^ 8)) 0)
    as [[q e] l].
  apply binary_round_aux_sign.
Qed.

(** [formatDecimal(Math.max(0, x))] is never below zero. *)
Lemma formatDecimal_max_zero x : ltb (formatDecimal (max zero x)) zero = false.
Proof.
  destruct x as [[|]|[|]| |[|] m e]; try reflexivity.
  change (max zero (S754_finite false m e)) with (S754_finite false m e).
  unfold formatDecimal.
  destruct (10 ^ 21 * denominator e <=? numerator m e); [reflexivity|].
  apply ofFixed8_sign.
Qed.

(** An event without a resolved asset, without active borrows or with
    nothing to repay writes nothing beyond the user it may create. *)
Lemma handleRepayEvent_skips now db by_ uid assetAddress repayAmountInUsd :
  let db1 := fst (getOrCreateUser db by_ uid) in
  let user := snd (getOrCreateUser db by_ uid) in
  Js.truthy assetAddress = false \/ assetAddress = "0x0"
  \/ leb (min repayAmountInUsd
            (totalActiveBorrowAmount (activeBorrowsOf db1 user))) zero
     = true ->
  handleRepayEvent now db by_ uid assetAddress repayAmountInUsd = db1.
Proof.
  intros db1 user Hskip. subst db1 user. unfold handleRepayEvent.
  destruct (getOrCreateUser db by_ uid) as [d u]. cbn [fst snd] in *.
  destruct (Js.truthy assetAddress) eqn:Et; [|reflexivity]. cbn [negb orb].
  destruct (String.eqb assetAddress "0x0") eqn:E0; [reflexivity|].
  destruct Hskip as [Hs|[Hs|Hs]]; [discriminate| |].
  - subst. rewrite String.eqb_refl in E0. discriminate.
  - destruct (activeBorrowsOf d u) as [|b0 r0]; [reflexivity|].
    now rewrite Hs.
Qed.

End RepayProperties.

(** C9 (as the code has it): a REPAY event for a resolved asset repays
    [Math.min(usd value, total of the user's active borrows)], the total
    being the sum of the doubles; when that is not [<= 0] the user's
    floating balance becomes [formatDecimal(safeAdd(floating, repaid))]
    and the borrowed amount
    [formatDecimal(Math.max(0, safeSubtract(borrowed, repaid)))], never
    below zero.  The active borrows are walked in the order the query
    returns them, no order being asked for: a borrow is marked repaid,
    with [loanEndDate] set, while what is left of the repayment is
    above zero and at least its amount, the amount being subtracted
    from what is left; the first borrow above what is left is reduced by
    it and ends the walk. *)
Theorem C9_repay_capped_nonnegative_walked_in_query_order
    (now : Z) (db : Models.Db) (by_ uid assetAddress : string)
    (repayAmountInUsd : Num.number) :
  let db1 := fst (RelayerService.getOrCreateUser db by_ uid) in
  let user := snd (RelayerService.getOrCreateUser db by_ uid) in
  let act := RelayerService.activeBorrowsOf db1 user in
  let repaidAmount :=
    Num.min repayAmountInUsd (RelayerService.totalActiveBorrowAmount act) in
  let db' := RelayerService.handleRepayEvent now db by_ uid assetAddress
               repayAmountInUsd in
  Js.truthy assetAddress = true -> assetAddress <> "0x0" ->
  act <> [] ->
  Num.leb repaidAmount Num.zero = false ->
  exists (user' : Models.User) (k : nat) (partial : list Models.Borrow),
    Models.users db' = Models.saveUser user' (Models.users db1)
    /\ Models.borrowedUsdAmount user'
       = Decimal.formatDecimal
           (Num.max Num.zero
              (Decimal.safeSubtract (Models.borrowedUsdAmount user)
                 repaidAmount))
    /\ Num.ltb (Models.borrowedUsdAmount user') Num.zero = false
    /\ Models.floatingUsdBalance user'
       = Decimal.formatDecimal
           (Decimal.safeAdd (Models.floatingUsdBalance user) repaidAmount)
    /\ Models.totalUsdBalance user' = Models.totalUsdBalance user
    /\ Models.borrows db'
       = fold_left (fun table b => Models.saveBorrow b table)
           (map (RelayerService.markRepaid now) (take k act) ++ partial)
           (Models.borrows db1)
    /\ (forall b,
          Models.b_status (RelayerService.markRepaid now b) = Models.repaid
          /\ Models.loanEndDate (RelayerService.markRepaid now b) = Some now
          /\ Models.repaymentAmount (RelayerService.markRepaid now b)
             = Some (Decimal.formatDecimal (Models.b_borrowedUsdAmount b))
          /\ Models.b_borrowedUsdAmount (RelayerService.markRepaid now b)
             = Models.b_borrowedUsdAmount b)
    /\ (forall (i : nat) b,
          take k act !! i = Some b ->
          Num.leb (RelayerSpec.remainingAfter repaidAmount (take i act))
                  Num.zero = false
          /\ Num.geb (RelayerSpec.remainingAfter repaidAmount (take i act))
                     (Models.b_borrowedUsdAmount b) = true)
    /\ ((partial = []
         /\ (k = length act
             \/ Num.leb (RelayerSpec.remainingAfter repaidAmount (take k act))
                        Num.zero = true))
        \/ exists b r,
             act !! k = Some b
             /\ r = RelayerSpec.remainingAfter repaidAmount (take k act)
             /\ partial = [RelayerService.reduceBy r b]
             /\ Num.leb r Num.zero = false
             /\ Num.geb r (Models.b_borrowedUsdAmount b) = false
             /\ Models.b_borrowedUsdAmount (RelayerService.reduceBy r b)
                = Decimal.formatDecimal
                    (Decimal.safeSubtract (Models.b_borrowedUsdAmount b) r)
             /\ Models.b_status (RelayerService.reduceBy r b)
                = Models.b_status b).
Proof.
  intros db1 user act repaidAmount db' Hasset Hne Hact Hpos.
  destruct (repayLoop_shape now act repaidAmount)
    as (k & partial & Hloop & Hpre & Hcase).
  exists (RelayerService.repayUser user repaidAmount), k, partial.
  assert (Hdb' : db' = Models.setBorrows
            (Models.setUsers db1
               (Models.saveUser (RelayerService.repayUser user repaidAmount)
                  (Models.users db1)))
            (fold_left (fun table b => Models.saveBorrow b table)
               (RelayerService.repayLoop now repaidAmount act)
               (Models.borrows db1))).
  { subst db'. unfold RelayerService.handleRepayEvent.
    subst db1 user act repaidAmount.
    destruct (RelayerService.getOrCreateUser db by_ uid) as [d u] eqn:Eg.
    cbn [fst snd] in *. rewrite Hasset. cbn [negb orb].
    destruct (String.eqb assetAddress "0x0") eqn:E0.
    { apply String.eqb_eq in E0. contradiction. }
    destruct (RelayerService.activeBorrowsOf d u) as [|b0 r0] eqn:Ea;
      [contradiction|].
    now rewrite Hpos. }
  rewrite Hdb', Hloop.
  split; [reflexivity|]. split; [reflexivity|].
  split; [apply formatDecimal_max_zero|].
  split; [reflexivity|]. split; [reflexivity|]. split; [reflexivity|].
  split; [intros b; repeat split|].
  split; [exact Hpre|].
  destruct Hcase as [[-> Hk]|(b & Hk & -> & Hr0 & Hr1)].
  - left. split; [reflexivity|exact Hk].
  - right. exists b, (RelayerSpec.remainingAfter repaidAmount (take k act)).
    repeat split; assumption.
Qed.

(** A repayment of 50 USD against two active loans of 100 USD each. *)
Lemma C9_witness :
  let db1 := RelayerSpec.db_two_loans in
  let act := RelayerService.activeBorrowsOf db1 RelayerSpec.bob in
  let db' := RelayerService.handleRepayEvent 5000 db1 "0xBB" "u9" "0xa55e7"
               (LedgerSpec.usd 50) in
  exists (user' : Models.User) (k : nat) (partial : list Models.Borrow),
    Models.users db' = Models.saveUser user' (Models.users db1)
    /\ Models.borrowedUsdAmount user' = LedgerSpec.usd 150
    /\ Num.ltb (Models.borrowedUsdAmount user') Num.zero = false
    /\ Models.floatingUsdBalance user' = LedgerSpec.usd 50
    /\ Models.borrows db'
       = fold_left (fun table b => Models.saveBorrow b table)
           (map (RelayerService.markRepaid 5000) (take k act) ++ partial)
           (Models.borrows db1).
Proof.
  intros db1 act db'.
  destruct (C9_repay_capped_nonnegative_walked_in_query_order 5000
              RelayerSpec.db_two_loans "0xBB" "u9" "0xa55e7" (LedgerSpec.usd 50))
    as (user' & k & partial & Hu & Hb & Hn & Hf & _ & Hw & _).
  - reflexivity.
  - discriminate.
  - vm_compute. discriminate.
  - vm_compute. reflexivity.
  - exists user', k, partial.
    split; [exact Hu|]. split; [rewrite Hb; vm_compute; reflexivity|].
    split; [exact Hn|]. split; [rewrite Hf; vm_compute; reflexivity|].
    exact Hw.
Defined.

(** C9, the claim as written fails: with the younger loan returned first
    by the query, a partial repayment is taken from the younger loan and
    the older one is left as it was. *)
Lemma C9_counterexample_not_oldest_first :
  ~ RelayerSpec.walkedOldestFirst
      (Models.borrows RelayerSpec.db_two_loans)
      (Models.borrows
         (RelayerService.handleRepayEvent 5000 RelayerSpec.db_two_loans
            "0xBB" "u9" "0xa55e7" (LedgerSpec.usd 50))).
Proof.
  intros H.
  specialize (H RelayerSpec.olderLoan RelayerSpec.newerLoan).
  assert (Hin : RelayerSpec.newerLoan
                ∈ Models.borrows
                    (RelayerService.handleRepayEvent 5000
                       RelayerSpec.db_two_loans "0xBB" "u9" "0xa55e7"
                       (LedgerSpec.usd 50))).
  { apply H.
    - vm_compute. apply list_elem_of_further, list_elem_of_here.
    - vm_compute. apply list_elem_of_here.
    - vm_compute. reflexivity.
    - vm_compute. apply list_elem_of_further, list_elem_of_here. }
  vm_compute in Hin.
  apply elem_of_cons in Hin as [Hin|Hin]; [discriminate Hin|].
  apply elem_of_cons in Hin as [Hin|Hin]; [discriminate Hin|].
  inversion Hin.
Qed.

(** What is left of a repayment is a double: against loans of 0.1 USD
    and 0.2 USD a repayment of 0.3 USD marks the first loan repaid,
    and [0.3 - 0.1] being below 0.2 it reduces the second loan, which
    stays active with an amount of zero. *)
Lemma repay_remainder_is_a_double :
  (fun b => (Models.b_status b, Models.b_borrowedUsdAmount b))
    <$> Models.borrows
          (RelayerService.handleRepayEvent 5000 RelayerSpec.db_small_loans
             "0xEE" "u9" "0xa55e7" (Num.ofDecimal 3 1))
  = [(Models.repaid, Num.ofDecimal 1 1); (Models.active, Num.zero)].
Proof. vm_compute. reflexivity. Qed.

(** ** Relayer: ownership check and COLLATERAL_REQUEST *)
Section CollateralProperties.
Import Models RelayerService.
Variable hashFn : Z -> Z -> Z.
Variable leafHash : string -> string -> Z.

Lemma getMerkleProof_verified store owner tokenId p :
  MerkleService.getMerkleProof hashFn leafHash store owner tokenId = Some p ->
  MerkleService.verified p = true.
Proof.
  unfold MerkleService.getMerkleProof.
  destruct (MerkleService.latestTransfer store); [|discriminate].
  destruct (MerkleService.createLeavesFromOwnership _ _); [discriminate|].
  destruct (Js.get _ _); [|discriminate].
  destruct (_ || _); [discriminate|].
  destruct (MerkleTree.verify _ _ _ _) eqn:E; [|discriminate].
  intros [= <-]. reflexivity.
Qed.

Lemma getMerkleProof_lower store owner tokenId :
  MerkleService.getMerkleProof hashFn leafHash store (Js.toLowerCase owner)
    tokenId
  = MerkleService.getMerkleProof hashFn leafHash store owner tokenId.
Proof.
  unfold MerkleService.getMerkleProof. now rewrite toLowerCase_idem.
Qed.

Lemma MerkleService_verifyNftOwnership_iff store owner tokenId :
  MerkleService.verifyNftOwnership hashFn leafHash store owner tokenId = true
  <-> is_Some (MerkleService.getMerkleProof hashFn leafHash store owner
                 tokenId).
Proof.
  unfold MerkleService.verifyNftOwnership.
  destruct (MerkleService.getMerkleProof _ _ _ _ _) as [p|] eqn:E.
  - rewrite (getMerkleProof_verified _ _ _ _ E). split; eauto.
  - split; [discriminate|]. intros [? ?]. discriminate.
Qed.

Lemma processRequestOnChain_confirmed env req chainId contract approval reason :
  relayerContracts env chainId = Some contract ->
  contract (requestId req) approval = true ->
  processRequestOnChain env req chainId approval reason
  = mkRun [(requestId req, approval)]
      (setStatus req (if approval then 2 else 3)
         (match reason with
          | Some r => if negb approval && Js.truthy r then Some r
                      else errorData req
          | None => errorData req
          end)) None.
Proof.
  intros Hc Hok. unfold processRequestOnChain. now rewrite Hc, Hok.
Qed.

End CollateralProperties.

(** C3 (as the code has it): [MerkleService.verifyNftOwnership] is true
    exactly when [getMerkleProof] returns a proof.  The check of the
    relayer service is true exactly when that proof exists or the sender
    has a deposit event for the token, and it reads the deposit history
    whenever no proof is returned, whatever the cause: no root, an owner
    that does not match the snapshot, or a proof that does not verify. *)
Theorem C3_ownership_is_proof_or_deposit_history
    (hashFn : Z -> Z -> Z) (leafHash : string -> string -> Z)
    (store : list NftModels.NftTransfer) (db : Models.Db)
    (owner tokenId : string) :
  let answer :=
    RelayerService.verifyNftOwnership hashFn leafHash store db owner tokenId in
  let proof :=
    MerkleService.getMerkleProof hashFn leafHash store owner tokenId in
  let depositsOfOwner :=
    filter (fun e => Models.ve_sender e = Js.toLowerCase owner
                     /\ Models.ve_tokenId e = tokenId
                     /\ Models.ve_type e = Models.deposit)
           (Models.vaultEvents db) in
  (MerkleService.verifyNftOwnership hashFn leafHash store owner tokenId = true
   <-> is_Some proof)
  /\ (fst answer = true <-> is_Some proof \/ depositsOfOwner <> [])
  /\ (RelayerService.DepositHistoryLookup ∈ snd answer <-> proof = None).
Proof.
  intros answer proof depositsOfOwner.
  split; [apply MerkleService_verifyNftOwnership_iff|].
  subst answer. unfold RelayerService.verifyNftOwnership.
  pose proof (MerkleService_verifyNftOwnership_iff hashFn leafHash store
                (Js.toLowerCase owner) tokenId) as Hiff.
  rewrite getMerkleProof_lower in Hiff. fold proof in Hiff.
  destruct (MerkleService.verifyNftOwnership hashFn leafHash store
              (Js.toLowerCase owner) tokenId) eqn:Ev; simpl.
  - assert (Hp : is_Some proof) by (apply Hiff; reflexivity).
    split; [split; auto|].
    split.
    + intros Hin. apply elem_of_cons in Hin as [Hin|Hin]; [discriminate|].
      apply elem_of_nil in Hin. contradiction.
    + intros Hn. rewrite Hn in Hp. destruct Hp; discriminate.
  - assert (Hp : proof = None).
    { destruct proof eqn:E; [|reflexivity].
      assert (false = true) by (apply Hiff; eauto). discriminate. }
    fold depositsOfOwner. split.
    + split.
      * intros Hlen. right. intros Hnil. rewrite Hnil in Hlen. discriminate.
      * intros [[? Hs]|Hne]; [rewrite Hp in Hs; discriminate|].
        destruct depositsOfOwner; [contradiction|reflexivity].
    + split; [auto|]. intros _.
      apply list_elem_of_further, list_elem_of_here.
Qed.

(** C3, the claim as written fails: token 7 belongs to 0xdd in the
    snapshot of the stored root, no proof is returned for 0xcc, and the
    check still answers true for 0xcc from its deposit history. *)
Lemma C3_counterexample_fallback_with_root_present :
  ~ CollateralSpec.fallbackOnlyWithoutRoot RelayerSpec.toyHash
      RelayerSpec.toyLeaf RelayerSpec.store_token7_of_dd RelayerSpec.db_carol
      "0xcc" "7".
Proof.
  intros [Hiff Hroot].
  assert (Hlatest : MerkleService.latestTransfer RelayerSpec.store_token7_of_dd
                    = None).
  { apply Hroot. vm_compute.
    apply list_elem_of_further, list_elem_of_here. }
  vm_compute in Hlatest. discriminate.
Qed.

(** C2 (as the code has it): when the relayer contract of the chain is
    configured and confirms the transaction, a COLLATERAL_REQUEST of an
    existing user is approved, [processRequest] being sent with [true]
    and the event stored as approved, exactly when the deadline is not
    before the current second, the ownership check of the relayer
    service (Merkle proof or deposit history) passes and the double
    [totalUtilization + amountInUsd], the sum as the machine rounds it,
    is [<=] the LTV; otherwise [processRequest] is sent with [false] and
    the event is stored as rejected with its error reason. *)
Theorem C2_request_approved_iff_validation_passes
    (hashFn : Z -> Z -> Z) (leafHash : string -> string -> Z)
    (env : RelayerService.Env) (store : list NftModels.NftTransfer)
    (db : Models.Db) (req : RelayerService.RelayerEvent) (chainId : Z)
    (contract : string -> bool -> bool) (user : Models.User) :
  RelayerService.relayerContracts env chainId = Some contract ->
  (forall approval, contract (RelayerService.requestId req) approval = true) ->
  List.find (fun u => String.eqb (Models.walletAddress u)
                                 (RelayerService.sender req))
            (Models.users db) = Some user ->
  let run :=
    RelayerService.validateAndProcessRequest hashFn leafHash env store db req
      chainId in
  let passes :=
    RelayerService.currentTime env <= RelayerService.deadline req
    /\ fst (RelayerService.verifyNftOwnership hashFn leafHash store db
              (RelayerService.sender req) (RelayerService.re_tokenId req))
       = true
    /\ Num.leb
         (Num.add
            (RelayerService.totalUtilization env
               (RelayerService.re_tokenId req) chainId)
            (RelayerService.amountInUsd env (RelayerService.asset req)
               (RelayerService.amount req) chainId))
         (RelayerService.totalLTV env (RelayerService.re_tokenId req))
       = true in
  RelayerService.thrown run = None
  /\ (CollateralSpec.approved run req <-> passes)
  /\ (CollateralSpec.rejected run req <-> ~ passes).
Proof.
  intros Hc Hok Huser run passes.
  subst run. unfold RelayerService.validateAndProcessRequest.
  assert (Hval :
    RelayerService.validation hashFn leafHash env store db req chainId
      = (true, None) /\ passes
    \/ (exists reason,
          RelayerService.validation hashFn leafHash env store db req chainId
            = (false, Some reason) /\ Js.truthy reason = true)
       /\ ~ passes).
  { unfold RelayerService.validation. subst passes.
    destruct (RelayerService.deadline req <? RelayerService.currentTime env)
      eqn:Ed.
    { right. split; [eexists; split; reflexivity|]. lia. }
    rewrite Huser.
    destruct (fst (RelayerService.verifyNftOwnership hashFn leafHash store db
                     (RelayerService.sender req)
                     (RelayerService.re_tokenId req))) eqn:Ev; simpl.
    2:{ right. split; [eexists; split; reflexivity|].
        intros (_ & Hv & _). discriminate. }
    destruct (Num.leb _ _) eqn:El; simpl.
    - left. split; [reflexivity|]. repeat split; try reflexivity; lia.
    - right. split; [eexists; split; reflexivity|].
      intros (_ & _ & Hl). discriminate Hl. }
  destruct Hval as [[-> Hp]|[(reason & -> & Ht) Hnp]].
  - rewrite (processRequestOnChain_confirmed _ _ _ _ _ _ Hc (Hok true)).
    simpl. split; [reflexivity|]. split.
    + split; [auto|]. intros _. split; reflexivity.
    + split; [|contradiction]. intros (Hcalls & _). discriminate.
  - rewrite (processRequestOnChain_confirmed _ _ _ _ _ _ Hc (Hok false)).
    simpl. rewrite Ht. split; [reflexivity|]. split.
    + split; [|contradiction]. intros (Hcalls & _). discriminate.
    + split; [auto|]. intros _.
      split; [reflexivity|]. split; [reflexivity|]. eauto.
Qed.

(** A request of 100 USD against an LTV of 750 USD at 600 USD of
    utilization, due in the current second: approved. *)
Lemma C2_witness :
  RelayerService.thrown
    (RelayerService.validateAndProcessRequest RelayerSpec.toyHash
       RelayerSpec.toyLeaf
       (RelayerSpec.env_at 1700000000 (LedgerSpec.usd 750)
          (LedgerSpec.usd 600) (LedgerSpec.usd 100))
       [] RelayerSpec.db_carol (RelayerSpec.request_due 1700000000) 80094)
  = None
  /\ CollateralSpec.approved
       (RelayerService.validateAndProcessRequest RelayerSpec.toyHash
          RelayerSpec.toyLeaf
          (RelayerSpec.env_at 1700000000 (LedgerSpec.usd 750)
             (LedgerSpec.usd 600) (LedgerSpec.usd 100))
          [] RelayerSpec.db_carol (RelayerSpec.request_due 1700000000) 80094)
       (RelayerSpec.request_due 1700000000).
Proof.
  destruct (C2_request_approved_iff_validation_passes RelayerSpec.toyHash
              RelayerSpec.toyLeaf
              (RelayerSpec.env_at 1700000000 (LedgerSpec.usd 750)
                 (LedgerSpec.usd 600) (LedgerSpec.usd 100))
              [] RelayerSpec.db_carol (RelayerSpec.request_due 1700000000)
              80094 (fun _ _ => true) RelayerSpec.carol)
    as (Ht & Ha & _).
  - reflexivity.
  - intros approval. reflexivity.
  - reflexivity.
  - split; [exact Ht|]. apply Ha.
    split; [vm_compute; discriminate|].
    split; reflexivity.
Defined.

(** C2, the claim as written fails: a request whose deadline is the
    current second is approved, though its deadline is not in the
    future. *)
Lemma C2_counterexample_deadline_now_is_approved :
  ~ CollateralSpec.approvedIffDeadlineInFuture RelayerSpec.toyHash
      RelayerSpec.toyLeaf
      (RelayerSpec.env_at 1700000000 (LedgerSpec.usd 750)
         (LedgerSpec.usd 600) (LedgerSpec.usd 100))
      [] RelayerSpec.db_carol (RelayerSpec.request_due 1700000000) 80094.
Proof.
  intros [Hfwd _].
  assert (H : RelayerService.currentTime
                (RelayerSpec.env_at 1700000000 (LedgerSpec.usd 750)
                   (LedgerSpec.usd 600) (LedgerSpec.usd 100))
              < RelayerService.deadline (RelayerSpec.request_due 1700000000)).
  { apply Hfwd. split; reflexivity. }
  vm_compute in H. discriminate.
Qed.

(** The sum of the LTV test is a double: at a utilization of 0.1 USD a
    request of 0.2 USD against an LTV of 0.3 USD is rejected, the sum
    being [0.30000000000000004]. *)
Lemma ltv_sum_is_a_double :
  RelayerService.validation RelayerSpec.toyHash RelayerSpec.toyLeaf
    (RelayerSpec.env_at 1700000000 (Num.ofDecimal 3 1) (Num.ofDecimal 1 1)
       (Num.ofDecimal 2 1))
    [] RelayerSpec.db_carol (RelayerSpec.request_due 1700000000) 80094
  = (false, Some "Exceeds LTV limits").
Proof. vm_compute. reflexivity. Qed.

(** ** The scan for the row of highest key *)
Section ScanProperties.
Context {A : Type} (alive : A -> bool) (key : A -> Z).

Lemma laterBy_facts best a :
  (forall b, best = Some b -> alive b = true) ->
  (forall b, Scan.laterBy alive key best a = Some b -> alive b = true)
  /\ (forall b, best = Some b ->
                exists y, Scan.laterBy alive key best a = Some y
                          /\ key b <= key y)
  /\ (alive a = true ->
      exists y, Scan.laterBy alive key best a = Some y /\ key a <= key y)
  /\ (forall y, Scan.laterBy alive key best a = Some y ->
                y = a \/ best = Some y).
Proof.
  intros Hbest. unfold Scan.laterBy.
  destruct (alive a) eqn:Ea.
  - destruct best as [b0|].
    + destruct (key b0 <? key a) eqn:Elt.
      * repeat split.
        -- intros b [= <-]. exact Ea.
        -- intros b [= <-]. exists a. split; [reflexivity|lia].
        -- intros _. exists a. split; [reflexivity|lia].
        -- intros y [= <-]. now left.
      * repeat split.
        -- intros b [= <-]. now apply Hbest.
        -- intros b [= <-]. exists b0. split; [reflexivity|lia].
        -- intros _. exists b0. split; [reflexivity|lia].
        -- intros y Hy. now right.
    + repeat split.
      * intros b [= <-]. exact Ea.
      * intros b Hb. discriminate.
      * intros _. exists a. split; [reflexivity|lia].
      * intros y [= <-]. now left.
  - repeat split.
    + exact Hbest.
    + intros b ->. exists b. split; [reflexivity|lia].
    + discriminate.
    + intros y Hy. now right.
Qed.

Lemma scan_fold (l : list A) :
  forall best,
    (forall b, best = Some b -> alive b = true) ->
    let res := fold_left (Scan.laterBy alive key) l best in
    (forall b, best = Some b -> exists x, res = Some x /\ key b <= key x)
    /\ (forall r, r ∈ l -> alive r = true ->
                  exists x, res = Some x /\ key r <= key x)
    /\ (forall x, res = Some x ->
                  alive x = true /\ (x ∈ l \/ best = Some x)).
Proof.
  induction l as [|a l IH]; intros best Hbest; simpl.
  - split; [intros b ->; eexists; split; [reflexivity|lia]|].
    split; [intros r Hr; apply elem_of_nil in Hr; contradiction|].
    intros x ->. split; [now apply Hbest|now right].
  - destruct (laterBy_facts best a Hbest) as (F1 & F2 & F3 & F4).
    destruct (IH (Scan.laterBy alive key best a) F1) as (H1 & H2 & H3).
    split; [|split].
    + intros b Hb. destruct (F2 b Hb) as (y & Hy & Hle).
      destruct (H1 y Hy) as (x & Hx & Hle').
      exists x. split; [exact Hx|lia].
    + intros r Hr Hlive. apply elem_of_cons in Hr as [->|Hr].
      * destruct (F3 Hlive) as (y & Hy & Hle).
        destruct (H1 y Hy) as (x & Hx & Hle').
        exists x. split; [exact Hx|lia].
      * now apply H2.
    + intros x Hx. destruct (H3 x Hx) as (Hl & [Hin|Heq]).
      * split; [exact Hl|]. left. now apply list_elem_of_further.
      * split; [exact Hl|]. destruct (F4 x Heq) as [->|Hb].
        -- left. apply list_elem_of_here.
        -- now right.
Qed.

(** The scan returns a row that passes the clause and has the highest
    key among those that do, and returns none only when none does. *)
Lemma scan_latest (l : list A) :
  match fold_left (Scan.laterBy alive key) l None with
  | Some x =>
      x ∈ l /\ alive x = true
      /\ forall r, r ∈ l -> alive r = true -> key r <= key x
  | None => forall r, r ∈ l -> alive r = false
  end.
Proof.
  destruct (scan_fold l None) as (_ & H2 & H3); [discriminate|].
  destruct (fold_left (Scan.laterBy alive key) l None) as [x|] eqn:E.
  - destruct (H3 x eq_refl) as (Hl & [Hin|Hn]); [|discriminate].
    split; [exact Hin|]. split; [exact Hl|].
    intros r Hr Hlive. destruct (H2 r Hr Hlive) as (y & [= <-] & Hle).
    exact Hle.
  - intros r Hr. destruct (alive r) eqn:Ea; [|reflexivity].
    destruct (H2 r Hr Ea) as (y & Hy & _). discriminate.
Qed.

End ScanProperties.

(** ** Block ledger: the latest processed block *)
Section BlockLedgerProperties.
Import ProcessedBlocksService BlockLedgerSpec.

Lemma latest_of_live repository chain r :
  r ∈ repository -> live chain r = true ->
  exists x, getLatestProcessedBlock repository chain = Some x
            /\ blockNumber r <= blockNumber x
            /\ x ∈ repository /\ live chain x = true.
Proof.
  intros Hin Hlive.
  pose proof (scan_latest (live chain) blockNumber repository) as Hscan.
  change (fold_left (Scan.laterBy (live chain) blockNumber) repository None)
    with (getLatestProcessedBlock repository chain) in Hscan.
  destruct (getLatestProcessedBlock repository chain) as [x|].
  - destruct Hscan as (Hx & Hl & Htop).
    exists x. split; [reflexivity|]. split; [now apply Htop|]. auto.
  - rewrite (Hscan r Hin) in Hlive. discriminate.
Qed.

Lemma maxOf_lt n m (ns : list Z) :
  m < n -> Forall (fun k => k < n) ns -> maxOf m ns < n.
Proof.
  unfold maxOf. revert m.
  induction ns as [|a ns IH]; intros m Hm Hall; simpl; [exact Hm|].
  inversion Hall; subst. apply IH; [lia|assumption].
Qed.

Lemma step_keeps repository chain n op :
  keepsLatest chain n op ->
  hasLiveAtLeast repository chain n ->
  hasLiveAtLeast (step repository op) chain n.
Proof.
  intros Hop (r & Hin & Hlive & Hle).
  destruct op as [c b|c ns|c keep]; simpl in *.
  - exists r. split; [|auto]. unfold addBlock. apply elem_of_app. now left.
  - exists r. split; [|auto]. unfold markBlocksAsReorged.
    destruct ns as [|m ns]; [exact Hin|].
    apply list_elem_of_fmap. exists r. split; [|exact Hin].
    destruct Hop as [Hc|Hall].
    + destruct (chainId r =? c) eqn:Ec; [|reflexivity].
      unfold live in Hlive. apply andb_true_iff in Hlive as [Hcr _]. lia.
    + inversion Hall; subst.
      assert (maxOf m ns < n) by (now apply maxOf_lt).
      destruct (blockNumber r <=? maxOf m ns) eqn:Eb; [lia|].
      now rewrite andb_false_r.
  - unfold cleanupOldBlocks.
    destruct (Z.eq_dec c chain) as [->|Hc].
    + destruct Hop as [Hc|Hk]; [contradiction|].
      destruct (latest_of_live repository chain r Hin Hlive)
        as (x & Hx & Hxle & Hxin & Hxl).
      rewrite Hx.
      destruct (blockNumber x <? keep); [exists r; auto|].
      simpl. exists x. split; [|split; [exact Hxl|lia]].
      apply list_elem_of_In, filter_In. split;
        [now apply list_elem_of_In|].
      destruct (blockNumber x <=? blockNumber x - keep) eqn:Eb; [lia|].
      now rewrite andb_false_r.
    + destruct (getLatestProcessedBlock repository c) as [lb|];
        [|exists r; auto].
      destruct (blockNumber lb <? keep); [exists r; auto|].
      simpl. exists r. split; [|auto].
      apply list_elem_of_In, filter_In. split;
        [now apply list_elem_of_In|].
      unfold live in Hlive. apply andb_true_iff in Hlive as [Hcr _].
      destruct (chainId r =? c) eqn:Ec; [lia|reflexivity].
Qed.

End BlockLedgerProperties.


(** C8 (as the code has it): the latest processed block of a chain is
    the highest block number among its rows that are not marked reorged.
    Once [addBlock] has stored block [n], the latest processed block of
    the chain stays at or above [n] through every later [addBlock],
    through [markBlocksAsReorged] on another chain or on block numbers
    all below [n], and through [cleanupOldBlocks] on another chain or
    keeping at least one block.  A reorg mark whose span reaches [n]
    lowers it. *)
Theorem C8_latest_processed_stays_at_least
    (repository : list ProcessedBlocksService.ProcessedBlock) (chain : Z)
    (block : ProcessedBlocksService.Block)
    (ops : list ProcessedBlocksService.Op) :
  Forall (BlockLedgerSpec.keepsLatest chain
            (ProcessedBlocksService.number block)) ops ->
  BlockLedgerSpec.latestAtLeast
    (ProcessedBlocksService.run
       (ProcessedBlocksService.addBlock repository chain block) ops)
    chain (ProcessedBlocksService.number block).
Proof.
  intros Hops.
  assert (Hinv : BlockLedgerSpec.hasLiveAtLeast
                   (ProcessedBlocksService.run
                      (ProcessedBlocksService.addBlock repository chain block)
                      ops)
                   chain (ProcessedBlocksService.number block)).
  { unfold ProcessedBlocksService.run.
    assert (H0 : BlockLedgerSpec.hasLiveAtLeast
                   (ProcessedBlocksService.addBlock repository chain block)
                   chain (ProcessedBlocksService.number block)).
    { eexists. split; [apply elem_of_app; right; apply list_elem_of_here|].
      split; [|simpl; lia].
      unfold BlockLedgerSpec.live. simpl. now rewrite Z.eqb_refl. }
    revert H0.
    generalize (ProcessedBlocksService.addBlock repository chain block).
    induction Hops as [|op ops Hop Hops IH]; intros repo H0; simpl;
      [exact H0|].
    apply IH. now apply step_keeps. }
  destruct Hinv as (r & Hin & Hlive & Hle).
  destruct (latest_of_live _ _ _ Hin Hlive) as (x & Hx & Hxle & _).
  exists x. split; [exact Hx|lia].
Qed.

(** Block 5 stays the floor of chain 1 through a later block, a reorg
    mark below it and a cleanup. *)
Lemma C8_witness :
  BlockLedgerSpec.latestAtLeast
    (ProcessedBlocksService.run
       (ProcessedBlocksService.addBlock [] 1 BlockLedgerSpec.block5)
       [ProcessedBlocksService.AddBlock 1 BlockLedgerSpec.block6;
        ProcessedBlocksService.MarkBlocksAsReorged 1 [3; 4];
        ProcessedBlocksService.CleanupOldBlocks 1 1])
    1 5.
Proof.
  apply (C8_latest_processed_stays_at_least [] 1 BlockLedgerSpec.block5).
  apply Forall_cons. split; [exact I|].
  apply Forall_cons. split.
  { right. simpl. apply Forall_cons. split; [lia|].
    apply Forall_cons. split; [lia|]. apply Forall_nil. exact I. }
  apply Forall_cons. split; [right; lia|].
  apply Forall_nil. exact I.
Defined.

(** C8, the claim as written fails: marking block 5 reorged after it was
    added leaves chain 1 with no latest processed block. *)
Lemma C8_counterexample_reorg_lowers_latest :
  ~ BlockLedgerSpec.latestAtLeast
      (ProcessedBlocksService.run
         (ProcessedBlocksService.addBlock [] 1 BlockLedgerSpec.block5)
         [ProcessedBlocksService.MarkBlocksAsReorged 1 [5]])
      1 5.
Proof. intros (r & Hr & _). vm_compute in Hr. discriminate. Qed.


(** ** Block processor: the bloom filter and the log test *)
Section MatcherProperties.
Import EventsService MatcherSpec.

Lemma insert_one_keeps (f : list Z) (q p : nat) :
  f !! p <> Some 0 -> (<[q := 1]> f) !! p <> Some 0.
Proof.
  intros Hp. destruct (Nat.eq_dec q p) as [->|Hne].
  - destruct (Nat.lt_ge_cases p (length f)) as [Hlt|Hge].
    + rewrite list_lookup_insert_eq by exact Hlt. discriminate.
    + rewrite list_insert_ge by exact Hge. exact Hp.
  - rewrite list_lookup_insert_ne by exact Hne. exact Hp.
Qed.

Lemma insert_one_sets (f : list Z) (q : nat) : (<[q := 1]> f) !! q <> Some 0.
Proof.
  destruct (Nat.lt_ge_cases q (length f)) as [Hlt|Hge].
  - rewrite list_lookup_insert_eq by exact Hlt. discriminate.
  - rewrite list_insert_ge by exact Hge.
    rewrite (proj2 (lookup_ge_None f q) Hge). discriminate.
Qed.

Lemma inserts_keep (pos : nat -> nat) (idxs : list nat) :
  forall (f : list Z) (p : nat),
    f !! p <> Some 0 ->
    fold_left (fun f i => <[pos i := 1]> f) idxs f !! p <> Some 0.
Proof.
  induction idxs as [|i idxs IH]; intros f p Hp; simpl; [exact Hp|].
  apply IH. now apply insert_one_keeps.
Qed.

Lemma inserts_set (pos : nat -> nat) (idxs : list nat) :
  forall (f : list Z) (i : nat),
    i ∈ idxs ->
    fold_left (fun f i => <[pos i := 1]> f) idxs f !! pos i <> Some 0.
Proof.
  induction idxs as [|j idxs IH]; intros f i Hi; simpl.
  - apply elem_of_nil in Hi. contradiction.
  - apply elem_of_cons in Hi as [->|Hi].
    + apply inserts_keep, insert_one_sets.
    + now apply IH.
Qed.

Lemma mightContain_spec b str :
  mightContain b str = true
  <-> forall i, i ∈ seq 0 (hashFunctions b) ->
                filter_ b !! position b str i <> Some 0.
Proof.
  unfold mightContain. rewrite forallb_forall. split.
  - intros H i Hi. specialize (H i (proj1 (list_elem_of_In _ _) Hi)).
    destruct (filter_ b !! position b str i) as [[| |]|];
      try discriminate.
  - intros H i Hi. specialize (H i (proj2 (list_elem_of_In _ _) Hi)).
    destruct (filter_ b !! position b str i) as [[| |]|];
      try reflexivity. contradiction.
Qed.

Lemma add_mightContain_self b str : mightContain (add b str) str = true.
Proof.
  apply mightContain_spec. intros i Hi. simpl in *.
  change (position (add b str) str i) with (position b str i).
  now apply (inserts_set (position b str)).
Qed.

Lemma add_mightContain_keeps b str other :
  mightContain b other = true -> mightContain (add b str) other = true.
Proof.
  rewrite !mightContain_spec. intros H i Hi. simpl in *.
  change (position (add b str) other i) with (position b other i).
  apply (inserts_keep (position b str)). now apply H.
Qed.

Lemma adds_mightContain_keeps (fs : list TopicFilter) :
  forall b other,
    mightContain b other = true ->
    mightContain
      (fold_left (fun acc f => add acc (Js.toLowerCase (tf_hash f))) fs b)
      other = true.
Proof.
  induction fs as [|f fs IH]; intros b other H; simpl; [exact H|].
  apply IH. now apply add_mightContain_keeps.
Qed.

(** The bloom filter has no false negative on the hashes it was
    rebuilt from. *)
Lemma updateTopicBloomFilter_contains b (fs : list TopicFilter) f :
  f ∈ fs ->
  mightContain (updateTopicBloomFilter b fs) (Js.toLowerCase (tf_hash f))
  = true.
Proof.
  unfold updateTopicBloomFilter. generalize (clear b). clear b.
  induction fs as [|g fs IH]; intros b Hin; simpl.
  - apply elem_of_nil in Hin. contradiction.
  - apply elem_of_cons in Hin as [->|Hin].
    + apply adds_mightContain_keeps, add_mightContain_self.
    + now apply IH.
Qed.

Lemma has_spec (s : list string) x : has s x = true <-> x ∈ s.
Proof.
  unfold has. rewrite existsb_exists. split.
  - intros (y & Hy & He). apply String.eqb_eq in He. subst y.
    now apply list_elem_of_In.
  - intros Hx. exists x. split; [now apply list_elem_of_In|].
    apply String.eqb_refl.
Qed.

Lemma has_topicHashSet (fs : list TopicFilter) x :
  has (topicHashSet fs) x = true
  <-> exists f, f ∈ fs /\ Js.toLowerCase (tf_hash f) = x.
Proof.
  rewrite has_spec. unfold topicHashSet.
  change (map ?g fs) with (g <$> fs).
  rewrite list_elem_of_fmap. split; intros (f & H1 & H2); exists f; auto.
Qed.

Lemma logMatches_iff b (fs : list TopicFilter) (log : Log) :
  logMatches (updateTopicBloomFilter b fs) (topicHashSet fs) log = true
  <-> topicInFilters fs log.
Proof.
  unfold logMatches, topicInFilters.
  destruct (topics log) as [|t rest] eqn:Et.
  - split; [discriminate|]. intros (f & t & rest & _ & H & _). discriminate.
  - rewrite andb_true_iff, has_topicHashSet. split.
    + intros (_ & f & Hf & He). exists f, t, rest. auto.
    + intros (f & t' & rest' & Hf & Heq & He).
      inversion Heq; subst t' rest'. split.
      * rewrite <- He. now apply updateTopicBloomFilter_contains.
      * exists f. auto.
Qed.

Lemma filteredLogs_iff (fs : list TopicFilter) (logs : list Log) log :
  log ∈ filteredLogs (topicHashSet fs) logs
  <-> log ∈ logs /\ topicInFilters fs log.
Proof.
  unfold filteredLogs. rewrite list_elem_of_In, filter_In, <- list_elem_of_In.
  apply and_iff_compat_l. unfold topicInFilters.
  destruct (topics log) as [|t rest] eqn:Et.
  - split; [discriminate|]. intros (f & t & rest & _ & H & _). discriminate.
  - rewrite has_topicHashSet. split.
    + intros (f & Hf & He). exists f, t, rest. auto.
    + intros (f & t' & rest' & Hf & Heq & He).
      inversion Heq; subst t' rest'. exists f. auto.
Qed.

Lemma setAdd_elem (s : list string) x y : y ∈ setAdd s x <-> y ∈ s \/ y = x.
Proof.
  unfold setAdd. destruct (has s x) eqn:E.
  - apply has_spec in E. split; [auto|]. intros [H| ->]; auto.
  - rewrite elem_of_app, elem_of_cons, elem_of_nil. tauto.
Qed.

Lemma matchingTopics_iff bloom hashes (logs : list Log) :
  forall acc y,
    y ∈ fold_left
          (fun acc log =>
             if logMatches bloom hashes log
             then match topics log with
                  | t :: _ => setAdd acc (Js.toLowerCase t)
                  | [] => acc
                  end
             else acc) logs acc
    <-> y ∈ acc
        \/ exists log t rest,
             log ∈ logs /\ logMatches bloom hashes log = true
             /\ topics log = t :: rest /\ y = Js.toLowerCase t.
Proof.
  induction logs as [|log logs IH]; intros acc y; simpl.
  - split; [auto|]. intros [H|(l & t & r & H & _)]; [exact H|].
    apply elem_of_nil in H. contradiction.
  - rewrite IH. split.
    + intros [Hacc|(l & t & r & Hl & Hm & Ht & Hy)].
      * destruct (logMatches bloom hashes log) eqn:Em; [|auto].
        destruct (topics log) as [|t r] eqn:Et; [auto|].
        apply setAdd_elem in Hacc as [Hacc| ->]; [auto|].
        right. exists log, t, r. repeat split; auto.
        apply list_elem_of_here.
      * right. exists l, t, r. repeat split; auto.
        now apply list_elem_of_further.
    + intros [Hacc|(l & t & r & Hl & Hm & Ht & Hy)].
      * left. destruct (logMatches bloom hashes log); [|exact Hacc].
        destruct (topics log); [exact Hacc|].
        apply setAdd_elem. auto.
      * apply elem_of_cons in Hl as [->|Hl].
        -- left. rewrite Hm, Ht. apply setAdd_elem. auto.
        -- right. exists l, t, r. auto.
Qed.

End MatcherProperties.

(** C4 (as the code has it): with the bloom filter and the hash set
    built from the same filters, a receipt log is matched exactly when
    its first topic, in lower case, is the hash of one of the filters;
    the contract of the filter is not consulted.  The transaction is kept
    when some log matches; its logs are then the logs so matched, in
    receipt order, and its topics their first topics. *)
Theorem C4_log_matched_iff_topic0_in_filter_hashes
    (chain : Z) (chainName : string) (b : EventsService.BloomFilter)
    (topicFilters : list EventsService.TopicFilter) (txHash : string)
    (receipt : EventsService.TransactionReceipt)
    (transaction : option EventsService.TransactionResponse) :
  (forall log,
     EventsService.logMatches
       (EventsService.updateTopicBloomFilter b topicFilters)
       (EventsService.topicHashSet topicFilters) log = true
     <-> MatcherSpec.topicInFilters topicFilters log)
  /\ match EventsService.processReceipt chain chainName b topicFilters txHash
             (Some receipt) transaction with
     | Some ft =>
         (forall log,
            log ∈ EventsService.ft_logs ft
            <-> log ∈ EventsService.r_logs receipt
                /\ MatcherSpec.topicInFilters topicFilters log)
         /\ (forall topic0,
               topic0 ∈ EventsService.ft_topics ft
               <-> exists log t rest,
                     log ∈ EventsService.r_logs receipt
                     /\ MatcherSpec.topicInFilters topicFilters log
                     /\ EventsService.topics log = t :: rest
                     /\ topic0 = Js.toLowerCase t)
     | None =>
         forall log, log ∈ EventsService.r_logs receipt ->
                     ~ MatcherSpec.topicInFilters topicFilters log
     end.
Proof.
  split; [intros log; apply logMatches_iff|].
  assert (Htopics : forall y,
    y ∈ EventsService.matchingTopics
          (EventsService.updateTopicBloomFilter b topicFilters)
          (EventsService.topicHashSet topicFilters)
          (EventsService.r_logs receipt)
    <-> exists log t rest,
          log ∈ EventsService.r_logs receipt
          /\ MatcherSpec.topicInFilters topicFilters log
          /\ EventsService.topics log = t :: rest
          /\ y = Js.toLowerCase t).
  { intros y. unfold EventsService.matchingTopics.
    rewrite matchingTopics_iff. split.
    - intros [H|(l & t & r & Hl & Hm & Ht & Hy)];
        [apply elem_of_nil in H; contradiction|].
      exists l, t, r. rewrite <- logMatches_iff. eauto.
    - intros (l & t & r & Hl & Hm & Ht & Hy). right.
      exists l, t, r. rewrite logMatches_iff. auto. }
  unfold EventsService.processReceipt, EventsService.processReceiptFromCache.
  destruct (EventsService.r_logs receipt) as [|l0 ls] eqn:El.
  { intros log Hlog. apply elem_of_nil in Hlog. contradiction. }
  destruct (EventsService.matchingTopics _ _ (l0 :: ls)) as [|t0 ts] eqn:Em.
  - intros log Hlog Hin.
    destruct Hin as (f & t & rest & Hf & Ht & He).
    assert (Hy : Js.toLowerCase t ∈ @nil string).
    { apply Htopics. exists log, t, rest. repeat split; auto.
      exists f, t, rest. auto. }
    apply elem_of_nil in Hy. contradiction.
  - cbn [EventsService.ft_logs EventsService.ft_topics]. split.
    + intros log. apply (filteredLogs_iff topicFilters (l0 :: ls)).
    + exact Htopics.
Qed.

(** C4, the claim as written fails: the Transfer filter is scoped to the
    NFT contract, and a Transfer log emitted by another contract is
    matched all the same. *)
Lemma C4_counterexample_other_contract_is_matched :
  ~ MatcherSpec.matchesWithinContract EventsService.newBloomFilter
      [MatcherSpec.nftTransferFilter] MatcherSpec.erc20TransferLog.
Proof.
  intros [Hfwd _].
  destruct Hfwd as (f & t & rest & Hf & Ht & _ & Hc).
  - apply logMatches_iff. exists MatcherSpec.nftTransferFilter.
    eexists _, _. split; [apply list_elem_of_here|]. split; reflexivity.
  - apply elem_of_cons in Hf as [->|Hf];
      [|apply elem_of_nil in Hf; contradiction].
    vm_compute in Hc. discriminate.
Qed.


(** ** Ownership snapshot *)
Section SnapshotProperties.
Import NftModels SnapshotSpec.

Lemma last_cons_some {A} (a : A) (l : list A) :
  last (a :: l) = Some (default a (last l)).
Proof.
  revert a. induction l as [|b l IH]; intros a; [reflexivity|].
  change (last (a :: b :: l)) with (last (b :: l)).
  rewrite (IH b). reflexivity.
Qed.

(** The loop keeps, for each token, the recipient of the last transfer
    that records it. *)
Lemma ownership_get (tid : string) (l : list NftTransfer) :
  forall o,
    Js.get tid (fold_left ownershipStep l o)
    = match last (List.filter (recordsFor tid) l) with
      | Some t => Some (Js.toLowerCase (toAddress t))
      | None => Js.get tid o
      end.
Proof.
  induction l as [|a l IH]; intros o; [reflexivity|].
  change (fold_left ownershipStep (a :: l) o)
    with (fold_left ownershipStep l (ownershipStep o a)).
  rewrite IH.
  change (List.filter (recordsFor tid) (a :: l))
    with (if recordsFor tid a then a :: List.filter (recordsFor tid) l
          else List.filter (recordsFor tid) l).
  unfold recordsFor at 2. unfold ownershipStep.
  destruct (Js.truthy (tokenId a) && Js.truthy (toAddress a)) eqn:Ev.
  - destruct (String.eqb (tokenId a) tid) eqn:Et;
      cbn [andb].
    + apply String.eqb_eq in Et. subst tid.
      rewrite last_cons_some.
      destruct (last (List.filter (recordsFor (tokenId a)) l));
        [reflexivity|]. simpl. apply get_set_eq.
    + destruct (last (List.filter (recordsFor tid) l)); [reflexivity|].
      apply get_set_ne. intros Heq. rewrite Heq, String.eqb_refl in Et.
      discriminate.
  - reflexivity.
Qed.

(** *** The sort by block number *)
Lemma insertByBlock_perm t l : Permutation (insertByBlock t l) (t :: l).
Proof.
  induction l as [|x l IH]; simpl; [reflexivity|].
  destruct (blockNumber t <=? blockNumber x); [reflexivity|].
  rewrite IH. apply perm_swap.
Qed.

Lemma sortByBlock_perm l : Permutation (sortByBlock l) l.
Proof.
  induction l as [|x l IH]; simpl; [reflexivity|].
  rewrite insertByBlock_perm. now rewrite IH.
Qed.

Lemma insertByBlock_sorted t l :
  StronglySorted byBlock l -> StronglySorted byBlock (insertByBlock t l).
Proof.
  induction 1 as [|x l Hs IH Hall]; simpl.
  - constructor; constructor.
  - destruct (blockNumber t <=? blockNumber x) eqn:E.
    + constructor; [constructor; assumption|].
      constructor; [unfold byBlock; lia|].
      eapply Forall_impl; [exact Hall|]. unfold byBlock. intros; lia.
    + constructor; [exact IH|].
      rewrite insertByBlock_perm. constructor; [unfold byBlock; lia|exact Hall].
Qed.

Lemma sortByBlock_sorted l : StronglySorted byBlock (sortByBlock l).
Proof.
  induction l as [|x l IH]; simpl; [constructor|].
  now apply insertByBlock_sorted.
Qed.

(** The sort is stable: transfers of one block keep their order. *)
Lemma insertByBlock_filter_block b t l :
  List.filter (fun x => blockNumber x =? b) (insertByBlock t l)
  = List.filter (fun x => blockNumber x =? b) (t :: l).
Proof.
  induction l as [|x l IH]; simpl; [reflexivity|].
  destruct (blockNumber t <=? blockNumber x) eqn:E; [reflexivity|].
  simpl. rewrite IH. simpl.
  destruct (blockNumber t =? b) eqn:Et; [|reflexivity].
  destruct (blockNumber x =? b) eqn:Ex; [lia|reflexivity].
Qed.

Lemma sortByBlock_stable b l :
  List.filter (fun x => blockNumber x =? b) (sortByBlock l)
  = List.filter (fun x => blockNumber x =? b) l.
Proof.
  induction l as [|x l IH]; simpl; [reflexivity|].
  rewrite insertByBlock_filter_block. simpl. now rewrite IH.
Qed.

End SnapshotProperties.


Section SnapshotLatest.
Import NftModels SnapshotSpec.

Lemma filter_perm (f : NftTransfer -> bool) l l' :
  Permutation l l' -> Permutation (List.filter f l) (List.filter f l').
Proof.
  induction 1 as [|x l l' Hp IH|x y l|l l' l'' Hp1 IH1 Hp2 IH2]; simpl.
  - reflexivity.
  - destruct (f x); [now constructor|exact IH].
  - destruct (f x), (f y); try reflexivity. apply perm_swap.
  - now rewrite IH1.
Qed.

Lemma filter_comm (f g : NftTransfer -> bool) l :
  List.filter f (List.filter g l) = List.filter g (List.filter f l).
Proof.
  induction l as [|x l IH]; simpl; [reflexivity|].
  destruct (g x) eqn:Eg, (f x) eqn:Ef; simpl; rewrite ?Eg, ?Ef, IH;
    reflexivity.
Qed.

Lemma maxBlock_upper (ts : list NftTransfer) t :
  t ∈ ts -> blockNumber t <= maxBlock ts.
Proof.
  destruct ts as [|a r]; [intros H; apply elem_of_nil in H; contradiction|].
  simpl. revert t. induction r as [|b r IH]; intros t Hin; simpl.
  - apply elem_of_cons in Hin as [->|Hin]; [lia|].
    apply elem_of_nil in Hin. contradiction.
  - apply elem_of_cons in Hin as [->|Hin].
    + specialize (IH a (list_elem_of_here _ _)). lia.
    + apply elem_of_cons in Hin as [->|Hin]; [lia|].
      specialize (IH t (list_elem_of_further _ _ _ Hin)). lia.
Qed.

Lemma maxBlock_attained (ts : list NftTransfer) :
  ts <> [] -> exists t, t ∈ ts /\ blockNumber t = maxBlock ts.
Proof.
  destruct ts as [|a r]; [contradiction|]. intros _. simpl.
  induction r as [|b r IH]; simpl.
  - exists a. split; [apply list_elem_of_here|reflexivity].
  - destruct IH as (t & Hin & Heq).
    destruct (Z.max_spec (blockNumber b)
                (fold_right (fun x m => Z.max (blockNumber x) m)
                   (blockNumber a) r)) as [[_ ->]|[_ ->]].
    + exists t. split; [|exact Heq].
      apply elem_of_cons in Hin as [->|Hin]; [apply list_elem_of_here|].
      now apply list_elem_of_further, list_elem_of_further.
    + exists b. split; [|reflexivity].
      apply list_elem_of_further, list_elem_of_here.
Qed.

Lemma maxBlock_of_top (ts : list NftTransfer) w :
  w ∈ ts -> (forall t, t ∈ ts -> blockNumber t <= blockNumber w) ->
  maxBlock ts = blockNumber w.
Proof.
  intros Hin Htop.
  destruct (maxBlock_attained ts) as (t & Ht & Heq).
  { intros ->. apply elem_of_nil in Hin. contradiction. }
  pose proof (Htop t Ht). pose proof (maxBlock_upper ts w Hin). lia.
Qed.

Lemma maxBlock_perm ts ts' : Permutation ts ts' -> maxBlock ts = maxBlock ts'.
Proof.
  intros Hp. destruct ts as [|a r].
  - apply Permutation_nil in Hp. now subst.
  - destruct (maxBlock_attained (a :: r)) as (w & Hw & Heq); [discriminate|].
    rewrite <- Heq. symmetry. apply maxBlock_of_top.
    + now rewrite <- Hp.
    + intros t Ht. rewrite <- Hp in Ht. rewrite Heq.
      now apply maxBlock_upper.
Qed.

Lemma last_elem {A} (l : list A) w : last l = Some w -> w ∈ l.
Proof.
  induction l as [|a l IH]; [discriminate|].
  rewrite last_cons_some. intros [= <-].
  destruct (last l) as [x|] eqn:E; simpl.
  - apply list_elem_of_further. now apply IH.
  - apply list_elem_of_here.
Qed.

Lemma last_filter_keep (f : NftTransfer -> bool) l w :
  last l = Some w -> f w = true -> last (List.filter f l) = Some w.
Proof.
  induction l as [|a l IH]; [discriminate|].
  rewrite last_cons_some. intros [= Hw] Hf. simpl.
  destruct (last l) as [x|] eqn:E; simpl in Hw; subst.
  - specialize (IH eq_refl Hf).
    destruct (f a); [|exact IH].
    rewrite last_cons_some, IH. reflexivity.
  - destruct l; [|rewrite last_cons_some in E; discriminate].
    rewrite Hf. reflexivity.
Qed.

Lemma sorted_last_top (f : NftTransfer -> bool) l w :
  StronglySorted byBlock l -> last (List.filter f l) = Some w ->
  forall t, t ∈ List.filter f l -> blockNumber t <= blockNumber w.
Proof.
  induction 1 as [|a l Hs IH Hall]; simpl; [discriminate|].
  destruct (f a) eqn:Ef; [|exact IH].
  rewrite last_cons_some. intros [= Hw] t Ht.
  destruct (last (List.filter f l)) as [x|] eqn:E; simpl in Hw; subst.
  - apply elem_of_cons in Ht as [->|Ht]; [|now apply IH].
    apply last_elem in E. apply list_elem_of_In, filter_In in E as [E _].
    rewrite Forall_forall in Hall. apply (Hall w).
    now apply list_elem_of_In.
  - apply elem_of_cons in Ht as [->|Ht]; [lia|].
    destruct (List.filter f l); [apply elem_of_nil in Ht; contradiction|].
    rewrite last_cons_some in E. discriminate.
Qed.

(** The snapshot of the transfer service is the owner of the
    specification with ties settled by the input order. *)
Lemma snapshot_latestOwner transfers tid :
  Js.get tid (NftTransferService.getCurrentOwnershipFromTransfers transfers)
  = latestOwner transfers tid.
Proof.
  unfold NftTransferService.getCurrentOwnershipFromTransfers, latestOwner.
  rewrite ownership_get. simpl Js.get.
  set (ofToken := List.filter (recordsFor tid) transfers).
  set (sorted := List.filter (recordsFor tid) (sortByBlock transfers)).
  assert (Hperm : Permutation sorted ofToken)
    by (apply filter_perm, sortByBlock_perm).
  destruct (last sorted) as [w|] eqn:El.
  - pose proof (sorted_last_top _ _ _ (sortByBlock_sorted transfers) El)
      as Htop. fold sorted in Htop.
    assert (Hmax : maxBlock ofToken = blockNumber w).
    { rewrite <- (maxBlock_perm _ _ Hperm).
      apply maxBlock_of_top; [now apply last_elem|exact Htop]. }
    rewrite Hmax.
    assert (Hstable :
      List.filter (fun t => blockNumber t =? blockNumber w) ofToken
      = List.filter (fun t => blockNumber t =? blockNumber w) sorted).
    { unfold ofToken, sorted.
      rewrite (filter_comm _ (recordsFor tid) transfers).
      rewrite (filter_comm _ (recordsFor tid) (sortByBlock transfers)).
      now rewrite sortByBlock_stable. }
    rewrite Hstable.
    rewrite (last_filter_keep _ _ w El) by apply Z.eqb_refl.
    reflexivity.
  - assert (Hnil : sorted = []).
    { destruct sorted; [reflexivity|].
      rewrite last_cons_some in El. discriminate. }
    rewrite Hnil in Hperm. apply Permutation_nil in Hperm.
    rewrite Hperm. reflexivity.
Qed.

End SnapshotLatest.

Lemma perm_short {A} (l l' : list A) :
  Permutation l l' -> (length l <= 1)%nat -> l' = l.
Proof.
  intros Hp Hlen. destruct l as [|x [|y r]].
  - now apply Permutation_nil.
  - now apply Permutation_length_1_inv.
  - simpl in Hlen. lia.
Qed.

(** C6 (as the code has it): the snapshot maps each token id to the
    recipient, in lower case, of its transfer with the greatest block
    number; among transfers of that block the one that comes last in the
    list given wins, the log index not being read.  The Merkle service
    computes the same map from the list sorted by block number.  The
    owner the snapshot gives a token is the same for every ordering of
    the list when the token has no two transfers in its greatest
    block. *)
Theorem C6_snapshot_latest_block_ties_by_input_order
    (transfers : list NftModels.NftTransfer) (tid : string) :
  Js.get tid (NftTransferService.getCurrentOwnershipFromTransfers transfers)
  = SnapshotSpec.latestOwner transfers tid
  /\ Js.get tid (MerkleService.getCurrentOwnershipFromTransfers
                   (NftModels.sortByBlock transfers))
     = SnapshotSpec.latestOwner transfers tid
  /\ (forall transfers',
        Permutation transfers transfers' ->
        (length (SnapshotSpec.topTransfers transfers tid) <= 1)%nat ->
        Js.get tid
          (NftTransferService.getCurrentOwnershipFromTransfers transfers')
        = Js.get tid
            (NftTransferService.getCurrentOwnershipFromTransfers transfers)).
Proof.
  split; [apply snapshot_latestOwner|].
  split; [apply snapshot_latestOwner|].
  intros transfers' Hp Hlen.
  rewrite !snapshot_latestOwner.
  unfold SnapshotSpec.latestOwner. unfold SnapshotSpec.topTransfers in Hlen.
  set (ofToken := List.filter (SnapshotSpec.recordsFor tid) transfers) in *.
  set (ofToken' := List.filter (SnapshotSpec.recordsFor tid) transfers').
  assert (Hperm : Permutation ofToken ofToken') by now apply filter_perm.
  rewrite <- (maxBlock_perm _ _ Hperm).
  f_equal. f_equal.
  apply perm_short; [|exact Hlen]. now apply filter_perm.
Qed.

(** Tokens 7 and 8 move in block 20, token 7 again in block 21: the
    owner of token 7 does not depend on the order of the list. *)
Lemma C6_witness :
  Js.get "7"
    (NftTransferService.getCurrentOwnershipFromTransfers
       [SnapshotSpec.transferTo "0xf3" 21 "7" "0xCC";
        SnapshotSpec.transferTo "0xf4" 20 "8" "0xDD"; SnapshotSpec.mintTo_aa])
  = Some "0xcc"
  /\ Js.get "7"
       (NftTransferService.getCurrentOwnershipFromTransfers
          [SnapshotSpec.transferTo "0xf3" 21 "7" "0xCC";
           SnapshotSpec.transferTo "0xf4" 20 "8" "0xDD";
           SnapshotSpec.mintTo_aa])
     = Js.get "7"
         (NftTransferService.getCurrentOwnershipFromTransfers
            [SnapshotSpec.mintTo_aa;
             SnapshotSpec.transferTo "0xf4" 20 "8" "0xDD";
             SnapshotSpec.transferTo "0xf3" 21 "7" "0xCC"]).
Proof.
  destruct (C6_snapshot_latest_block_ties_by_input_order
              [SnapshotSpec.mintTo_aa;
               SnapshotSpec.transferTo "0xf4" 20 "8" "0xDD";
               SnapshotSpec.transferTo "0xf3" 21 "7" "0xCC"] "7")
    as (_ & _ & Hord).
  split; [reflexivity|].
  apply Hord.
  - apply Permutation_rev.
  - vm_compute. lia.
Defined.

(** C6, the claim as written fails: two transfers of token 7 in one
    block give the token to 0xbb or to 0xaa according to the order in
    which the list holds them. *)
Lemma C6_counterexample_same_block_depends_on_order :
  ~ SnapshotSpec.snapshotIndependentOfOrder
      [SnapshotSpec.mintTo_aa; SnapshotSpec.thenTo_bb]
      [SnapshotSpec.thenTo_bb; SnapshotSpec.mintTo_aa].
Proof.
  intros H. specialize (H (perm_swap _ _ _) "7").
  vm_compute in H. discriminate.
Qed.


(** ** The Merkle tree: a proof of a leaf of the tree verifies *)
Section MerkleTreeProperties.
Variable hashFn : Z -> Z -> Z.

Local Abbreviation combine := (MerkleTree.combine hashFn).
Local Abbreviation verifyStep := (MerkleTree.verifyStep hashFn).
Local Abbreviation createLayer := (MerkleTree.createLayer hashFn).
Local Abbreviation createHashes := (MerkleTree.createHashes hashFn).
Local Abbreviation parent := (MerkleSpec.parent hashFn).
Local Abbreviation pairIndex := MerkleSpec.pairIndex.
Local Abbreviation rootOf := MerkleSpec.rootOf.

Lemma verifyStep_left a b : verifyStep a b = combine a b.
Proof.
  unfold MerkleTree.verifyStep, MerkleTree.combine.
  destruct (a <? b) eqn:E1, (a <=? b) eqn:E2; try reflexivity; try lia.
  assert (a = b) by lia. now subst.
Qed.

Lemma verifyStep_right a b : verifyStep b a = combine a b.
Proof.
  unfold MerkleTree.verifyStep, MerkleTree.combine.
  destruct (b <? a) eqn:E1, (a <=? b) eqn:E2; try reflexivity; lia.
Qed.

Lemma createLayer_length (nodes : list Z) :
  (length (createLayer nodes) <= length nodes)%nat
  /\ (2 <= length nodes -> S (length (createLayer nodes)) <= length nodes)%nat.
Proof.
  assert (H : forall n (l : list Z), (length l <= n)%nat ->
    (length (createLayer l) <= length l)%nat
    /\ (2 <= length l -> S (length (createLayer l)) <= length l)%nat).
  { induction n as [|n IH]; intros l Hl.
    - destruct l; simpl in *; [lia|lia].
    - destruct l as [|a [|b r]]; simpl in *; try lia.
      destruct (IH r) as [H1 H2]; [lia|]. lia. }
  apply (H (length nodes)). lia.
Qed.

Lemma createLayer_parent (nodes : list Z) :
  forall index x,
    nodes !! index = Some x ->
    createLayer nodes !! (index / 2)%nat = Some (parent nodes index x).
Proof.
  assert (H : forall n (l : list Z), (length l <= n)%nat ->
    forall index x, l !! index = Some x ->
      createLayer l !! (index / 2)%nat = Some (parent l index x)).
  { induction n as [|n IH]; intros l Hl index x Hx.
    - destruct l; [discriminate|simpl in Hl; lia].
    - destruct l as [|a [|b r]].
      + discriminate.
      + destruct index as [|index]; [|discriminate].
        inversion Hx; subst. reflexivity.
      + destruct index as [|[|index]].
        * inversion Hx; subst. unfold MerkleSpec.parent. simpl.
          now rewrite verifyStep_left.
        * inversion Hx; subst. unfold MerkleSpec.parent. simpl.
          now rewrite verifyStep_right.
        * change ((a :: b :: r) !! S (S index)) with (r !! index) in Hx.
          change (S (S index)) with (1 * 2 + index)%nat at 1.
          rewrite Nat.add_comm, Nat.div_add by lia.
          rewrite Nat.add_comm. simpl createLayer.
          change ((combine a b :: createLayer r) !! (1 + index / 2)%nat)
            with (createLayer r !! (index / 2)%nat).
          assert (Hr : (length r <= n)%nat) by (simpl in Hl; lia).
          rewrite (IH r Hr index x Hx).
          f_equal. unfold MerkleSpec.parent, MerkleSpec.pairIndex.
          rewrite Nat.odd_succ_succ.
          destruct (Nat.odd index) eqn:Eo.
          -- destruct index as [|index]; [discriminate|].
             simpl. now rewrite Nat.sub_0_r.
          -- reflexivity. }
  intros index x. apply (H (length nodes)). lia.
Qed.

Lemma proofFrom_step (nodes : list Z) rest index x :
  nodes !! index = Some x ->
  fold_left verifyStep (MerkleTree.proofFrom index (nodes :: rest)) x
  = fold_left verifyStep (MerkleTree.proofFrom (index / 2) rest)
      (parent nodes index x).
Proof.
  intros Hx. unfold MerkleSpec.parent, MerkleSpec.pairIndex. simpl.
  destruct (nodes !! (if Nat.odd index then (index - 1)%nat
                      else (index + 1)%nat)); reflexivity.
Qed.

(** Climbing from a node of the lowest layer along its proof ends at
    the single node of the highest layer. *)
Lemma climb_reaches_root (fuel : nat) :
  forall (nodes : list Z) index x,
    (length nodes <= S fuel)%nat ->
    nodes !! index = Some x ->
    fold_left verifyStep
      (MerkleTree.proofFrom index (nodes :: createHashes fuel nodes)) x
    = rootOf (nodes :: createHashes fuel nodes).
Proof.
  induction fuel as [|fuel IH]; intros nodes index x Hlen Hx.
  - destruct nodes as [|a [|b r]]; [discriminate| |simpl in Hlen; lia].
    destruct index; [|discriminate]. inversion Hx; subst. reflexivity.
  - simpl createHashes.
    destruct (1 <? length nodes)%nat eqn:E.
    + apply Nat.ltb_lt in E.
      rewrite proofFrom_step by exact Hx.
      destruct (createLayer_length nodes) as [_ Hshrink].
      rewrite (IH (createLayer nodes) (index / 2)%nat (parent nodes index x)).
      * unfold MerkleSpec.rootOf. now rewrite last_cons_cons.
      * specialize (Hshrink E). lia.
      * now apply createLayer_parent.
    + apply Nat.ltb_ge in E.
      destruct nodes as [|a [|b r]]; [discriminate| |simpl in E; lia].
      destruct index; [|discriminate]. inversion Hx; subst. reflexivity.
Qed.

Lemma indexOf_lookup leaf (leaves : list Z) :
  leaf ∈ leaves ->
  exists index, MerkleTree.indexOf leaf leaves = Some index
                /\ leaves !! index = Some leaf.
Proof.
  induction leaves as [|a leaves IH]; intros Hin.
  - apply elem_of_nil in Hin. contradiction.
  - simpl. destruct (a =? leaf) eqn:E.
    + apply Z.eqb_eq in E. subst. exists 0%nat. split; reflexivity.
    + apply elem_of_cons in Hin as [->|Hin];
        [rewrite Z.eqb_refl in E; discriminate|].
      destruct (IH Hin) as (index & Hi & Hl).
      exists (S index). rewrite Hi. split; [reflexivity|exact Hl].
  Qed.

(** The proof the tree gives for one of its leaves verifies against
    the root of the tree. *)
Lemma getProof_verifies (leaves : list Z) leaf :
  leaf ∈ leaves ->
  MerkleTree.verify hashFn (MerkleTree.getProof hashFn leaves leaf) leaf
    (MerkleTree.getRoot hashFn leaves) = true.
Proof.
  intros Hin. destruct (indexOf_lookup leaf leaves Hin) as (index & Hi & Hl).
  unfold MerkleTree.verify, MerkleTree.getProof, MerkleTree.getRoot,
    MerkleTree.layers.
  rewrite Hi.
  rewrite (climb_reaches_root (length leaves) leaves index leaf) by (lia || exact Hl).
  apply Z.eqb_refl.
Qed.

End MerkleTreeProperties.


(** ** Proof query *)
Section ProofQueryProperties.
Import NftModels SnapshotSpec ProofSpec.

Lemma insertIndex_not_nil e l : Js.insertIndex e l <> [].
Proof. destruct l as [|x r]; simpl; [discriminate|]. now destruct (_ <=? _)%N. Qed.

Lemma entries_not_nil (o : Js.object) : o <> [] -> Js.entries o <> [].
Proof.
  destruct o as [|kv r]; [contradiction|]. intros _.
  unfold Js.entries. simpl.
  destruct (Js.arrayIndex (fst kv)) as [n|].
  - simpl. intros H. apply app_eq_nil in H as [H _].
    apply map_eq_nil in H. now apply insertIndex_not_nil in H.
  - intros H. apply app_eq_nil in H as [_ H]. discriminate.
Qed.

Lemma match_leaves {R} (ls : list Z) (X : option R) :
  ls <> [] -> match ls with [] => None | _ :: _ => X end = X.
Proof. destruct ls; [contradiction|reflexivity]. Qed.

Lemma match_leaves_none {R} (ls : list Z) :
  match ls with [] => None | _ :: _ => @None R end = None.
Proof. now destruct ls. Qed.

Lemma get_Some_not_nil k (o : Js.object) v : Js.get k o = Some v -> o <> [].
Proof. destruct o; [discriminate|discriminate]. Qed.

(** The owners a snapshot holds are non-empty and in lower case. *)
Lemma snapshot_value tid (l : list NftTransfer) a :
  Js.get tid (fold_left ownershipStep l []) = Some a ->
  Js.truthy a = true /\ Js.toLowerCase a = a.
Proof.
  rewrite ownership_get.
  destruct (last (List.filter (recordsFor tid) l)) as [t|] eqn:E;
    [|discriminate].
  intros [= <-]. apply last_elem in E.
  apply list_elem_of_In, filter_In in E as [_ E].
  unfold recordsFor in E. apply andb_true_iff in E as [E _].
  apply andb_true_iff in E as [_ E].
  split; [now rewrite truthy_toLowerCase|apply toLowerCase_idem].
Qed.

Lemma transfersUpTo_elem store latest t :
  t ∈ MerkleService.transfersUpTo store latest
  <-> t ∈ store /\ blockNumber t <= blockNumber latest.
Proof.
  unfold MerkleService.transfersUpTo.
  rewrite (sortByBlock_perm _), list_elem_of_In, filter_In,
    <- list_elem_of_In.
  apply and_iff_compat_l. lia.
Qed.

Lemma get_elem k (o : Js.object) v : Js.get k o = Some v -> (k, v) ∈ o.
Proof.
  induction o as [|[k' v'] o IH]; simpl; [discriminate|].
  destruct (String.eqb k' k) eqn:E.
  - apply String.eqb_eq in E. intros [= ->]. subst. apply list_elem_of_here.
  - intros H. apply list_elem_of_further. now apply IH.
Qed.

Lemma insertIndex_perm e l : Permutation (Js.insertIndex e l) (e :: l).
Proof.
  induction l as [|x l IH]; simpl; [reflexivity|].
  destruct (fst e <=? fst x)%N; [reflexivity|].
  rewrite IH. apply perm_swap.
Qed.

Lemma sortIndex_perm l : Permutation (fold_right Js.insertIndex [] l) l.
Proof.
  induction l as [|x l IH]; simpl; [reflexivity|].
  rewrite insertIndex_perm. now rewrite IH.
Qed.

(** [Object.entries] lists every own property. *)
Lemma entries_elem (o : Js.object) kv : kv ∈ o -> kv ∈ Js.entries o.
Proof.
  intros Hin. unfold Js.entries. apply elem_of_app.
  destruct (Js.arrayIndex (fst kv)) as [n|] eqn:E.
  - left. change (map snd ?l) with (snd <$> l).
    apply list_elem_of_fmap. exists (n, kv). split; [reflexivity|].
    rewrite sortIndex_perm. apply list_elem_of_omap.
    exists kv. split; [exact Hin|]. now rewrite E.
  - right. apply list_elem_of_In, filter_In.
    split; [now apply list_elem_of_In|]. now rewrite E.
Qed.

(** The leaf of an owner the snapshot holds is a leaf of the tree. *)
Lemma snapshot_leaf (leafHash : string -> string -> Z) tid
    (l : list NftTransfer) a :
  Js.get tid (fold_left ownershipStep l []) = Some a ->
  leafHash a tid
  ∈ MerkleService.createLeavesFromOwnership leafHash
      (fold_left ownershipStep l []).
Proof.
  intros Hg. unfold MerkleService.createLeavesFromOwnership.
  change (map ?f ?l) with (f <$> l). apply list_elem_of_fmap.
  exists (tid, a). simpl.
  destruct (snapshot_value tid l a Hg) as [_ ->].
  split; [reflexivity|]. now apply entries_elem, get_elem.
Qed.

Lemma latestTransfer_spec store :
  match MerkleService.latestTransfer store with
  | Some latest =>
      latest ∈ store /\ rooted latest = true
      /\ forall t, t ∈ store -> rooted t = true ->
                   blockNumber t <= blockNumber latest
  | None => forall t, t ∈ store -> rooted t = false
  end.
Proof. exact (scan_latest rooted blockNumber store). Qed.

End ProofQueryProperties.

(** C5: [getMerkleProof(owner, tokenId)] looks for the transfer of
    greatest block number among those included with a root, and returns
    null when there is none.  Otherwise it rebuilds the snapshot and the
    tree from the transfers whose block number is at most that of this
    transfer, and returns the proof of the owner's leaf, the root of the
    rebuilt tree and [verified = true] exactly when the snapshot maps the
    token to the owner (in lower case) and the proof verifies against
    the rebuilt root; in every other case it returns null.  The proof of
    an owner the snapshot holds always verifies, the tree being built
    from the leaves of that snapshot. *)
Theorem C5_proof_returned_iff_owner_in_snapshot_and_verified
    (hashFn : Z -> Z -> Z) (leafHash : string -> string -> Z)
    (store : list NftModels.NftTransfer) (owner tokenId : string) :
  let result :=
    MerkleService.getMerkleProof hashFn leafHash store owner tokenId in
  match MerkleService.latestTransfer store with
  | None =>
      (forall t, t ∈ store -> ProofSpec.rooted t = false) /\ result = None
  | Some latest =>
      let upTo := MerkleService.transfersUpTo store latest in
      let snapshot := MerkleService.getCurrentOwnershipFromTransfers upTo in
      let leaves := MerkleService.createLeavesFromOwnership leafHash snapshot in
      let leaf := leafHash (Js.toLowerCase owner) tokenId in
      let proof := MerkleTree.getProof hashFn leaves leaf in
      let root := MerkleTree.getRoot hashFn leaves in
      (latest ∈ store /\ ProofSpec.rooted latest = true
       /\ forall t, t ∈ store -> ProofSpec.rooted t = true ->
                    NftModels.blockNumber t <= NftModels.blockNumber latest)
      /\ (forall t, t ∈ upTo
                    <-> t ∈ store
                        /\ NftModels.blockNumber t
                           <= NftModels.blockNumber latest)
      /\ Js.get tokenId snapshot
         = SnapshotSpec.latestOwner
             (List.filter (fun t => NftModels.blockNumber t
                                    <=? NftModels.blockNumber latest) store)
             tokenId
      /\ (forall r,
            result = Some r
            <-> Js.get tokenId snapshot = Some (Js.toLowerCase owner)
                /\ MerkleTree.verify hashFn proof leaf root = true
                /\ r = MerkleService.mkProofResult proof root true)
      /\ (result = None
          <-> Js.get tokenId snapshot <> Some (Js.toLowerCase owner)
              \/ MerkleTree.verify hashFn proof leaf root = false)
      /\ (Js.get tokenId snapshot = Some (Js.toLowerCase owner) ->
          MerkleTree.verify hashFn proof leaf root = true)
  end.
Proof.
  intros result.
  pose proof (latestTransfer_spec store) as Hlatest.
  subst result. unfold MerkleService.getMerkleProof.
  destruct (MerkleService.latestTransfer store) as [latest|];
    [|split; [exact Hlatest|reflexivity]].
  set (upTo := MerkleService.transfersUpTo store latest).
  set (snapshot := MerkleService.getCurrentOwnershipFromTransfers upTo).
  set (leaves := MerkleService.createLeavesFromOwnership leafHash snapshot).
  set (leaf := leafHash (Js.toLowerCase owner) tokenId).
  set (proof := MerkleTree.getProof hashFn leaves leaf).
  set (root := MerkleTree.getRoot hashFn leaves).
  split; [exact Hlatest|].
  split; [intros t; apply transfersUpTo_elem|].
  split.
  { subst snapshot upTo. unfold MerkleService.transfersUpTo.
    apply (snapshot_latestOwner
             (List.filter (fun t => NftModels.blockNumber t
                                    <=? NftModels.blockNumber latest) store)). }
  assert (Hver : Js.get tokenId snapshot = Some (Js.toLowerCase owner) ->
                 MerkleTree.verify hashFn proof leaf root = true).
  { intros Hg. apply getProof_verifies.
    apply (snapshot_leaf leafHash tokenId upTo _ Hg). }
  match goal with
  | |- ?A /\ ?B /\ _ =>
      assert (HAB : A /\ B);
        [clear Hver
        |destruct HAB; split; [assumption|split; [assumption|exact Hver]]]
  end.
  destruct (Js.get tokenId snapshot) as [a|] eqn:Eg.
  - assert (Hleaves : leaves <> []).
    { subst leaves. unfold MerkleService.createLeavesFromOwnership.
      intros H. apply map_eq_nil in H.
      apply (entries_not_nil snapshot); [|exact H].
      now apply (get_Some_not_nil tokenId snapshot a). }
    destruct (snapshot_value tokenId upTo a Eg) as [Htr Hlow].
    rewrite (match_leaves leaves _ Hleaves).
    rewrite Htr, Hlow. simpl negb. rewrite orb_false_l.
    destruct (String.eqb a (Js.toLowerCase owner)) eqn:Ea; simpl negb.
    + apply String.eqb_eq in Ea. subst a.
      destruct (MerkleTree.verify hashFn proof leaf root) eqn:Ev.
      * split.
        -- intros r. split.
           ++ intros [= <-]. auto.
           ++ intros (_ & _ & ->). reflexivity.
        -- split; [discriminate|]. intros [H|H]; [contradiction|discriminate].
      * split.
        -- intros r. split; [discriminate|]. intros (_ & H & _). discriminate.
        -- split; auto.
    + assert (Hne : Some a <> Some (Js.toLowerCase owner)).
      { intros [= ->]. rewrite String.eqb_refl in Ea. discriminate. }
      split.
      * intros r. split; [discriminate|]. intros (H & _). contradiction.
      * split; auto.
  - rewrite match_leaves_none. split.
    + intros r. split; [discriminate|]. intros (H & _). discriminate.
    + split; [left; discriminate|reflexivity].
Qed.

(** ** Transfer store: one row per transaction hash *)
Section TransferStoreProperties.
Import NftModels TransferSpec.
Variable hashFn : Z -> Z -> Z.
Variable leafHash : string -> string -> Z.
Variable getAddress : string -> option string.
Variable toBigInt : string -> option string.

Local Abbreviation processTransferEvent :=
  (NftTransferService.processTransferEvent hashFn leafHash getAddress toBigInt).
Local Abbreviation processLogs :=
  (NftTransferService.processLogs hashFn leafHash getAddress toBigInt).
Local Abbreviation generateMerkleTree :=
  (NftTransferService.generateMerkleTree hashFn leafHash).

Lemma generateMerkleTree_hashes store :
  hashes (snd (generateMerkleTree store)) = hashes store.
Proof.
  unfold NftTransferService.generateMerkleTree.
  destruct (sortByBlock store); [reflexivity|].
  destruct (sortByBlock (List.filter _ store)); [reflexivity|].
  destruct (NftTransferService.createLeavesFromOwnership _ _);
    [reflexivity|].
  simpl. unfold NftTransferService.updateTransfersWithMerkleRoot, hashes.
  rewrite map_map. apply map_ext. intros t.
  now destruct (includedInMerkle t).
Qed.

Lemma existsb_hash store h :
  existsb (fun t => String.eqb (transactionHash t) h) store = true
  <-> h ∈ hashes store.
Proof.
  rewrite existsb_exists. unfold hashes.
  change (map transactionHash store) with (transactionHash <$> store).
  rewrite list_elem_of_fmap. split.
  - intros (t & Ht & He). apply String.eqb_eq in He.
    exists t. split; [now symmetry|now apply list_elem_of_In].
  - intros (t & -> & Ht). exists t.
    split; [now apply list_elem_of_In|apply String.eqb_refl].
Qed.

(** What one Transfer log does to the store. *)
Lemma processTransferEvent_cases autoGen now store log transaction chain :
  let out := processTransferEvent autoGen now store log transaction chain in
  fst out = store
  \/ (exists from_ to_ tid,
        (tx_hash transaction ∉ hashes store)
        /\ snd out = false
        /\ fst out
           = (if autoGen
              then snd (generateMerkleTree
                          (store ++ [rowOf now transaction chain log
                                       from_ to_ tid]))
              else store ++ [rowOf now transaction chain log from_ to_ tid])).
Proof.
  unfold NftTransferService.processTransferEvent.
  destruct (topics log) as [|t0 [|t1 [|t2 [|t3 [|t4 r]]]]];
    try (left; reflexivity).
  destruct (getAddress _) as [from_|]; [|left; reflexivity].
  destruct (getAddress _) as [to_|]; [|left; reflexivity].
  destruct (toBigInt t3) as [tid|]; [|left; reflexivity].
  destruct (existsb _ store) eqn:Ex; [left; reflexivity|].
  right. exists from_, to_, tid. split.
  { intros Hin. apply existsb_hash in Hin. congruence. }
  destruct autoGen; split; reflexivity.
Qed.

Lemma hashes_after_row (autoGen : bool) now store log transaction chain
    from_ to_ tid :
  hashes (if autoGen
          then snd (generateMerkleTree
                      (store ++ [rowOf now transaction chain log
                                   from_ to_ tid]))
          else store ++ [rowOf now transaction chain log from_ to_ tid])
  = hashes store ++ [tx_hash transaction].
Proof.
  destruct autoGen; [rewrite generateMerkleTree_hashes|];
    unfold hashes; now rewrite map_app.
Qed.

Lemma processTransferEvent_present autoGen now store log transaction chain :
  tx_hash transaction ∈ hashes store ->
  fst (processTransferEvent autoGen now store log transaction chain) = store.
Proof.
  intros Hin.
  destruct (processTransferEvent_cases autoGen now store log transaction chain)
    as [H|(f & t & i & Hnin & _)]; [exact H|contradiction].
Qed.

Lemma processLogs_present autoGen now transaction chain nft logs :
  forall store,
    tx_hash transaction ∈ hashes store ->
    fst (processLogs autoGen now store logs transaction chain nft) = store.
Proof.
  induction logs as [|log logs IH]; intros store Hin; simpl; [reflexivity|].
  destruct (negb (String.eqb _ _)); [now apply IH|].
  destruct (negb (bool_decide _)); [now apply IH|].
  pose proof (processTransferEvent_present autoGen now store log transaction
                chain Hin) as Hst.
  destruct (processTransferEvent autoGen now store log transaction chain)
    as [store1 [|]]; simpl in Hst; subst store1; [reflexivity|].
  now apply IH.
Qed.

Lemma processLogs_nodup autoGen now transaction chain nft logs :
  forall store,
    NoDup (hashes store) ->
    NoDup (hashes (fst (processLogs autoGen now store logs transaction chain
                          nft))).
Proof.
  induction logs as [|log logs IH]; intros store Hnd; simpl; [exact Hnd|].
  destruct (negb (String.eqb _ _)); [now apply IH|].
  destruct (negb (bool_decide _)); [now apply IH|].
  assert (Hnd1 : NoDup (hashes (fst (processTransferEvent autoGen now store log
                                       transaction chain)))).
  { destruct (processTransferEvent_cases autoGen now store log transaction
                chain) as [->|(f & t & i & Hnin & _ & ->)]; [exact Hnd|].
    rewrite hashes_after_row. apply NoDup_app. split; [exact Hnd|].
    split.
    - intros x Hx Hx'. apply elem_of_cons in Hx' as [->|Hx'];
        [contradiction|]. apply elem_of_nil in Hx'. contradiction.
    - apply NoDup_cons. split; [apply not_elem_of_nil|].
      apply NoDup_nil. exact I. }
  destruct (processTransferEvent autoGen now store log transaction chain)
    as [store1 [|]]; simpl in Hnd1; [exact Hnd1|].
  now apply IH.
Qed.

(** Logs before the first Transfer log of the NFT contract leave the
    store as it is and do not throw. *)
Lemma processLogs_skip autoGen now transaction chain nft pre rest :
  forall store,
    Forall (fun l => isNftTransferLog nft l = false) pre ->
    processLogs autoGen now store (pre ++ rest) transaction chain nft
    = processLogs autoGen now store rest transaction chain nft.
Proof.
  induction pre as [|log pre IH]; intros store Hall; [reflexivity|].
  inversion Hall as [|? ? Hlog Hpre]; subst. simpl.
  destruct (String.eqb (Js.toLowerCase (address log)) (Js.toLowerCase nft))
    eqn:Ea; simpl; [|now apply IH].
  destruct (bool_decide (head (topics log) = Some TRANSFER_EVENT_TOPIC))
    eqn:Et; simpl; [|now apply IH].
  unfold isNftTransferLog in Hlog. rewrite Ea, Et in Hlog. simpl in Hlog.
  assert (Hout : processTransferEvent autoGen now store log transaction chain
                 = (store, false)).
  { unfold NftTransferService.processTransferEvent.
    destruct (topics log) as [|t0 [|t1 [|t2 [|t3 [|t4 r]]]]];
      try reflexivity. discriminate Hlog. }
  rewrite Hout. now apply IH.
Qed.

End TransferStoreProperties.

(** C10: the store is searched by transaction hash alone before a
    transfer is saved, so after any sequence of messages it holds no two
    rows of one transaction hash.  When the logs of a transaction not yet in the store hold
    several Transfer logs of the NFT contract, the first of them is the
    one recorded (after which the Merkle root may be regenerated), and
    whatever Transfer logs follow it in the transaction add no row. *)
Theorem C10_one_row_per_transaction_hash
    (hashFn : Z -> Z -> Z) (leafHash : string -> string -> Z)
    (getAddress toBigInt : string -> option string)
    (chains : list NftModels.Chain) (autoGen : bool) (now : Z)
    (store : list NftModels.NftTransfer)
    (transaction : NftModels.Transaction) :
  NoDup (TransferSpec.hashes store) ->
  let store' :=
    fst (NftTransferService.processTransaction hashFn leafHash getAddress
           toBigInt chains autoGen now store transaction) in
  (forall messages,
     NoDup (TransferSpec.hashes
              (TransferSpec.processAll hashFn leafHash getAddress toBigInt
                 chains autoGen messages store)))
  /\ NoDup (TransferSpec.hashes store')
  /\ (NftModels.tx_hash transaction ∈ TransferSpec.hashes store ->
      store' = store)
  /\ forall chain nft pre log post t0 t1 t2 t3 from_ to_ tid,
       List.find (fun c => NftModels.c_chainId c
                           =? NftModels.tx_chainId transaction) chains
       = Some chain ->
       NftModels.nftContractAddress chain = Some nft ->
       NftModels.tx_logs transaction = pre ++ log :: post ->
       Forall (fun l => TransferSpec.isNftTransferLog nft l = false) pre ->
       TransferSpec.isNftTransferLog nft log = true ->
       NftModels.topics log = [t0; t1; t2; t3] ->
       getAddress ("0x" +:+ Js.slice 26 t1) = Some from_ ->
       getAddress ("0x" +:+ Js.slice 26 t2) = Some to_ ->
       toBigInt t3 = Some tid ->
       NftModels.tx_hash transaction ∉ TransferSpec.hashes store ->
       store'
       = (if autoGen
          then snd (NftTransferService.generateMerkleTree hashFn leafHash
                      (store ++ [TransferSpec.rowOf now transaction chain log
                                   from_ to_ tid]))
          else store ++ [TransferSpec.rowOf now transaction chain log
                           from_ to_ tid])
       /\ TransferSpec.hashes store'
          = TransferSpec.hashes store ++ [NftModels.tx_hash transaction].
Proof.
  intros Hnd store'. subst store'.
  assert (Hone : forall st t tx,
            NoDup (TransferSpec.hashes st) ->
            NoDup (TransferSpec.hashes
                     (fst (NftTransferService.processTransaction hashFn
                             leafHash getAddress toBigInt chains autoGen t st
                             tx)))).
  { intros st t tx Hst. unfold NftTransferService.processTransaction.
    destruct (List.find _ chains) as [chain|]; [|exact Hst].
    destruct (NftModels.nftContractAddress chain) as [nft|]; [|exact Hst].
    now apply processLogs_nodup. }
  split; [|split; [now apply Hone|]].
  { intros messages. unfold TransferSpec.processAll.
    revert store Hnd. induction messages as [|m ms IH]; intros st Hst;
      simpl; [exact Hst|].
    apply IH. now apply Hone. }
  unfold NftTransferService.processTransaction.
  split.
  - intros Hin.
    destruct (List.find _ chains) as [chain|]; [|reflexivity].
    destruct (NftModels.nftContractAddress chain) as [nft|]; [|reflexivity].
    now apply processLogs_present.
  - intros chain nft pre log post t0 t1 t2 t3 from_ to_ tid
      Hchain Hnft Hlogs Hpre Hlog Htopics Hfrom Hto Htid Hnin.
    rewrite Hchain, Hnft, Hlogs.
    rewrite processLogs_skip by exact Hpre.
    assert (Hrow :
      NftTransferService.processTransferEvent hashFn leafHash getAddress
        toBigInt autoGen now store log transaction chain
      = ((if autoGen
          then snd (NftTransferService.generateMerkleTree hashFn leafHash
                      (store ++ [TransferSpec.rowOf now transaction chain log
                                   from_ to_ tid]))
          else store ++ [TransferSpec.rowOf now transaction chain log
                           from_ to_ tid]), false)).
    { unfold NftTransferService.processTransferEvent.
      rewrite Htopics, Hfrom, Hto, Htid.
      destruct (existsb _ store) eqn:Ex.
      - apply existsb_hash in Ex. contradiction.
      - now destruct autoGen. }
    unfold TransferSpec.isNftTransferLog in Hlog.
    apply andb_true_iff in Hlog as [Hlog _].
    apply andb_true_iff in Hlog as [Ha Ht].
    simpl. rewrite Ha, Ht. simpl. rewrite Hrow.
    rewrite processLogs_present.
    + split; [reflexivity|]. apply hashes_after_row.
    + rewrite hashes_after_row. apply elem_of_app. right.
      apply list_elem_of_here.
Qed.

(** A transaction that mints token 1 and then token 2: one row, for
    token 1. *)
Lemma C10_witness :
  map NftModels.tokenId
    (fst (NftTransferService.processTransaction RelayerSpec.toyHash
            RelayerSpec.toyLeaf TransferSpec.toyAddress TransferSpec.toyBigInt
            [TransferSpec.berachain] false 0 [] TransferSpec.doubleMint))
  = ["1"].
Proof.
  destruct (C10_one_row_per_transaction_hash RelayerSpec.toyHash
              RelayerSpec.toyLeaf TransferSpec.toyAddress
              TransferSpec.toyBigInt [TransferSpec.berachain] false 0 []
              TransferSpec.doubleMint) as (_ & _ & _ & Hfirst).
  - apply NoDup_nil. exact I.
  - destruct (Hfirst TransferSpec.berachain TransferSpec.nftAddress []
                (TransferSpec.mintLog "1") [TransferSpec.mintLog "2"]
                NftModels.TRANSFER_EVENT_TOPIC
                (TransferSpec.addressTopic TransferSpec.zeroAccount)
                (TransferSpec.addressTopic TransferSpec.accountAA) "1"
                ("0x" +:+ TransferSpec.zeroAccount)
                ("0x" +:+ TransferSpec.accountAA) "1") as [Hstore _].
    + reflexivity.
    + reflexivity.
    + reflexivity.
    + apply Forall_nil. exact I.
    + reflexivity.
    + reflexivity.
    + reflexivity.
    + reflexivity.
    + reflexivity.
    + apply not_elem_of_nil.
    + rewrite Hstore. reflexivity.
Defined.


(** ** The services on sample inputs *)

(** The hash of the bloom filter with seed 0 is the 31-multiplier string
    hash. *)
Example bloom_hash_abc : EventsService.hash "abc" 0 = 96354.
Proof. reflexivity. Qed.

(** [Object.entries] puts array-index names first, in ascending order. *)
Example entries_order :
  Js.entries [("0xb", "x"); ("10", "y"); ("9", "z")]
  = [("9", "z"); ("10", "y"); ("0xb", "x")].
Proof. reflexivity. Qed.

(** Mint, then proof: after the mint of token 1 to the account AA is
    processed, the transfer carries the root of the one-leaf tree, the
    proof query of AA returns that root, and the proof query of BB
    returns null. *)
Example mint_then_proof :
  exists root,
    map NftModels.merkleRoot Samples.storeAfterMint = [Some root]
    /\ MerkleService.getMerkleProof RelayerSpec.toyHash RelayerSpec.toyLeaf
         Samples.storeAfterMint ("0x" +:+ TransferSpec.accountAA) "1"
       = Some (MerkleService.mkProofResult [] root true)
    /\ MerkleService.getMerkleProof RelayerSpec.toyHash RelayerSpec.toyLeaf
         Samples.storeAfterMint ("0x" +:+ TransferSpec.accountBB) "1"
       = None.
Proof. eexists. vm_compute. repeat split; reflexivity. Qed.

(** [formatDecimal] rounds to 8 decimals, and a sum before it is
    rounded is a double. *)
Example formatDecimal_rounds :
  Decimal.formatDecimal (Num.ofDecimal 1 18) = Num.zero
  /\ Decimal.formatDecimal (Num.ofDecimal 123456784 9)
     = Num.ofDecimal 12345678 8
  /\ Num.add (Num.ofDecimal 1 1) (Num.ofDecimal 2 1)
     = Num.ofDecimal 30000000000000004 17
  /\ Decimal.safeAdd (Num.ofDecimal 1 1) (Num.ofDecimal 2 1)
     = Num.ofDecimal 3 1.
Proof. vm_compute. repeat split; reflexivity. Qed.

(** The balance of [validateWithdrawal] is a double: with 0.3 USD
    deposited and 0.1 USD pending it is [0.19999999999999998], and a
    request of 0.2 USD is rejected. *)
Example validated_balance_is_a_double :
  VaultEventService.availableBalance LedgerRun.db_cents LedgerRun.frank
  = Num.ofDecimal 19999999999999998 17
  /\ VaultEventService.validateWithdrawal LedgerRun.db_cents LedgerRun.frank
       LedgerRun.request_cents
     = false.
Proof. vm_compute. split; reflexivity. Qed.

(* ================================================================== *)
(** * Part III: further properties of the services                      *)
(* ================================================================== *)

(** ** Ledger: deposits and requests *)
Section LedgerExtras.
Import Num Decimal Models VaultEventService VaultEventPipeline.

Lemma handleDeposit_tables column db ev user chainName :
  let db' := handleDeposit column db ev user chainName in
  deposits db'
  = deposits db
      ++ [mkDeposit (u_id user) (ve_chainId ev) chainName (ve_amount ev)
            (ve_asset ev) (ve_transactionHash ev) (ve_blockNumber ev)
            (column (ve_usdValue ev))]
  /\ withdrawals db' = withdrawals db
  /\ borrows db' = borrows db
  /\ vaultEvents db' = vaultEvents db.
Proof. unfold handleDeposit. simpl. repeat split. Qed.

Lemma handleDeposit_deposits column db ev user chainName q :
  calculateTotalDeposits (handleDeposit column db ev user chainName) q
  = if decide (u_id user = u_id q)
    then add (calculateTotalDeposits db q) (column (ve_usdValue ev))
    else calculateTotalDeposits db q.
Proof.
  destruct (handleDeposit_tables column db ev user chainName) as (Hd & _).
  unfold calculateTotalDeposits. rewrite Hd, sumOf_filter_snoc. reflexivity.
Qed.

Lemma handleWithdrawRequest_tables column db ev user chainName wid :
  let db' := handleWithdrawRequest column db ev user chainName wid in
  deposits db' = deposits db
  /\ borrows db' = borrows db
  /\ vaultEvents db' = vaultEvents db
  /\ withdrawals db'
     = withdrawals db
         ++ [mkWithdrawal wid (u_id user) (ve_chainId ev) chainName
               (ve_amount ev) (ve_asset ev) (ve_transactionHash ev)
               (ve_blockNumber ev) (column (ve_usdValue ev))
               (if validateWithdrawal db user ev then pending else rejected)
               (walletAddress user) (ve_requestId ev)].
Proof.
  unfold handleWithdrawRequest.
  destruct (validateWithdrawal db user ev); simpl; repeat split.
Qed.

Lemma handleWithdrawRequest_pending column db ev user chainName wid q :
  calculatePendingWithdrawals
    (handleWithdrawRequest column db ev user chainName wid) q
  = if decide (u_id user = u_id q)
    then if validateWithdrawal db user ev
         then add (calculatePendingWithdrawals db q) (column (ve_usdValue ev))
         else calculatePendingWithdrawals db q
    else calculatePendingWithdrawals db q.
Proof.
  destruct (handleWithdrawRequest_tables column db ev user chainName wid)
    as (_ & _ & _ & Hw).
  unfold calculatePendingWithdrawals. rewrite Hw, sumOf_filter_snoc.
  cbn [w_user w_status].
  destruct (validateWithdrawal db user ev);
    destruct (decide (u_id user = u_id q));
    destruct (decide _) as [[Hu Hp]|Hn];
    try reflexivity; try congruence; try discriminate Hp.
  exfalso. apply Hn. split; [assumption|reflexivity].
Qed.

Lemma handleWithdraw_tables db ev user :
  let db' := handleWithdraw db ev user in
  deposits db' = deposits db /\ borrows db' = borrows db
  /\ vaultEvents db' = vaultEvents db.
Proof.
  unfold handleWithdraw.
  destruct (findByRequestId db ev); [simpl; repeat split|].
  destruct (findByAssetAmount db ev user); simpl; repeat split.
Qed.

End LedgerExtras.

(** X1: a deposit handled by [handleDeposit] appends one deposit row,
    holding what the column gives back for the USD number of the event.
    The deposits [validateWithdrawal] sums for the depositor become the
    former sum plus that value, the sums of the borrows and of the
    pending withdrawals stay, and the balance it computes for every
    other user is as it was.  The row of the depositor gets
    [formatDecimal(safeAdd(balance, usdValue))] as total and as floating
    balance and keeps its borrowed amount. *)
Theorem X1_deposit_credits_the_depositor_only
    (column : Num.number -> Num.number) (db : Models.Db)
    (ev : Models.VaultEvent) (user : Models.User) (chainName : string) :
  let db' := VaultEventPipeline.handleDeposit column db ev user chainName in
  VaultEventService.availableBalance db' user
  = Num.sub
      (Num.sub
         (Num.add (VaultEventService.calculateTotalDeposits db user)
                  (column (Models.ve_usdValue ev)))
         (VaultEventService.calculateTotalBorrows db user))
      (VaultEventService.calculatePendingWithdrawals db user)
  /\ (forall q,
        Models.u_id q <> Models.u_id user ->
        VaultEventService.availableBalance db' q
        = VaultEventService.availableBalance db q)
  /\ length (Models.deposits db') = S (length (Models.deposits db))
  /\ exists user',
       Models.users db' = Models.saveUser user' (Models.users db)
       /\ Models.u_id user' = Models.u_id user
       /\ Models.totalUsdBalance user'
          = Decimal.formatDecimal
              (Decimal.safeAdd (Models.totalUsdBalance user)
                 (Models.ve_usdValue ev))
       /\ Models.floatingUsdBalance user'
          = Decimal.formatDecimal
              (Decimal.safeAdd (Models.floatingUsdBalance user)
                 (Models.ve_usdValue ev))
       /\ Models.borrowedUsdAmount user' = Models.borrowedUsdAmount user.
Proof.
  intros db'.
  destruct (handleDeposit_tables column db ev user chainName)
    as (Hd & Hw & Hb & _). fold db' in Hd, Hw, Hb.
  assert (Hav : forall q,
    VaultEventService.availableBalance db' q
    = Num.sub
        (Num.sub (VaultEventService.calculateTotalDeposits db' q)
                 (VaultEventService.calculateTotalBorrows db q))
        (VaultEventService.calculatePendingWithdrawals db q)).
  { intros q. unfold VaultEventService.availableBalance,
      VaultEventService.calculateTotalBorrows,
      VaultEventService.calculatePendingWithdrawals.
    now rewrite Hw, Hb. }
  split; [|split; [|split]].
  - rewrite Hav. subst db'. rewrite handleDeposit_deposits.
    destruct (decide _) as [_|Hn]; [reflexivity|congruence].
  - intros q Hq. rewrite Hav. subst db'. rewrite handleDeposit_deposits.
    destruct (decide _) as [He|_]; [congruence|reflexivity].
  - rewrite Hd, length_app. simpl. lia.
  - eexists. split; [reflexivity|]. simpl. repeat split.
Qed.

(** X2: a withdraw request appends one withdrawal row, holding what
    the column gives back for the USD number of the event.  When
    [validateWithdrawal] accepts it, the pending withdrawals it sums
    for the requester become the former sum plus that value and the
    floating balance of the requester becomes
    [formatDecimal(safeSubtract(floating, usdValue))]; when it rejects
    it, no user changes and the balance it computes is as it was for
    every user.  In both cases the balance of every other user is as it
    was. *)
Theorem X2_withdraw_request_reserves_for_the_requester_only
    (column : Num.number -> Num.number) (db : Models.Db)
    (ev : Models.VaultEvent) (user : Models.User) (chainName wid : string) :
  let db' :=
    VaultEventService.handleWithdrawRequest column db ev user chainName wid in
  let accepted := VaultEventService.validateWithdrawal db user ev in
  length (Models.withdrawals db') = S (length (Models.withdrawals db))
  /\ VaultEventService.availableBalance db' user
     = Num.sub
         (Num.sub (VaultEventService.calculateTotalDeposits db user)
                  (VaultEventService.calculateTotalBorrows db user))
         (if accepted
          then Num.add (VaultEventService.calculatePendingWithdrawals db user)
                       (column (Models.ve_usdValue ev))
          else VaultEventService.calculatePendingWithdrawals db user)
  /\ (forall q, Models.u_id q <> Models.u_id user ->
                VaultEventService.availableBalance db' q
                = VaultEventService.availableBalance db q)
  /\ (accepted = false ->
      Models.users db' = Models.users db
      /\ forall q, VaultEventService.availableBalance db' q
                   = VaultEventService.availableBalance db q)
  /\ (accepted = true ->
      exists user',
        Models.users db' = Models.saveUser user' (Models.users db)
        /\ Models.u_id user' = Models.u_id user
        /\ Models.floatingUsdBalance user'
           = Decimal.formatDecimal
               (Decimal.safeSubtract (Models.floatingUsdBalance user)
                  (Models.ve_usdValue ev))
        /\ Models.totalUsdBalance user' = Models.totalUsdBalance user
        /\ Models.borrowedUsdAmount user' = Models.borrowedUsdAmount user).
Proof.
  intros db' accepted.
  destruct (handleWithdrawRequest_tables column db ev user chainName wid)
    as (Hd & Hb & _ & Hw). fold db' in Hd, Hb, Hw.
  assert (Hav : forall q,
    VaultEventService.availableBalance db' q
    = Num.sub
        (Num.sub (VaultEventService.calculateTotalDeposits db q)
                 (VaultEventService.calculateTotalBorrows db q))
        (VaultEventService.calculatePendingWithdrawals db' q)).
  { intros q. unfold VaultEventService.availableBalance,
      VaultEventService.calculateTotalDeposits,
      VaultEventService.calculateTotalBorrows.
    now rewrite Hd, Hb. }
  split; [rewrite Hw, length_app; simpl; lia|].
  split; [|split; [|split]].
  - rewrite Hav. subst db'. rewrite handleWithdrawRequest_pending.
    destruct (decide _) as [_|Hn]; [reflexivity|congruence].
  - intros q Hq. rewrite Hav. subst db'.
    rewrite handleWithdrawRequest_pending.
    destruct (decide _) as [He|_]; [congruence|reflexivity].
  - intros Hacc. split.
    + subst db'. unfold VaultEventService.handleWithdrawRequest.
      fold accepted. now rewrite Hacc.
    + intros q. rewrite Hav. subst db'.
      rewrite handleWithdrawRequest_pending. fold accepted. rewrite Hacc.
      now destruct (decide _).
  - intros Hacc. subst db'. unfold VaultEventService.handleWithdrawRequest.
    fold accepted. rewrite Hacc.
    eexists. split; [reflexivity|]. simpl. repeat split.
Qed.

(** ** Vault events: from the log to the tables *)
Section VaultPipelineProperties.
Import Num Decimal Models VaultEventService VaultEventPipeline.
Variable column : number -> number.
Variable parse : Log -> VaultEventType -> option ParsedLog.

Local Abbreviation byWallet w := (fun u : User => String.eqb (walletAddress u) w).

Lemma find_snoc {A} (f : A -> bool) (l : list A) (x : A) :
  List.find f (l ++ [x])
  = match List.find f l with
    | Some y => Some y
    | None => if f x then Some x else None
    end.
Proof.
  induction l as [|y r IH]; simpl; [reflexivity|].
  destruct (f y); [reflexivity|exact IH].
Qed.

Lemma find_saveUser w user us u :
  List.find (byWallet w) us = Some u ->
  u_id u = u_id user -> walletAddress user = w ->
  List.find (byWallet w) (saveUser user us) = Some user.
Proof.
  intros Hfind Hid Hw. unfold saveUser.
  induction us as [|x r IH]; simpl in *; [discriminate|].
  destruct (String.eqb (u_id x) (u_id user)) eqn:Ex.
  - now rewrite Hw, String.eqb_refl.
  - destruct (String.eqb (walletAddress x) w) eqn:Ew.
    + inversion Hfind; subst x. rewrite Hid, String.eqb_refl in Ex.
      discriminate.
    + now apply IH.
Qed.

Lemma getOrCreateUser_find db wallet uid :
  let r := getOrCreateUser db wallet uid in
  findUser (fst r) (Js.toLowerCase wallet) = Some (snd r)
  /\ walletAddress (snd r) = Js.toLowerCase wallet
  /\ deposits (fst r) = deposits db /\ withdrawals (fst r) = withdrawals db
  /\ borrows (fst r) = borrows db /\ vaultEvents (fst r) = vaultEvents db.
Proof.
  unfold getOrCreateUser, RelayerService.getOrCreateUser, findUser.
  destruct (List.find _ (users db)) as [u|] eqn:E; simpl.
  - split; [exact E|]. apply List.find_some in E as [_ E].
    apply String.eqb_eq in E. repeat split. exact E.
  - rewrite find_snoc, E. simpl. rewrite String.eqb_refl. repeat split.
Qed.

(** The user the deposit branch of [processVaultEvent] works on, and
    the tables it hands to [handleDeposit]. *)
Lemma deposit_user db sender uid :
  let r := getOrCreateUser db sender uid in
  let db0' := setUsers (fst r) (saveUser (snd r) (users (fst r))) in
  findUser db0' (Js.toLowerCase sender) = Some (snd r).
Proof.
  intros r db0'.
  destruct (getOrCreateUser_find db sender uid) as (Hf & Hw & _).
  fold r in Hf, Hw. unfold findUser in *. subst db0'. simpl.
  now apply (find_saveUser _ _ _ (snd r)).
Qed.

Lemma getEventType_cases topic eventType :
  getEventType topic = Some eventType ->
  (topic = DEPOSIT_TOPIC /\ eventType = deposit)
  \/ (topic = WITHDRAW_REQUEST_TOPIC /\ eventType = withdraw_request)
  \/ (topic = WITHDRAW_TOPIC /\ eventType = withdraw).
Proof.
  unfold getEventType.
  destruct (String.eqb_spec topic DEPOSIT_TOPIC);
    [intros [= <-]; tauto|].
  destruct (String.eqb_spec topic WITHDRAW_REQUEST_TOPIC);
    [intros [= <-]; tauto|].
  destruct (String.eqb_spec topic WITHDRAW_TOPIC);
    [intros [= <-]; tauto|discriminate].
Qed.

Lemma storedFor_snoc transaction chain events ev :
  ve_transactionHash ev = tx_hash transaction ->
  ve_chainId ev = c_chainId chain ->
  storedFor transaction chain (events ++ [ev]) = true.
Proof.
  intros Hh Hc. unfold storedFor. rewrite existsb_app. simpl.
  rewrite Hh, Hc, String.eqb_refl, Z.eqb_refl. now rewrite orb_true_r.
Qed.

(** A run of [processVaultEvent] never throws, and it either leaves
    the events as they are or appends the event of this transaction. *)
Lemma processVaultEvent_events out db log transaction chain :
  let r := processVaultEvent column parse out db log transaction chain in
  snd r = false
  /\ ((fst r = db
       /\ (existingEvent db transaction chain log = true
           \/ head (topics log) ≫= getEventType = None
           \/ exists eventType,
                head (topics log) ≫= getEventType = Some eventType
                /\ parse log eventType = None))
      \/ exists ev,
           vaultEvents (fst r) = vaultEvents db ++ [ev]
           /\ ve_transactionHash ev = tx_hash transaction
           /\ ve_chainId ev = c_chainId chain
           /\ ve_usdValue ev = column (usdValue out)).
Proof.
  unfold processVaultEvent.
  destruct (existingEvent db transaction chain log) eqn:Ex;
    [simpl; split; [reflexivity|left; tauto]|].
  destruct (head (topics log) ≫= getEventType) as [eventType|] eqn:Et;
    [|simpl; split; [reflexivity|left; tauto]].
  destruct (parse log eventType) as [parsedLog|] eqn:Ep;
    [|simpl; split; [reflexivity|left; split; [reflexivity|]];
      right; right; eauto].
  destruct eventType.
  - pose proof (deposit_user db (p_sender parsedLog) (uid out)) as Hu.
    destruct (getOrCreateUser_find db (p_sender parsedLog) (uid out))
      as (_ & _ & _ & _ & _ & Hv).
    destruct (getOrCreateUser db (p_sender parsedLog) (uid out))
      as [db0 created]. simpl in Hu, Hv. rewrite Hu.
    split; [reflexivity|]. right. eexists.
    destruct (handleDeposit_tables column
                (saveVaultEvent column
                   (setUsers db0 (saveUser created (users db0)))
                   (mkVaultEvent deposit (c_chainId chain)
                      (tx_hash transaction) (tx_blockNumber transaction)
                      (Js.toLowerCase (p_sender parsedLog))
                      (p_asset parsedLog) (p_vault parsedLog)
                      (p_amount parsedLog) (p_tokenId parsedLog)
                      (p_requestId parsedLog) (usdValue out)))
                (mkVaultEvent deposit (c_chainId chain)
                   (tx_hash transaction) (tx_blockNumber transaction)
                   (Js.toLowerCase (p_sender parsedLog))
                   (p_asset parsedLog) (p_vault parsedLog)
                   (p_amount parsedLog) (p_tokenId parsedLog)
                   (p_requestId parsedLog) (usdValue out))
                created (c_chainName chain)) as (_ & _ & _ & Hve).
    cbn [fst]. rewrite Hve. cbn [vaultEvents saveVaultEvent setUsers].
    rewrite Hv. split; [reflexivity|]. simpl. tauto.
  - cbn zeta. cbn [fst snd].
    match goal with
    | |- context [findUser ?d ?s] => destruct (findUser d s) as [u|]
    end.
    + split; [reflexivity|]. right. eexists. cbn [fst].
      match goal with
      | |- context [handleWithdrawRequest column ?d ?e ?u ?c ?w] =>
          destruct (handleWithdrawRequest_tables column d e u c w)
            as (_ & _ & Hve & _)
      end.
      rewrite Hve. cbn [vaultEvents saveVaultEvent].
      split; [reflexivity|]. simpl. tauto.
    + split; [reflexivity|]. right. eexists. cbn [fst vaultEvents saveVaultEvent].
      split; [reflexivity|]. simpl. tauto.
  - cbn zeta. cbn [fst snd].
    match goal with
    | |- context [findUser ?d ?s] => destruct (findUser d s) as [u|]
    end.
    + split; [reflexivity|]. right. eexists. cbn [fst].
      match goal with
      | |- context [handleWithdraw ?d ?e ?u] =>
          destruct (handleWithdraw_tables d e u) as (_ & _ & Hve)
      end.
      rewrite Hve. cbn [vaultEvents saveVaultEvent].
      split; [reflexivity|]. simpl. tauto.
    + split; [reflexivity|]. right. eexists. cbn [fst vaultEvents saveVaultEvent].
      split; [reflexivity|]. simpl. tauto.
Qed.

Lemma existingEvent_stored db transaction chain log :
  logIndex log = None ->
  existingEvent db transaction chain log
  = storedFor transaction chain (vaultEvents db).
Proof. intros H. unfold existingEvent, storedFor. now rewrite H. Qed.



Lemma processVaultEvent_deposit out db log transaction chain parsed :
  existingEvent db transaction chain log = false ->
  head (topics log) = Some DEPOSIT_TOPIC ->
  parse log deposit = Some parsed ->
  let created := snd (getOrCreateUser db (p_sender parsed) (uid out)) in
  let db1 :=
    fst (processVaultEvent column parse out db log transaction chain) in
  (forall q,
     calculateTotalDeposits db1 q
     = if decide (u_id created = u_id q)
       then add (calculateTotalDeposits db q) (column (usdValue out))
       else calculateTotalDeposits db q)
  /\ borrows db1 = borrows db
  /\ withdrawals db1 = withdrawals db
  /\ length (deposits db1) = S (length (deposits db))
  /\ exists user',
       findUser db1 (Js.toLowerCase (p_sender parsed)) = Some user'
       /\ u_id user' = u_id created
       /\ totalUsdBalance user'
          = formatDecimal (safeAdd (totalUsdBalance created) (usdValue out))
       /\ floatingUsdBalance user'
          = formatDecimal
              (safeAdd (floatingUsdBalance created) (usdValue out)).
Proof.
  intros Hex Ht Hp created db1. subst created db1.
  assert (Het : head (topics log) ≫= getEventType = Some deposit)
    by (rewrite Ht; reflexivity).
  unfold processVaultEvent. rewrite Hex, Het, Hp.
  pose proof (deposit_user db (p_sender parsed) (uid out)) as Hu.
  destruct (getOrCreateUser_find db (p_sender parsed) (uid out))
    as (_ & Hw & Hd & Hwd & Hb & _).
  destruct (getOrCreateUser db (p_sender parsed) (uid out))
    as [db0 created]. simpl in Hu, Hw, Hd, Hwd, Hb. rewrite Hu.
  cbn [fst snd].
  set (ev := mkVaultEvent deposit (c_chainId chain) (tx_hash transaction)
               (tx_blockNumber transaction)
               (Js.toLowerCase (p_sender parsed)) (p_asset parsed)
               (p_vault parsed) (p_amount parsed) (p_tokenId parsed)
               (p_requestId parsed) (usdValue out)).
  set (dbX := saveVaultEvent column
                (setUsers db0 (saveUser created (users db0))) ev).
  destruct (handleDeposit_tables column dbX ev created (c_chainName chain))
    as (Hdep & Hwdr & Hbor & _).
  split; [|split; [|split; [|split]]].
  - intros q. rewrite handleDeposit_deposits.
    unfold calculateTotalDeposits. cbn [deposits dbX saveVaultEvent setUsers].
    now rewrite Hd.
  - rewrite Hbor. exact Hb.
  - rewrite Hwdr. exact Hwd.
  - rewrite Hdep, length_app. simpl. rewrite Hd. lia.
  - eexists. split.
    + unfold findUser, handleDeposit. cbn [users setUsers].
      apply (find_saveUser _ _ _ created); [exact Hu|reflexivity|exact Hw].
    + repeat split.
Qed.

Lemma getOrCreateUser_found db wallet uid u :
  findUser db (Js.toLowerCase wallet) = Some u ->
  getOrCreateUser db wallet uid = (db, u).
Proof.
  unfold findUser, getOrCreateUser, RelayerService.getOrCreateUser.
  now intros ->.
Qed.

End VaultPipelineProperties.

(** X5: once a log of a transaction has been stored as a vault event,
    [processVaultEvent] skips every log of that transaction and chain
    that carries no log index, the same log included: the first query
    finds the stored event by transaction hash and chain, and the
    tables stay as they are. *)
Theorem X5_vault_event_replay_is_skipped
    (column : Num.number -> Num.number)
    (parse : VaultEventPipeline.Log -> Models.VaultEventType
             -> option VaultEventPipeline.ParsedLog)
    (out1 out2 : VaultEventPipeline.Outside) (db : Models.Db)
    (log1 log2 : VaultEventPipeline.Log)
    (transaction : VaultEventPipeline.Transaction)
    (chain : VaultEventPipeline.Chain)
    (eventType : Models.VaultEventType)
    (parsed : VaultEventPipeline.ParsedLog) :
  head (VaultEventPipeline.topics log1) ≫= VaultEventPipeline.getEventType
  = Some eventType ->
  parse log1 eventType = Some parsed ->
  VaultEventPipeline.logIndex log2 = None ->
  let db1 :=
    fst (VaultEventPipeline.processVaultEvent column parse out1 db log1 transaction
           chain) in
  VaultEventPipeline.existingEvent db1 transaction chain log2 = true
  /\ VaultEventPipeline.processVaultEvent column parse out2 db1 log2 transaction
       chain
     = (db1, false).
Proof.
  intros Ht Hp Hidx db1.
  assert (Hex : VaultEventPipeline.existingEvent db1 transaction chain log2
                = true).
  { rewrite existingEvent_stored by exact Hidx.
    destruct (processVaultEvent_events column parse out1 db log1 transaction chain)
      as (_ & [(Hdb & Hwhy)|(ev & Hev & Hh & Hc & _)]).
    - fold db1 in Hdb. rewrite Hdb.
      destruct Hwhy as [Hex|[Hn|(et & Het & Hpn)]].
      + unfold VaultEventPipeline.existingEvent in Hex.
        destruct (VaultEventPipeline.logIndex log1); [discriminate|exact Hex].
      + congruence.
      + congruence.
    - fold db1 in Hev. rewrite Hev. now apply storedFor_snoc. }
  split; [exact Hex|].
  unfold VaultEventPipeline.processVaultEvent. now rewrite Hex.
Qed.

Lemma X5_witness :
  VaultEventPipeline.processVaultEvent LedgerRun.column
    VaultEventPipeline.toyParse
    (VaultEventPipeline.mkOutside (LedgerSpec.usd 25) "u2" "w2")
    (fst (VaultEventPipeline.processVaultEvent LedgerRun.column
    VaultEventPipeline.toyParse
            (VaultEventPipeline.mkOutside (LedgerSpec.usd 25) "u1" "w1")
            VaultEventPipeline.emptyDb (VaultEventPipeline.depositLog None)
            VaultEventPipeline.sampleTransaction VaultEventPipeline.berachain))
    VaultEventPipeline.withdrawRequestLog
    VaultEventPipeline.sampleTransaction VaultEventPipeline.berachain
  = (fst (VaultEventPipeline.processVaultEvent LedgerRun.column
    VaultEventPipeline.toyParse
            (VaultEventPipeline.mkOutside (LedgerSpec.usd 25) "u1" "w1")
            VaultEventPipeline.emptyDb (VaultEventPipeline.depositLog None)
            VaultEventPipeline.sampleTransaction VaultEventPipeline.berachain),
     false).
Proof.
  refine (proj2 (X5_vault_event_replay_is_skipped LedgerRun.column
            VaultEventPipeline.toyParse
            (VaultEventPipeline.mkOutside (LedgerSpec.usd 25) "u1" "w1")
            (VaultEventPipeline.mkOutside (LedgerSpec.usd 25) "u2" "w2")
            VaultEventPipeline.emptyDb (VaultEventPipeline.depositLog None)
            VaultEventPipeline.withdrawRequestLog
            VaultEventPipeline.sampleTransaction VaultEventPipeline.berachain
            Models.deposit
            (VaultEventPipeline.mkParsedLog "0xDD" "0xa55e7" "0x7a017" "1000"
               "7" "")
            _ _ _)); reflexivity.
Defined.



(** X7: when the log carries a log index the first query of
    [processVaultEvent] finds nothing, whatever is stored: a deposit
    log is handled each time it is processed.  After two runs there
    are two more deposit rows, the deposits [validateWithdrawal] sums
    for the depositor are the former sum plus the stored value of each
    run, and the total balance of the depositor went through
    [formatDecimal(safeAdd(total, usdValue))] twice. *)
Theorem X7_logs_with_an_index_are_never_skipped
    (column : Num.number -> Num.number)
    (parse : VaultEventPipeline.Log -> Models.VaultEventType
             -> option VaultEventPipeline.ParsedLog)
    (out1 out2 : VaultEventPipeline.Outside) (db : Models.Db)
    (log : VaultEventPipeline.Log)
    (transaction : VaultEventPipeline.Transaction)
    (chain : VaultEventPipeline.Chain) (i : Z)
    (parsed : VaultEventPipeline.ParsedLog) :
  VaultEventPipeline.logIndex log = Some i ->
  head (VaultEventPipeline.topics log)
  = Some VaultEventPipeline.DEPOSIT_TOPIC ->
  parse log Models.deposit = Some parsed ->
  let depositor :=
    snd (VaultEventPipeline.getOrCreateUser db
           (VaultEventPipeline.p_sender parsed)
           (VaultEventPipeline.uid out1)) in
  let db1 :=
    fst (VaultEventPipeline.processVaultEvent column parse out1 db log
           transaction chain) in
  let db2 :=
    fst (VaultEventPipeline.processVaultEvent column parse out2 db1 log
           transaction chain) in
  VaultEventPipeline.existingEvent db1 transaction chain log = false
  /\ VaultEventService.calculateTotalDeposits db2 depositor
     = Num.add
         (Num.add (VaultEventService.calculateTotalDeposits db depositor)
                  (column (VaultEventPipeline.usdValue out1)))
         (column (VaultEventPipeline.usdValue out2))
  /\ Models.borrows db2 = Models.borrows db
  /\ Models.withdrawals db2 = Models.withdrawals db
  /\ length (Models.deposits db2) = S (S (length (Models.deposits db)))
  /\ exists user2,
       VaultEventPipeline.findUser db2
         (Js.toLowerCase (VaultEventPipeline.p_sender parsed))
       = Some user2
       /\ Models.u_id user2 = Models.u_id depositor
       /\ Models.totalUsdBalance user2
          = Decimal.formatDecimal
              (Decimal.safeAdd
                 (Decimal.formatDecimal
                    (Decimal.safeAdd (Models.totalUsdBalance depositor)
                       (VaultEventPipeline.usdValue out1)))
                 (VaultEventPipeline.usdValue out2)).
Proof.
  intros Hidx Ht Hp depositor db1 db2.
  assert (Hex : forall d,
            VaultEventPipeline.existingEvent d transaction chain log = false).
  { intros d. unfold VaultEventPipeline.existingEvent. now rewrite Hidx. }
  destruct (processVaultEvent_deposit column parse out1 db log transaction
              chain parsed (Hex db) Ht Hp)
    as (Hdep1 & Hb1 & Hw1 & Hlen1 & user' & Hfind & Hid & Htot & _).
  fold depositor in Hdep1, Hid, Htot. fold db1 in Hdep1, Hb1, Hw1, Hlen1, Hfind.
  destruct (processVaultEvent_deposit column parse out2 db1 log transaction
              chain parsed (Hex db1) Ht Hp)
    as (Hdep2 & Hb2 & Hw2 & Hlen2 & user2 & Hfind2 & Hid2 & Htot2 & _).
  fold db2 in Hdep2, Hb2, Hw2, Hlen2, Hfind2.
  rewrite (getOrCreateUser_found db1 _ _ user' Hfind) in Hdep2, Hid2, Htot2.
  cbn [snd] in Hdep2, Hid2, Htot2.
  split; [apply Hex|]. split; [|split; [|split; [|split]]].
  - rewrite Hdep2, Hdep1.
    destruct (decide (Models.u_id user' = Models.u_id depositor))
      as [_|Hn]; [|congruence].
    destruct (decide _) as [_|Hn]; [reflexivity|congruence].
  - now rewrite Hb2.
  - now rewrite Hw2.
  - rewrite Hlen2, Hlen1. reflexivity.
  - exists user2. split; [exact Hfind2|]. split; [congruence|].
    now rewrite Htot2, Htot.
Qed.

(** The deposit log of 25 USD, carrying log index 0, processed twice
    on empty tables. *)
Lemma X7_witness :
  let db2 :=
    fst (VaultEventPipeline.processVaultEvent LedgerRun.column
           VaultEventPipeline.toyParse
           (VaultEventPipeline.mkOutside (LedgerSpec.usd 25) "u2" "w2")
           (fst (VaultEventPipeline.processVaultEvent LedgerRun.column
                   VaultEventPipeline.toyParse
                   (VaultEventPipeline.mkOutside (LedgerSpec.usd 25) "u1" "w1")
                   VaultEventPipeline.emptyDb
                   (VaultEventPipeline.depositLog (Some 0))
                   VaultEventPipeline.sampleTransaction
                   VaultEventPipeline.berachain))
           (VaultEventPipeline.depositLog (Some 0))
           VaultEventPipeline.sampleTransaction VaultEventPipeline.berachain) in
  length (Models.deposits db2) = 2%nat
  /\ VaultEventService.calculateTotalDeposits db2
       (Models.mkUser "u1" "0xdd" Num.zero Num.zero Num.zero)
     = LedgerSpec.usd 50.
Proof.
  intros db2.
  destruct (X7_logs_with_an_index_are_never_skipped LedgerRun.column
              VaultEventPipeline.toyParse
              (VaultEventPipeline.mkOutside (LedgerSpec.usd 25) "u1" "w1")
              (VaultEventPipeline.mkOutside (LedgerSpec.usd 25) "u2" "w2")
              VaultEventPipeline.emptyDb
              (VaultEventPipeline.depositLog (Some 0))
              VaultEventPipeline.sampleTransaction
              VaultEventPipeline.berachain 0
              (VaultEventPipeline.mkParsedLog "0xDD" "0xa55e7" "0x7a017"
                 "1000" "7" ""))
    as (_ & Hdep & _ & _ & Hlen & _); try reflexivity.
  split; [exact Hlen|]. fold db2 in Hdep.
  etransitivity; [exact Hdep|]. vm_compute. reflexivity.
Defined.

(** ** The proof handed to a withdrawal *)
Section WithdrawalProofProperties.
Variable hashFn : Z -> Z -> Z.
Variable leafHash : string -> string -> Z.

Lemma getMerkleProof_sound store owner tokenId p :
  MerkleService.getMerkleProof hashFn leafHash store owner tokenId = Some p ->
  MerkleTree.verify hashFn (MerkleService.proof p)
    (leafHash (Js.toLowerCase owner) tokenId) (MerkleService.root p) = true
  /\ MerkleService.verified p = true.
Proof.
  unfold MerkleService.getMerkleProof.
  destruct (MerkleService.latestTransfer store); [|discriminate].
  destruct (MerkleService.createLeavesFromOwnership _ _); [discriminate|].
  destruct (Js.get _ _); [|discriminate].
  destruct (_ || _); [discriminate|].
  destruct (MerkleTree.verify _ _ _ _) eqn:E; [|discriminate].
  intros [= <-]. simpl. split; [exact E|reflexivity].
Qed.

End WithdrawalProofProperties.

(** X8: the list [getMerkleProofForWithdrawal] returns is empty exactly
    when the event has no (or a zero) token id or [getMerkleProof]
    returns nothing; its branches for a failed verification and for a
    missing root are never taken.  Otherwise it is the proof, or, when
    the proof is empty, the root alone, which is then the leaf of the
    sender itself. *)
Theorem X8_withdrawal_proof_is_proof_or_lone_root
    (hashFn : Z -> Z -> Z) (leafHash : string -> string -> Z)
    (store : list NftModels.NftTransfer) (ev : Models.VaultEvent) :
  let result :=
    VaultEventPipeline.getMerkleProofForWithdrawal hashFn leafHash store ev in
  let query :=
    MerkleService.getMerkleProof hashFn leafHash store (Models.ve_sender ev)
      (Models.ve_tokenId ev) in
  (result = []
   <-> VaultEventPipeline.falsyTokenId (Models.ve_tokenId ev) = true
       \/ query = None)
  /\ forall p,
       VaultEventPipeline.falsyTokenId (Models.ve_tokenId ev) = false ->
       query = Some p ->
       (MerkleService.proof p <> [] /\ result = MerkleService.proof p)
       \/ (MerkleService.proof p = []
           /\ result = [MerkleService.root p]
           /\ MerkleService.root p
              = leafHash (Js.toLowerCase (Models.ve_sender ev))
                  (Models.ve_tokenId ev)).
Proof.
  intros result query. subst result.
  unfold VaultEventPipeline.getMerkleProofForWithdrawal. fold query.
  destruct (VaultEventPipeline.falsyTokenId (Models.ve_tokenId ev)) eqn:Ef.
  - split; [tauto|discriminate].
  - destruct query as [p|] eqn:Eq.
    + destruct (getMerkleProof_sound hashFn leafHash store _ _ p Eq)
        as (Hver & Hv).
      rewrite Hv. simpl.
      destruct (MerkleService.proof p) as [|x r] eqn:Ep.
      * split.
        -- split; [discriminate|]. intros [H|H]; discriminate.
        -- intros p' _ [= <-]. right. rewrite Ep.
           split; [reflexivity|]. split; [reflexivity|].
           unfold MerkleTree.verify in Hver. simpl in Hver.
           apply Z.eqb_eq in Hver. now symmetry.
      * split.
        -- split; [discriminate|]. intros [H|H]; discriminate.
        -- intros p' _ [= <-]. left. rewrite Ep. split; [discriminate|reflexivity].
    + split; [tauto|discriminate].
Qed.

(** ** Prices *)
Section PricingProperties.
Import PricingService.

Lemma toLowerCase_not_upper (s k : string) :
  Js.toLowerCase k <> k -> Js.toLowerCase s <> k.
Proof.
  intros Hk Hs. apply Hk. rewrite <- Hs. apply toLowerCase_idem.
Qed.

Lemma mapGet_none {V} k (m : list (string * V)) :
  Forall (fun kv => fst kv <> k) m -> mapGet k m = None.
Proof.
  unfold mapGet. induction 1 as [|kv r Hk _ IH]; [reflexivity|].
  cbn [List.find]. destruct (String.eqb_spec (fst kv) k); [contradiction|].
  exact IH.
Qed.

Lemma getMockPrice_lower (vary : Num.number -> Num.number) a : getMockPrice vary (Js.toLowerCase a) = None.
Proof.
  unfold getMockPrice. rewrite mapGet_none; [reflexivity|].
  unfold mockPrices.
  repeat (apply Forall_cons; split;
          [cbn [fst]; intros He; symmetry in He; revert He;
           apply toLowerCase_not_upper; vm_compute; discriminate|]).
  apply Forall_nil. exact I.
Qed.

End PricingProperties.

(** X9: no lower-cased address is a key of the mock prices (each key
    has capital letters), so [getMockPrice], which is only called on a
    lower-cased address, always answers null: [fetchMarketPrice]
    answers a fresh cached price, else the first price Alchemy returns
    on a mapped chain with an API key, else null, and the random
    variation never reaches its answer. *)
Theorem X9_mock_prices_are_never_served
    (vary : Num.number -> Num.number) (now : Z) (apiKey : string)
    (fetchFromAlchemy : string -> string -> option (list (list Num.number)))
    (priceCache : PricingService.PriceCache) (tokenAddress : string)
    (chainId : Z) :
  let answer :=
    fst (PricingService.fetchMarketPrice vary now apiKey fetchFromAlchemy
           priceCache tokenAddress chainId) in
  let normalizedAddress := Js.toLowerCase tokenAddress in
  PricingService.getMockPrice vary normalizedAddress = None
  /\ answer
     = match PricingService.cacheGet (chainId, normalizedAddress)
               priceCache with
       | Some cached =>
           if now - PricingService.c_timestamp cached
              <? PricingService.CACHE_TTL
           then Some (PricingService.c_price cached)
           else
             match PricingService.NETWORK_MAPPING chainId,
                   Js.truthy apiKey with
             | Some network, true =>
                 match fetchFromAlchemy network normalizedAddress with
                 | Some ((value :: _) :: _) =>
                     Some (PricingService.mkTokenPrice value 18)
                 | _ => None
                 end
             | _, _ => None
             end
       | None =>
           match PricingService.NETWORK_MAPPING chainId,
                 Js.truthy apiKey with
           | Some network, true =>
               match fetchFromAlchemy network normalizedAddress with
               | Some ((value :: _) :: _) =>
                   Some (PricingService.mkTokenPrice value 18)
               | _ => None
               end
           | _, _ => None
           end
       end.
Proof.
  intros answer normalizedAddress.
  split; [apply getMockPrice_lower|].
  subst answer normalizedAddress. unfold PricingService.fetchMarketPrice.
  cbn zeta. rewrite (getMockPrice_lower vary tokenAddress).
  destruct (PricingService.cacheGet _ _) as [cached|];
    [destruct (_ <? _); [reflexivity|]|];
    destruct (PricingService.NETWORK_MAPPING chainId) as [network|];
    try reflexivity;
    destruct (Js.truthy apiKey); try reflexivity; simpl;
    destruct (fetchFromAlchemy network (Js.toLowerCase tokenAddress))
      as [[|[|value ?] ?]|]; reflexivity.
Qed.

(** ** The Merkle root: generated once, served by the proof query *)
Section RootProperties.
Import NftModels SnapshotSpec ProofSpec.
Variable hashFn : Z -> Z -> Z.
Variable leafHash : string -> string -> Z.

Local Abbreviation generate := (NftTransferService.generateMerkleTree hashFn leafHash).
Local Abbreviation update := NftTransferService.updateTransfersWithMerkleRoot.

Lemma sortByBlock_nil l : sortByBlock l = [] -> l = [].
Proof.
  intros H. apply Permutation_nil. rewrite <- H.
  apply sortByBlock_perm.
Qed.

Lemma sortByBlock_of_sorted l : StronglySorted byBlock l -> sortByBlock l = l.
Proof.
  induction 1 as [|t l Hs IH Hall]; [reflexivity|].
  unfold sortByBlock in *. simpl. rewrite IH.
  destruct l as [|x r]; [reflexivity|]. simpl.
  inversion Hall as [|? ? Hx _]; subst. unfold byBlock in Hx.
  destruct (Z.leb_spec (blockNumber t) (blockNumber x)); [reflexivity|lia].
Qed.

Lemma sortByBlock_idem l : sortByBlock (sortByBlock l) = sortByBlock l.
Proof. apply sortByBlock_of_sorted, sortByBlock_sorted. Qed.

Lemma insertByBlock_map (f : NftTransfer -> NftTransfer) t l :
  (forall x, blockNumber (f x) = blockNumber x) ->
  insertByBlock (f t) (map f l) = map f (insertByBlock t l).
Proof.
  intros Hf. induction l as [|x r IH]; simpl; [reflexivity|].
  rewrite !Hf. destruct (blockNumber t <=? blockNumber x); simpl;
    [reflexivity|now rewrite IH].
Qed.

Lemma sortByBlock_map (f : NftTransfer -> NftTransfer) l :
  (forall x, blockNumber (f x) = blockNumber x) ->
  sortByBlock (map f l) = map f (sortByBlock l).
Proof.
  intros Hf. induction l as [|x r IH]; [reflexivity|].
  unfold sortByBlock in *. simpl. rewrite IH. now apply insertByBlock_map.
Qed.

Lemma ownership_map (f : NftTransfer -> NftTransfer) l :
  (forall x, tokenId (f x) = tokenId x /\ toAddress (f x) = toAddress x) ->
  forall o, fold_left ownershipStep (map f l) o = fold_left ownershipStep l o.
Proof.
  intros Hf. induction l as [|x r IH]; intros o; [reflexivity|].
  simpl. rewrite IH. f_equal. unfold ownershipStep.
  destruct (Hf x) as [-> ->]. reflexivity.
Qed.

Lemma filter_all {A} (f : A -> bool) (l : list A) :
  (forall x, x ∈ l -> f x = true) -> List.filter f l = l.
Proof.
  induction l as [|x r IH]; intros H; [reflexivity|]. simpl.
  rewrite (H x) by apply list_elem_of_here.
  f_equal. apply IH. intros y Hy. apply H. now apply list_elem_of_further.
Qed.

Lemma filter_nothing {A} (f : A -> bool) (l : list A) :
  (forall x, x ∈ l -> f x = false) -> List.filter f l = [].
Proof.
  induction l as [|x r IH]; intros H; [reflexivity|]. simpl.
  rewrite (H x) by apply list_elem_of_here.
  apply IH. intros y Hy. apply H. now apply list_elem_of_further.
Qed.

Lemma update_included store r t :
  t ∈ update store r -> includedInMerkle t = true.
Proof.
  unfold update. intros Ht. apply list_elem_of_fmap in Ht as (x & -> & _).
  destruct (includedInMerkle x) eqn:E; [exact E|reflexivity].
Qed.

Lemma update_rooted store r t :
  (forall x, x ∈ store -> includedInMerkle x = true ->
             is_Some (merkleRoot x)) ->
  t ∈ update store r -> rooted t = true.
Proof.
  unfold update. intros Hinv Ht.
  apply list_elem_of_fmap in Ht as (x & -> & Hx). unfold rooted.
  destruct (includedInMerkle x) eqn:E.
  - rewrite E. simpl. apply bool_decide_eq_true. now apply Hinv.
  - simpl. first [reflexivity|apply bool_decide_eq_true; eauto].
Qed.

(** The outcomes of [generateMerkleTree]. *)
Lemma generateMerkleTree_cases store :
  generate store = (None, store)
  \/ (List.filter (fun t => negb (includedInMerkle t)) store <> []
      /\ generate store
         = (Some (MerkleTree.getRoot hashFn
                    (NftTransferService.createLeavesFromOwnership leafHash
                       (fold_left ownershipStep (sortByBlock store) []))),
            update store
              (MerkleTree.getRoot hashFn
                 (NftTransferService.createLeavesFromOwnership leafHash
                    (fold_left ownershipStep (sortByBlock store) []))))).
Proof.
  unfold NftTransferService.generateMerkleTree,
    NftTransferService.getCurrentOwnershipFromTransfers.
  rewrite sortByBlock_idem.
  destruct (sortByBlock store) as [|a l] eqn:Es; [now left|].
  destruct (sortByBlock (List.filter _ store)) as [|b m] eqn:En; [now left|].
  destruct (NftTransferService.createLeavesFromOwnership leafHash _)
    as [|c n] eqn:El; [now left|].
  right. split; [|reflexivity].
  intros Hnil. rewrite Hnil in En. discriminate.
Qed.

Lemma generateMerkleTree_again store r :
  generate (update store r) = (None, update store r).
Proof.
  unfold NftTransferService.generateMerkleTree.
  destruct (sortByBlock (update store r)); [reflexivity|].
  rewrite (filter_nothing (fun t => negb (includedInMerkle t))).
  - reflexivity.
  - intros x Hx. now rewrite (update_included store r x Hx).
Qed.

Lemma getMerkleProof_root store owner tid p :
  MerkleService.getMerkleProof hashFn leafHash store owner tid = Some p ->
  exists latest,
    MerkleService.latestTransfer store = Some latest
    /\ MerkleService.root p
       = MerkleTree.getRoot hashFn
           (MerkleService.createLeavesFromOwnership leafHash
              (MerkleService.getCurrentOwnershipFromTransfers
                 (MerkleService.transfersUpTo store latest))).
Proof.
  unfold MerkleService.getMerkleProof.
  destruct (MerkleService.latestTransfer store) as [latest|]; [|discriminate].
  intros H. exists latest. split; [reflexivity|]. revert H.
  destruct (MerkleService.createLeavesFromOwnership _ _) as [|c n];
    [discriminate|].
  destruct (Js.get _ _); [|discriminate].
  destruct (_ || _); [discriminate|].
  destruct (MerkleTree.verify _ _ _ _); [|discriminate].
  intros [= <-]. reflexivity.
Qed.

End RootProperties.

(** X10: [generateMerkleTree] run again right after itself finds no
    transfer to include: it answers the empty root and leaves the store
    as it is.  A run that answers a root leaves every row included, and
    a row that was included before keeps its place and its root. *)
Theorem X10_generating_the_root_twice_changes_nothing
    (hashFn : Z -> Z -> Z) (leafHash : string -> string -> Z)
    (store : list NftModels.NftTransfer) :
  let out := NftTransferService.generateMerkleTree hashFn leafHash store in
  NftTransferService.generateMerkleTree hashFn leafHash (snd out)
  = (None, snd out)
  /\ (forall r, fst out = Some r ->
                forall t, t ∈ snd out -> NftModels.includedInMerkle t = true)
  /\ (forall (i : nat) t,
        store !! i = Some t -> NftModels.includedInMerkle t = true ->
        snd out !! i = Some t)
  /\ length (snd out) = length store.
Proof.
  intros out. subst out.
  destruct (generateMerkleTree_cases hashFn leafHash store)
    as [E|(_ & E)]; rewrite E; cbn [fst snd].
  - split; [exact E|]. split; [discriminate|]. split; [tauto|reflexivity].
  - split; [apply generateMerkleTree_again|]. split; [|split].
    + intros r _ t Ht. eapply update_included; exact Ht.
    + intros i t Hi Hinc.
      unfold NftTransferService.updateTransfersWithMerkleRoot.
      rewrite list_lookup_fmap, Hi. simpl. now rewrite Hinc.
    + unfold NftTransferService.updateTransfersWithMerkleRoot.
      apply length_map.
Qed.

(** X11: after [generateMerkleTree] has answered a root, every proof
    [getMerkleProof] returns from the store it left is a proof against
    that root: the tree of the query is rebuilt from all the transfers,
    in the same order.  The store is one in which an included transfer
    carries a root, as every store the service writes is. *)
Theorem X11_proofs_are_against_the_generated_root
    (hashFn : Z -> Z -> Z) (leafHash : string -> string -> Z)
    (store : list NftModels.NftTransfer) (r : Z) (owner tokenId : string)
    (p : MerkleService.ProofResult) :
  (forall t, t ∈ store -> NftModels.includedInMerkle t = true ->
             is_Some (NftModels.merkleRoot t)) ->
  fst (NftTransferService.generateMerkleTree hashFn leafHash store) = Some r ->
  MerkleService.getMerkleProof hashFn leafHash
    (snd (NftTransferService.generateMerkleTree hashFn leafHash store))
    owner tokenId = Some p ->
  MerkleService.root p = r.
Proof.
  intros Hinv Hr Hp.
  destruct (generateMerkleTree_cases hashFn leafHash store)
    as [E|(_ & E)]; rewrite E in Hr, Hp; cbn [fst snd] in Hr, Hp;
    [discriminate|].
  inversion Hr as [Hr']. clear Hr. rewrite Hr' in Hp.
  apply getMerkleProof_root in Hp as (latest & Hl & ->).
  pose proof (latestTransfer_spec
                (NftTransferService.updateTransfersWithMerkleRoot store r))
    as Hspec.
  rewrite Hl in Hspec. destruct Hspec as (_ & _ & Htop).
  unfold MerkleService.transfersUpTo.
  rewrite filter_all.
  2:{ intros t Ht. apply Z.leb_le. apply Htop; [exact Ht|].
      eapply update_rooted; [exact Hinv|exact Ht]. }
  unfold NftTransferService.updateTransfersWithMerkleRoot,
    MerkleService.getCurrentOwnershipFromTransfers.
  rewrite sortByBlock_map, ownership_map.
  - first [exact Hr'|reflexivity].
  - intros x. destruct (NftModels.includedInMerkle x); split; reflexivity.
  - intros x. destruct (NftModels.includedInMerkle x); reflexivity.
Qed.

Lemma X11_witness :
  fst (NftTransferService.generateMerkleTree RelayerSpec.toyHash
         RelayerSpec.toyLeaf
         [SnapshotSpec.mintTo_aa; SnapshotSpec.transferTo "0xf3" 21 "8" "0xBB"])
  = Some 56
  /\ MerkleService.getMerkleProof RelayerSpec.toyHash RelayerSpec.toyLeaf
       (snd (NftTransferService.generateMerkleTree RelayerSpec.toyHash
               RelayerSpec.toyLeaf
               [SnapshotSpec.mintTo_aa;
                SnapshotSpec.transferTo "0xf3" 21 "8" "0xBB"]))
       "0xBB" "8"
     = Some (MerkleService.mkProofResult [11] 56 true)
  /\ MerkleService.root (MerkleService.mkProofResult [11] 56 true) = 56.
Proof.
  split; [reflexivity|]. split; [reflexivity|].
  apply (X11_proofs_are_against_the_generated_root RelayerSpec.toyHash
           RelayerSpec.toyLeaf
           [SnapshotSpec.mintTo_aa;
            SnapshotSpec.transferTo "0xf3" 21 "8" "0xBB"]
           56 "0xBB" "8").
  - intros t Ht Hinc. exfalso.
    apply elem_of_cons in Ht as [->|Ht]; [discriminate Hinc|].
    apply list_elem_of_singleton in Ht. subst t. discriminate Hinc.
  - reflexivity.
  - reflexivity.
Defined.

(** X12: [getMerkleProof] reads the owner up to the case of its
    letters: two spellings of one address get the same answer. *)
Theorem X12_proof_query_ignores_the_case_of_the_owner
    (hashFn : Z -> Z -> Z) (leafHash : string -> string -> Z)
    (store : list NftModels.NftTransfer) (owner1 owner2 tokenId : string) :
  Js.toLowerCase owner1 = Js.toLowerCase owner2 ->
  MerkleService.getMerkleProof hashFn leafHash store owner1 tokenId
  = MerkleService.getMerkleProof hashFn leafHash store owner2 tokenId
  /\ MerkleService.verifyNftOwnership hashFn leafHash store owner1 tokenId
     = MerkleService.verifyNftOwnership hashFn leafHash store owner2 tokenId.
Proof.
  intros Heq.
  assert (H : MerkleService.getMerkleProof hashFn leafHash store owner1 tokenId
              = MerkleService.getMerkleProof hashFn leafHash store owner2
                  tokenId).
  { rewrite <- (getMerkleProof_lower hashFn leafHash store owner1),
      <- (getMerkleProof_lower hashFn leafHash store owner2).
    now rewrite Heq. }
  split; [exact H|]. unfold MerkleService.verifyNftOwnership. now rewrite H.
Qed.

Lemma X12_witness :
  MerkleService.getMerkleProof RelayerSpec.toyHash RelayerSpec.toyLeaf
    Samples.storeAfterMint ("0x" +:+ TransferSpec.accountAA) "1"
  = MerkleService.getMerkleProof RelayerSpec.toyHash RelayerSpec.toyLeaf
      Samples.storeAfterMint "0x00000000000000000000000000000000000000aa" "1".
Proof.
  refine (proj1 (X12_proof_query_ignores_the_case_of_the_owner
                   RelayerSpec.toyHash RelayerSpec.toyLeaf
                   Samples.storeAfterMint ("0x" +:+ TransferSpec.accountAA)
                   "0x00000000000000000000000000000000000000aa" "1" _)).
  reflexivity.
Defined.

(** X13: a message that is of no supported chain, or whose chain has no
    NFT contract, or none of whose logs is a Transfer log of that
    contract, leaves the transfers as they are, and its processing does
    not throw. *)
Theorem X13_foreign_logs_leave_the_transfers_alone
    (hashFn : Z -> Z -> Z) (leafHash : string -> string -> Z)
    (getAddress toBigInt : string -> option string)
    (chains : list NftModels.Chain) (autoGen : bool) (now : Z)
    (store : list NftModels.NftTransfer)
    (transaction : NftModels.Transaction) :
  match List.find (fun c => NftModels.c_chainId c
                            =? NftModels.tx_chainId transaction) chains with
  | None => True
  | Some chain =>
      match NftModels.nftContractAddress chain with
      | None => True
      | Some nft =>
          Forall (fun l =>
                    String.eqb (Js.toLowerCase (NftModels.address l))
                               (Js.toLowerCase nft)
                    && bool_decide (head (NftModels.topics l)
                                    = Some NftModels.TRANSFER_EVENT_TOPIC)
                    = false)
                 (NftModels.tx_logs transaction)
      end
  end ->
  NftTransferService.processTransaction hashFn leafHash getAddress toBigInt
    chains autoGen now store transaction
  = (store, false).
Proof.
  unfold NftTransferService.processTransaction.
  destruct (List.find _ chains) as [chain|]; [|reflexivity].
  destruct (NftModels.nftContractAddress chain) as [nft|]; [|reflexivity].
  induction (NftModels.tx_logs transaction) as [|log rest IH];
    intros Hall; [reflexivity|].
  inversion Hall as [|? ? Hlog Hrest]; subst. simpl.
  destruct (String.eqb _ _); simpl in *; [|now apply IH].
  rewrite Hlog. simpl. now apply IH.
Qed.

Lemma X13_witness :
  NftTransferService.processTransaction RelayerSpec.toyHash RelayerSpec.toyLeaf
    TransferSpec.toyAddress TransferSpec.toyBigInt [TransferSpec.berachain]
    true 0 [] (NftModels.mkTransaction "0xabc" 80094 100 "0xb100" 1700000000
                 [NftModels.mkLog "0x48bd" [NftModels.TRANSFER_EVENT_TOPIC]
                    "0x"])
  = ([], false).
Proof.
  apply (X13_foreign_logs_leave_the_transfers_alone RelayerSpec.toyHash
           RelayerSpec.toyLeaf TransferSpec.toyAddress TransferSpec.toyBigInt
           [TransferSpec.berachain] true 0 []).
  simpl. repeat constructor.
Defined.

(** ** Processed blocks: marks, batches and the queries *)
Section BlockQueryProperties.
Import ProcessedBlocksService ProcessedBlocksQueries BlockLedgerSpec.

Lemma minOf_le_start n ns : minOf n ns <= n.
Proof.
  unfold minOf. revert n. induction ns as [|k r IH]; intros n; simpl; [lia|].
  specialize (IH (Z.min n k)). lia.
Qed.

Lemma maxOf_ge_start n ns : n <= maxOf n ns.
Proof.
  unfold maxOf. revert n. induction ns as [|k r IH]; intros n; simpl; [lia|].
  specialize (IH (Z.max n k)). lia.
Qed.

Lemma minOf_mono n n' ns : n <= n' -> minOf n ns <= minOf n' ns.
Proof.
  unfold minOf. revert n n'. induction ns as [|k r IH]; intros n n' H; simpl;
    [exact H|].
  apply IH. lia.
Qed.

Lemma maxOf_mono n n' ns : n <= n' -> maxOf n ns <= maxOf n' ns.
Proof.
  unfold maxOf. revert n n'. induction ns as [|k r IH]; intros n n' H; simpl;
    [exact H|].
  apply IH. lia.
Qed.

(** Every number of the list lies in the span the update and the batch
    query use. *)
Lemma span_covers n ns k :
  k ∈ n :: ns -> minOf n ns <= k <= maxOf n ns.
Proof.
  revert n. induction ns as [|m r IH]; intros n Hk.
  - apply list_elem_of_singleton in Hk. subst k. unfold minOf, maxOf.
    simpl. lia.
  - apply elem_of_cons in Hk as [->|Hk].
    + split; [apply minOf_le_start|apply maxOf_ge_start].
    + change (minOf n (m :: r)) with (minOf (Z.min n m) r).
      change (maxOf n (m :: r)) with (maxOf (Z.max n m) r).
      apply elem_of_cons in Hk as [->|Hk].
      * pose proof (minOf_le_start (Z.min n m) r).
        pose proof (maxOf_ge_start (Z.max n m) r). lia.
      * destruct (IH m (list_elem_of_further _ _ _ Hk)) as [Hlo Hhi].
        pose proof (minOf_mono (Z.min n m) m r ltac:(lia)).
        pose proof (maxOf_mono m (Z.max n m) r ltac:(lia)). lia.
Qed.

Lemma count_map {A} (p : A -> bool) (f : A -> A) (l : list A) :
  List.filter p (map f l) = map f (List.filter (fun x => p (f x)) l).
Proof.
  induction l as [|x r IH]; simpl; [reflexivity|].
  destruct (p (f x)); simpl; now rewrite IH.
Qed.

Lemma filter_ext_in {A} (p q : A -> bool) (l : list A) :
  (forall x, x ∈ l -> p x = q x) -> List.filter p l = List.filter q l.
Proof.
  induction l as [|x r IH]; intros H; [reflexivity|]. simpl.
  rewrite (H x) by apply list_elem_of_here.
  rewrite IH; [reflexivity|].
  intros y Hy. apply H. now apply list_elem_of_further.
Qed.

Lemma isBlockProcessed_iff repository chain m :
  isBlockProcessed repository chain m = true
  <-> exists r, r ∈ repository /\ live chain r = true /\ blockNumber r = m.
Proof.
  unfold isBlockProcessed, live. split.
  - intros H. apply Nat.ltb_lt in H.
    destruct (List.filter _ repository) as [|r l] eqn:E; [simpl in H; lia|].
    assert (Hr : r ∈ List.filter
                       (fun r => (chainId r =? chain)
                                 && (blockNumber r =? m)
                                 && negb (isReorged r)) repository)
      by (rewrite E; apply list_elem_of_here).
    apply list_elem_of_In, filter_In in Hr as [Hin Hp].
    apply list_elem_of_In in Hin.
    exists r. split; [exact Hin|].
    apply andb_true_iff in Hp as [Hp Hre].
    apply andb_true_iff in Hp as [Hc Hb].
    rewrite Hc, Hre. split; [reflexivity|]. now apply Z.eqb_eq.
  - intros (r & Hin & Hl & Hb). apply Nat.ltb_lt.
    assert (Hr : r ∈ List.filter
                       (fun r => (chainId r =? chain)
                                 && (blockNumber r =? m)
                                 && negb (isReorged r)) repository).
    { apply list_elem_of_In, filter_In. split; [now apply list_elem_of_In|].
      apply andb_true_iff in Hl as [Hc Hre].
      rewrite Hc, Hre. apply Z.eqb_eq in Hb. now rewrite Hb. }
    destruct (List.filter _ repository); [inversion Hr|simpl; lia].
Qed.

Lemma mapGet_mapSet_eq k v m : mapGet k (mapSet k v m) = Some v.
Proof.
  induction m as [|[k' v'] r IH]; simpl.
  - now rewrite Z.eqb_refl.
  - destruct (k' =? k) eqn:E; simpl; rewrite E; auto.
Qed.

Lemma mapGet_mapSet_ne k k' v m :
  k <> k' -> mapGet k' (mapSet k v m) = mapGet k' m.
Proof.
  intros Hne. induction m as [|[k0 v0] r IH]; simpl.
  - destruct (Z.eqb_spec k k'); [contradiction|reflexivity].
  - destruct (Z.eqb_spec k0 k) as [->|Hk]; simpl.
    + destruct (Z.eqb_spec k k'); [contradiction|reflexivity].
    + destruct (k0 =? k'); [reflexivity|exact IH].
Qed.

Lemma mapGet_fold (g : Z -> bool) (l : list Z) :
  forall m k,
    mapGet k (fold_left (fun result n => mapSet n (g n) result) l m)
    = if existsb (Z.eqb k) l then Some (g k) else mapGet k m.
Proof.
  induction l as [|n r IH]; intros m k; simpl; [reflexivity|].
  rewrite IH. destruct (existsb (Z.eqb k) r); [now rewrite orb_true_r|].
  rewrite orb_false_r. destruct (Z.eqb_spec k n) as [->|Hne].
  - apply mapGet_mapSet_eq.
  - apply mapGet_mapSet_ne. congruence.
Qed.

Lemma existsb_eqb_elem (k : Z) (l : list Z) :
  existsb (Z.eqb k) l = true <-> k ∈ l.
Proof.
  rewrite existsb_exists. split.
  - intros (x & Hx & He). apply Z.eqb_eq in He. subst x.
    now apply list_elem_of_In.
  - intros H. exists k. split; [now apply list_elem_of_In|apply Z.eqb_refl].
Qed.

Lemma processedSet_has repository chain lo hi m :
  lo <= m <= hi ->
  existsb (Z.eqb m)
    (map blockNumber
       (List.filter
          (fun r => (chainId r =? chain) && (lo <=? blockNumber r)
                    && (blockNumber r <=? hi) && negb (isReorged r))
          repository))
  = isBlockProcessed repository chain m.
Proof.
  intros Hm. apply eq_true_iff_eq.
  rewrite existsb_eqb_elem, isBlockProcessed_iff, list_elem_of_fmap.
  unfold live. split.
  - intros (r & -> & Hr). apply list_elem_of_In, filter_In in Hr as [Hin Hp].
    exists r. split; [now apply list_elem_of_In|].
    apply andb_true_iff in Hp as [Hp Hre].
    apply andb_true_iff in Hp as [Hp _].
    apply andb_true_iff in Hp as [Hc _].
    now rewrite Hc, Hre.
  - intros (r & Hin & Hl & Hb). exists r. split; [now symmetry|].
    apply list_elem_of_In, filter_In. split; [now apply list_elem_of_In|].
    apply andb_true_iff in Hl as [Hc Hre]. rewrite Hc, Hre, Hb.
    destruct (Z.leb_spec lo m); [|lia].
    destruct (Z.leb_spec m hi); [reflexivity|lia].
Qed.

Lemma marked_row (r : ProcessedBlock) (chain lo hi other m : Z) :
  let marked :=
    (chainId r =? chain) && (lo <=? blockNumber r) && (blockNumber r <=? hi) in
  let r' := if marked then setReorged r else r in
  (chainId r' =? other) && (blockNumber r' =? m) && negb (isReorged r')
  = (chainId r =? other) && (blockNumber r =? m) && negb (isReorged r)
    && negb marked.
Proof.
  intros marked r'. subst r'. destruct marked; simpl.
  - now rewrite !andb_false_r.
  - now rewrite andb_true_r.
Qed.

End BlockQueryProperties.

(** X14: [markBlocksAsReorged] marks the whole span from the least to
    the greatest number of its list, the numbers between them that are
    not in the list included: afterwards no block of the span counts as
    processed on the chain, while the blocks outside the span and the
    blocks of the other chains count as before. *)
Theorem X14_reorg_mark_covers_the_whole_span
    (repository : list ProcessedBlocksService.ProcessedBlock)
    (chain n : Z) (ns : list Z) (m : Z) :
  let lo := ProcessedBlocksService.minOf n ns in
  let hi := ProcessedBlocksService.maxOf n ns in
  let repository' :=
    ProcessedBlocksService.markBlocksAsReorged repository chain (n :: ns) in
  (forall k, k ∈ n :: ns -> lo <= k <= hi)
  /\ (lo <= m <= hi ->
      ProcessedBlocksQueries.isBlockProcessed repository' chain m = false)
  /\ (~ lo <= m <= hi ->
      ProcessedBlocksQueries.isBlockProcessed repository' chain m
      = ProcessedBlocksQueries.isBlockProcessed repository chain m)
  /\ (forall other,
        other <> chain ->
        ProcessedBlocksQueries.isBlockProcessed repository' other m
        = ProcessedBlocksQueries.isBlockProcessed repository other m).
Proof.
  intros lo hi repository'.
  split; [intros k Hk; now apply span_covers|].
  subst repository'. unfold ProcessedBlocksService.markBlocksAsReorged.
  fold lo hi. unfold ProcessedBlocksQueries.isBlockProcessed.
  rewrite !count_map, !length_map.
  split; [|split].
  - intros Hm. rewrite (filter_nothing _ repository); [reflexivity|].
    intros r _. rewrite marked_row.
    destruct (Z.eqb_spec (ProcessedBlocksService.chainId r) chain);
      simpl; [|reflexivity].
    destruct (Z.eqb_spec (ProcessedBlocksService.blockNumber r) m) as [Hb|Hb];
      simpl; [|reflexivity].
    rewrite Hb.
    destruct (Z.leb_spec lo m); [|lia].
    destruct (Z.leb_spec m hi); [|lia].
    simpl. apply andb_false_r.
  - intros Hm. f_equal. f_equal. apply filter_ext_in. intros r _.
    rewrite marked_row.
    destruct (Z.eqb_spec (ProcessedBlocksService.chainId r) chain);
      simpl; [|reflexivity].
    destruct (Z.eqb_spec (ProcessedBlocksService.blockNumber r) m) as [Hb|Hb];
      simpl; [|reflexivity].
    rewrite Hb.
    destruct (Z.leb_spec lo m); simpl; [|apply andb_true_r].
    destruct (Z.leb_spec m hi); simpl; [lia|apply andb_true_r].
  - intros other Hother. rewrite count_map, length_map.
    f_equal. f_equal. apply filter_ext_in. intros r _.
    rewrite marked_row.
    destruct (Z.eqb_spec (ProcessedBlocksService.chainId r) other) as [Hc|Hc];
      simpl; [|reflexivity].
    destruct (Z.eqb_spec (ProcessedBlocksService.chainId r) chain);
      [congruence|]. simpl. apply andb_true_r.
Qed.

(** X15: a block that is added counts as processed; adding blocks in a
    batch is adding them one by one; and the batch query gives, for each
    number asked, the answer of the single query, and no entry for a
    number that was not asked. *)
Theorem X15_block_queries_agree
    (repository : list ProcessedBlocksService.ProcessedBlock) (chain : Z)
    (block : ProcessedBlocksService.Block)
    (blocks : list ProcessedBlocksService.Block) (blockNumbers : list Z)
    (m : Z) :
  ProcessedBlocksQueries.isBlockProcessed
    (ProcessedBlocksService.addBlock repository chain block) chain
    (ProcessedBlocksService.number block) = true
  /\ ProcessedBlocksQueries.addBlocks repository chain blocks
     = fold_left (fun rows b => ProcessedBlocksService.addBlock rows chain b)
         blocks repository
  /\ ProcessedBlocksQueries.mapGet m
       (ProcessedBlocksQueries.areBlocksProcessed repository chain
          blockNumbers)
     = (if existsb (Z.eqb m) blockNumbers
        then Some (ProcessedBlocksQueries.isBlockProcessed repository chain m)
        else None).
Proof.
  split; [|split].
  - apply isBlockProcessed_iff. eexists. split.
    + unfold ProcessedBlocksService.addBlock. apply elem_of_app. right.
      apply list_elem_of_here.
    + unfold BlockLedgerSpec.live. simpl. now rewrite Z.eqb_refl.
  - unfold ProcessedBlocksQueries.addBlocks.
    assert (H : forall rows,
              fold_left
                (fun rows b => ProcessedBlocksService.addBlock rows chain b)
                blocks rows
              = rows
                  ++ map (fun b =>
                            ProcessedBlocksService.mkProcessedBlock chain
                              (ProcessedBlocksService.number b)
                              (ProcessedBlocksService.hash b)
                              (ProcessedBlocksService.b_parentHash b) false)
                         blocks).
    { induction blocks as [|b r IH]; intros rows; simpl.
      - now rewrite app_nil_r.
      - rewrite IH. unfold ProcessedBlocksService.addBlock.
        now rewrite <- app_assoc. }
    rewrite H. destruct blocks; [now rewrite app_nil_r|reflexivity].
  - unfold ProcessedBlocksQueries.areBlocksProcessed.
    destruct blockNumbers as [|n ns]; [reflexivity|].
    rewrite mapGet_fold.
    destruct (existsb (Z.eqb m) (n :: ns)) eqn:E; [|reflexivity].
    f_equal. apply processedSet_has. apply span_covers.
    now apply existsb_eqb_elem.
Qed.

(** X16: the statistics of a chain.  The two counts add up to the rows
    of the chain.  The latest block, when one is given, is the greatest
    block number that counts as processed, and it is not zero; when
    none is given, no block above zero counts as processed: a chain
    whose only processed block is block 0 reads as one without a latest
    block. *)
Theorem X16_statistics_of_a_chain
    (repository : list ProcessedBlocksService.ProcessedBlock) (chain : Z) :
  let stats := ProcessedBlocksQueries.getProcessingStats repository chain in
  (ProcessedBlocksQueries.totalProcessed stats
   + ProcessedBlocksQueries.reorgedCount stats
   = length (List.filter
               (fun r => (ProcessedBlocksService.chainId r =? chain)%Z)
               repository))%nat
  /\ (forall n,
        ProcessedBlocksQueries.latestBlock stats = Some n ->
        n <> 0
        /\ ProcessedBlocksQueries.isBlockProcessed repository chain n = true
        /\ forall m,
             ProcessedBlocksQueries.isBlockProcessed repository chain m = true ->
             m <= n)
  /\ (ProcessedBlocksQueries.latestBlock stats = None ->
      forall m,
        ProcessedBlocksQueries.isBlockProcessed repository chain m = true ->
        m <= 0).
Proof.
  intros stats. subst stats. unfold ProcessedBlocksQueries.getProcessingStats.
  cbn [ProcessedBlocksQueries.totalProcessed
         ProcessedBlocksQueries.reorgedCount
         ProcessedBlocksQueries.latestBlock].
  split; [|split].
  - induction repository as [|r l IH]; [reflexivity|]. simpl.
    destruct (ProcessedBlocksService.chainId r =? chain);
      destruct (ProcessedBlocksService.isReorged r); simpl; lia.
  - intros n Hn.
    pose proof (scan_latest (BlockLedgerSpec.live chain)
                  ProcessedBlocksService.blockNumber repository) as Hscan.
    change (fold_left (Scan.laterBy (BlockLedgerSpec.live chain)
                         ProcessedBlocksService.blockNumber) repository None)
      with (ProcessedBlocksService.getLatestProcessedBlock repository chain)
      in Hscan.
    destruct (ProcessedBlocksService.getLatestProcessedBlock repository chain)
      as [x|]; [|discriminate].
    destruct Hscan as (Hx & Hl & Htop).
    destruct (Z.eqb_spec (ProcessedBlocksService.blockNumber x) 0);
      [discriminate|].
    inversion Hn; subst n. split; [assumption|]. split.
    + apply isBlockProcessed_iff. eauto.
    + intros m Hm. apply isBlockProcessed_iff in Hm as (r & Hr & Hlr & <-).
      now apply Htop.
  - intros Hnone m Hm.
    apply isBlockProcessed_iff in Hm as (r & Hr & Hlr & <-).
    destruct (latest_of_live repository chain r Hr Hlr)
      as (x & Hx & Hle & _).
    rewrite Hx in Hnone.
    destruct (Z.eqb_spec (ProcessedBlocksService.blockNumber x) 0);
      [lia|discriminate].
Qed.

(** ** The bloom filter *)
Section BloomProperties.
Import EventsService EventsProcessor.

Lemma position_in_range b str i :
  wellFormed b -> (position b str i < length (filter_ b))%nat.
Proof.
  intros [Hpos Hsize]. unfold position.
  pose proof (Z.mod_pos_bound (hash str (Z.of_nat i)) (size b) Hpos). lia.
Qed.

Lemma add_shape b str :
  size (add b str) = size b /\ hashFunctions (add b str) = hashFunctions b
  /\ length (filter_ (add b str)) = length (filter_ b).
Proof.
  unfold add. cbn [size hashFunctions filter_]. repeat split.
  generalize (filter_ b). induction (seq 0 (hashFunctions b)) as [|i r IH];
    intros f; simpl; [reflexivity|].
  rewrite IH. apply length_insert.
Qed.

Lemma adds_shape (strs : list string) :
  forall b,
    size (fold_left add strs b) = size b
    /\ hashFunctions (fold_left add strs b) = hashFunctions b
    /\ length (filter_ (fold_left add strs b)) = length (filter_ b).
Proof.
  induction strs as [|s r IH]; intros b; simpl; [repeat split|].
  destruct (IH (add b s)) as (H1 & H2 & H3).
  destruct (add_shape b s) as (H4 & H5 & H6).
  rewrite H1, H2, H3. repeat split; assumption.
Qed.

Lemma adds_mightContain (strs : list string) :
  forall b s, s ∈ strs -> mightContain (fold_left add strs b) s = true.
Proof.
  induction strs as [|x r IH]; intros b s Hs; [inversion Hs|].
  simpl. apply elem_of_cons in Hs as [->|Hs]; [|now apply IH].
  clear IH. generalize (add_mightContain_self b x).
  generalize (add b x). induction r as [|y r IH]; intros b' H; simpl;
    [exact H|].
  apply IH. now apply add_mightContain_keeps.
Qed.

End BloomProperties.

(** X17: in a bloom filter as the constructor builds it (a positive
    size and an array of that size) every position [add] and
    [mightContain] compute lies inside the array, and [add] keeps the
    size, the number of hash functions and the length of the array. *)
Theorem X17_bloom_positions_stay_inside_the_array
    (b : EventsService.BloomFilter) (strs : list string) (str : string)
    (i : nat) :
  EventsProcessor.wellFormed b ->
  let b' := fold_left EventsService.add strs b in
  EventsProcessor.wellFormed b'
  /\ (EventsService.position b' str i
      < length (EventsService.filter_ b'))%nat
  /\ length (EventsService.filter_ b') = length (EventsService.filter_ b).
Proof.
  intros Hwf b'.
  destruct (adds_shape strs b) as (Hs & _ & Hl). fold b' in Hs, Hl.
  assert (Hwf' : EventsProcessor.wellFormed b').
  { destruct Hwf as [Hpos Hsize]. split; [now rewrite Hs|].
    now rewrite Hs, Hl. }
  split; [exact Hwf'|]. split; [now apply position_in_range|exact Hl].
Qed.

Lemma X17_witness :
  EventsProcessor.wellFormed
    (fold_left EventsService.add ["0xddf2"; "0x76fb"]
       EventsService.newBloomFilter)
  /\ (EventsService.position
        (fold_left EventsService.add ["0xddf2"; "0x76fb"]
           EventsService.newBloomFilter) "0xe261" 2
      < length (EventsService.filter_
                  (fold_left EventsService.add ["0xddf2"; "0x76fb"]
                     EventsService.newBloomFilter)))%nat
  /\ length (EventsService.filter_
               (fold_left EventsService.add ["0xddf2"; "0x76fb"]
                  EventsService.newBloomFilter))
     = length (EventsService.filter_ EventsService.newBloomFilter).
Proof.
  apply (X17_bloom_positions_stay_inside_the_array
           EventsService.newBloomFilter ["0xddf2"; "0x76fb"] "0xe261" 2).
  split; [reflexivity|]. reflexivity.
Defined.

(** X18: the bloom filter has no false negatives, and [clear] forgets:
    every string added since the last [clear] is reported as possibly
    contained, whatever else was added, and right after [clear] no
    string is (the filter being as the constructor builds it, with at
    least one hash function). *)
Theorem X18_bloom_no_false_negative_and_clear_forgets
    (b : EventsService.BloomFilter) (strs : list string) (str : string) :
  EventsProcessor.wellFormed b ->
  (0 < EventsService.hashFunctions b)%nat ->
  (str ∈ strs ->
   EventsService.mightContain
     (fold_left EventsService.add strs (EventsService.clear b)) str = true)
  /\ EventsService.mightContain
       (EventsService.clear (fold_left EventsService.add strs b)) str
     = false.
Proof.
  intros Hwf Hk. split; [apply adds_mightContain|].
  destruct (adds_shape strs b) as (Hs & Hh & Hl).
  set (b' := fold_left EventsService.add strs b) in *.
  assert (Hwf' : EventsProcessor.wellFormed b').
  { destruct Hwf as [Hpos Hsize]. split; [now rewrite Hs|].
    now rewrite Hs, Hl. }
  unfold EventsService.mightContain, EventsService.clear.
  cbn [EventsService.hashFunctions EventsService.filter_].
  rewrite Hh. destruct (EventsService.hashFunctions b) as [|k]; [lia|].
  change (seq 0 (S k)) with (0%nat :: seq 1 k). cbn [forallb].
  replace (EventsService.position _ str 0)
    with (EventsService.position b' str 0) by reflexivity.
  rewrite lookup_replicate_2 by now apply position_in_range.
  reflexivity.
Qed.

Lemma X18_witness :
  EventsService.mightContain
    (fold_left EventsService.add ["0xddf2"; "0x76fb"]
       (EventsService.clear EventsService.newBloomFilter)) "0x76fb" = true
  /\ EventsService.mightContain
       (EventsService.clear
          (fold_left EventsService.add ["0xddf2"; "0x76fb"]
             EventsService.newBloomFilter)) "0x76fb" = false.
Proof.
  destruct (X18_bloom_no_false_negative_and_clear_forgets
              EventsService.newBloomFilter ["0xddf2"; "0x76fb"] "0x76fb")
    as [Hin Hout].
  - split; reflexivity.
  - simpl. lia.
  - split; [|exact Hout]. apply Hin. apply list_elem_of_further.
    apply list_elem_of_here.
Defined.

(** ** The settings of the processor *)
Section ProcessorProperties.
Import EventsService EventsProcessor.
Context {Rate : Type} (averageBelowTenth : list Rate -> bool).

Lemma maybeAdjustConcurrency_bounds now (p : Processor Rate) :
  let p' := maybeAdjustConcurrency averageBelowTenth now p in
  minConcurrentLimit p' = minConcurrentLimit p
  /\ maxConcurrentLimit p' = maxConcurrentLimit p
  /\ cacheSize p' = cacheSize p
  /\ (minConcurrentLimit p <= concurrentLimit p <= maxConcurrentLimit p ->
      minConcurrentLimit p <= concurrentLimit p' <= maxConcurrentLimit p).
Proof.
  unfold maybeAdjustConcurrency.
  destruct (negb (enableDynamicConcurrency p)); [simpl; intuition lia|].
  destruct (_ <? adjustmentInterval _); [simpl; intuition lia|].
  destruct (_ <? 5)%nat; [simpl; intuition lia|].
  destruct (_ && _); [simpl; intuition lia|].
  destruct (5000 * _ <? _); [simpl; intuition lia|].
  destruct (2000 * _ <? _); simpl; intuition lia.
Qed.

Lemma step_bounds (p : Processor Rate) (c : Call Rate) :
  minConcurrentLimit p <= maxConcurrentLimit p ->
  let p' := step averageBelowTenth p c in
  minConcurrentLimit p' = minConcurrentLimit p
  /\ maxConcurrentLimit p' = maxConcurrentLimit p
  /\ (minConcurrentLimit p <= concurrentLimit p <= maxConcurrentLimit p ->
      minConcurrentLimit p <= concurrentLimit p' <= maxConcurrentLimit p).
Proof.
  intros Hmm. destruct c as [t r now|limit|enable|size_]; simpl.
  - match goal with
    | |- context [maybeAdjustConcurrency _ now ?q] =>
        destruct (maybeAdjustConcurrency_bounds now q)
          as (H1 & H2 & _ & H3)
    end.
    simpl in *. rewrite H1, H2. repeat split; tauto.
  - repeat split; lia.
  - repeat split; lia.
  - repeat split; lia.
Qed.

(** The window after a push. *)
Lemma window_step {A} (all times : list A) (W : nat) (x : A) :
  times = drop (length all - W) all ->
  (if (W <? length (times ++ [x]))%nat then tail (times ++ [x])
   else times ++ [x])
  = drop (length (all ++ [x]) - W) (all ++ [x]).
Proof.
  intros ->. rewrite !length_app, length_drop. simpl.
  destruct (Nat.ltb_spec W (length all - (length all - W) + 1)) as [Hlt|Hge].
  - replace (length all + 1 - W)%nat with (length all - W + 1)%nat by lia.
    rewrite <- (drop_drop (all ++ [x]) 1 (length all - W)).
    rewrite drop_app_le by lia. now destruct (drop _ all ++ [x]).
  - replace (length all - W)%nat with 0%nat by lia.
    replace (length all + 1 - W)%nat with 0%nat by lia. reflexivity.
Qed.

Lemma update_window (samples : list (Z * Rate)) :
  forall (m : PerformanceMetrics Rate) (seenTimes : list Z)
         (seenRates : list Rate),
    processingTimes m
    = drop (length seenTimes - Z.to_nat (metricsWindow m)) seenTimes ->
    successRates m
    = drop (length seenRates - Z.to_nat (metricsWindow m)) seenRates ->
    length seenTimes = length seenRates ->
    let m' :=
      fold_left (fun acc s => updatePerformanceMetrics acc (fst s) (snd s))
        samples m in
    let allTimes := seenTimes ++ map fst samples in
    let allRates := seenRates ++ map snd samples in
    metricsWindow m' = metricsWindow m
    /\ processingTimes m'
       = drop (length allTimes - Z.to_nat (metricsWindow m)) allTimes
    /\ successRates m'
       = drop (length allRates - Z.to_nat (metricsWindow m)) allRates.
Proof.
  induction samples as [|[t r] rest IH]; intros m seenTimes seenRates Ht Hr Hl.
  - simpl. rewrite !app_nil_r. auto.
  - cbn [fold_left map fst snd].
    assert (Hcmp : (metricsWindow m
                    <? Z.of_nat (length (processingTimes m ++ [t])))
                   = (Z.to_nat (metricsWindow m)
                      <? length (processingTimes m ++ [t]))%nat).
    { rewrite length_app. simpl.
      destruct (Z.ltb_spec (metricsWindow m)
                  (Z.of_nat (length (processingTimes m) + 1)));
        destruct (Nat.ltb_spec (Z.to_nat (metricsWindow m))
                    (length (processingTimes m) + 1)); try reflexivity; lia. }
    assert (Hlen : length (successRates m ++ [r])
                   = length (processingTimes m ++ [t])).
    { rewrite !length_app, Ht, Hr, !length_drop, Hl. reflexivity. }
    pose proof (window_step seenTimes (processingTimes m)
                  (Z.to_nat (metricsWindow m)) t Ht) as Wt.
    pose proof (window_step seenRates (successRates m)
                  (Z.to_nat (metricsWindow m)) r Hr) as Wr.
    rewrite Hlen in Wr.
    assert (Hstep :
              metricsWindow (updatePerformanceMetrics m t r) = metricsWindow m
              /\ processingTimes (updatePerformanceMetrics m t r)
                 = drop (length (seenTimes ++ [t])
                         - Z.to_nat (metricsWindow m)) (seenTimes ++ [t])
              /\ successRates (updatePerformanceMetrics m t r)
                 = drop (length (seenRates ++ [r])
                         - Z.to_nat (metricsWindow m)) (seenRates ++ [r])).
    { unfold updatePerformanceMetrics. rewrite Hcmp.
      destruct (Z.to_nat (metricsWindow m)
                <? length (processingTimes m ++ [t]))%nat;
        cbn [processingTimes successRates metricsWindow];
        split; try reflexivity; split; assumption. }
    destruct Hstep as (Hw1 & Ht1 & Hr1).
    destruct (IH (updatePerformanceMetrics m t r) (seenTimes ++ [t])
                (seenRates ++ [r])) as (H1 & H2 & H3).
    + rewrite Hw1. exact Ht1.
    + rewrite Hw1. exact Hr1.
    + rewrite !length_app. simpl. lia.
    + rewrite Hw1 in H1, H2, H3.
      rewrite <- !app_assoc in H2, H3. simpl in H2, H3. auto.
Qed.

End ProcessorProperties.

(** X19: with [minConcurrentLimit <= maxConcurrentLimit], the
    concurrency limit never leaves the range of the two once it is in
    it, whatever blocks are processed and whatever setters are called,
    and the two bounds never change; [setConcurrentLimit] brings any
    limit into the range. *)
Theorem X19_concurrency_limit_stays_in_range
    (Rate : Type) (averageBelowTenth : list Rate -> bool)
    (p : EventsProcessor.Processor Rate)
    (calls : list (EventsProcessor.Call Rate)) (limit : Z) :
  EventsProcessor.minConcurrentLimit p <= EventsProcessor.maxConcurrentLimit p ->
  let p' := EventsProcessor.run averageBelowTenth p calls in
  EventsProcessor.minConcurrentLimit p' = EventsProcessor.minConcurrentLimit p
  /\ EventsProcessor.maxConcurrentLimit p'
     = EventsProcessor.maxConcurrentLimit p
  /\ (EventsProcessor.minConcurrentLimit p <= EventsProcessor.concurrentLimit p
      <= EventsProcessor.maxConcurrentLimit p ->
      EventsProcessor.minConcurrentLimit p
      <= EventsProcessor.concurrentLimit p'
      <= EventsProcessor.maxConcurrentLimit p)
  /\ EventsProcessor.minConcurrentLimit p
     <= EventsProcessor.concurrentLimit
          (EventsProcessor.setConcurrentLimit limit p')
     <= EventsProcessor.maxConcurrentLimit p.
Proof.
  intros Hmm p'. subst p'. unfold EventsProcessor.run.
  revert p Hmm. induction calls as [|c rest IH]; intros p Hmm.
  - simpl. repeat split; try tauto; lia.
  - simpl.
    destruct (step_bounds averageBelowTenth p c Hmm) as (H1 & H2 & H3).
    destruct (IH (EventsProcessor.step averageBelowTenth p c))
      as (I1 & I2 & I3 & I4); [rewrite H1, H2; exact Hmm|].
    rewrite H1, H2 in *. repeat split; try tauto; try lia;
      apply I3; tauto.
Qed.

Lemma X19_witness :
  5 <= EventsProcessor.concurrentLimit
         (EventsProcessor.run (fun _ : list nat => true)
            (EventsProcessor.defaultProcessor 0)
            [EventsProcessor.BlockProcessed 10 0%nat 1;
             EventsProcessor.BlockProcessed 10 0%nat 2;
             EventsProcessor.BlockProcessed 10 0%nat 3;
             EventsProcessor.BlockProcessed 10 0%nat 4;
             EventsProcessor.BlockProcessed 10 0%nat 70000;
             EventsProcessor.SetConcurrentLimit 500])
       <= 50.
Proof.
  refine (proj1 (proj2 (proj2
            (X19_concurrency_limit_stays_in_range nat (fun _ => true)
               (EventsProcessor.defaultProcessor 0)
               [EventsProcessor.BlockProcessed 10 0%nat 1;
                EventsProcessor.BlockProcessed 10 0%nat 2;
                EventsProcessor.BlockProcessed 10 0%nat 3;
                EventsProcessor.BlockProcessed 10 0%nat 4;
                EventsProcessor.BlockProcessed 10 0%nat 70000;
                EventsProcessor.SetConcurrentLimit 500] 0 _))) _);
    simpl; lia.
Defined.

(** X20: the metrics are a sliding window: after any number of samples
    pushed into empty metrics, the processing times and the success
    rates held are the last [metricsWindow] samples, in order (none when
    the window is zero or negative). *)
Theorem X20_metrics_hold_the_last_window
    (Rate : Type) (samples : list (Z * Rate))
    (lastAdjustmentTime adjustmentInterval metricsWindow : Z) :
  let m :=
    fold_left
      (fun acc s =>
         EventsProcessor.updatePerformanceMetrics acc (fst s) (snd s))
      samples
      (EventsProcessor.mkMetrics [] [] lastAdjustmentTime adjustmentInterval
         metricsWindow) in
  let dropped := (length samples - Z.to_nat metricsWindow)%nat in
  EventsProcessor.processingTimes m = map fst (drop dropped samples)
  /\ EventsProcessor.successRates m = map snd (drop dropped samples)
  /\ (length (EventsProcessor.processingTimes m)
      <= Z.to_nat metricsWindow)%nat.
Proof.
  intros m dropped.
  destruct (update_window samples
              (EventsProcessor.mkMetrics [] [] lastAdjustmentTime
                 adjustmentInterval metricsWindow) [] [])
    as (_ & Ht & Hr); try reflexivity.
  fold m in Ht, Hr. simpl in Ht, Hr.
  rewrite length_map in Ht, Hr. fold dropped in Ht, Hr.
  rewrite Ht, Hr, <- !fmap_drop. repeat split.
  rewrite length_map, length_drop. subst dropped. lia.
Qed.

(** ** The receipt cache and the receipt test *)
Section CacheProperties.
Import EventsService EventsProcessor.

Lemma cacheGet_cacheSet k v (cache : Cache) :
  cacheGet k (cacheSet k v cache) = Some v.
Proof.
  unfold cacheGet. induction cache as [|[k' v'] r IH]; simpl.
  - now rewrite String.eqb_refl.
  - destruct (String.eqb k' k) eqn:E; simpl; rewrite E; auto.
Qed.

Lemma setAdd_NoDup (s : list string) x : NoDup s -> NoDup (setAdd s x).
Proof.
  intros Hs. unfold setAdd. destruct (has s x) eqn:E; [exact Hs|].
  apply NoDup_app. split; [exact Hs|]. split; [|apply NoDup_singleton].
  intros y Hy Hx. apply list_elem_of_singleton in Hx. subst y.
  apply has_spec in Hy. congruence.
Qed.

Lemma matchingTopics_NoDup bloom hashes (logs : list Log) :
  NoDup (matchingTopics bloom hashes logs).
Proof.
  unfold matchingTopics.
  assert (H : forall acc, NoDup acc ->
            NoDup (fold_left
                     (fun acc log =>
                        if logMatches bloom hashes log
                        then match topics log with
                             | t :: _ => setAdd acc (Js.toLowerCase t)
                             | [] => acc
                             end
                        else acc) logs acc)).
  { induction logs as [|log rest IH]; intros acc Hacc; simpl; [exact Hacc|].
    apply IH. destruct (logMatches bloom hashes log); [|exact Hacc].
    destruct (topics log); [exact Hacc|now apply setAdd_NoDup]. }
  apply H. apply NoDup_nil. exact I.
Qed.

Lemma filter_sublist {A} (f : A -> bool) (l : list A) :
  List.filter f l `sublist_of` l.
Proof.
  induction l as [|x r IH]; simpl; [constructor|].
  destruct (f x); [now apply sublist_skip|now apply sublist_cons].
Qed.

End CacheProperties.

(** X21: pruning keeps the newest entries of the cache, in order.  With
    a cache size of at least 2 the cache is never left longer than the
    size, and a cache that was over the size is cut to three quarters
    of it (rounded down); with a cache size of 0 or 1 the number of
    entries to keep rounds down to zero, [slice(-0)] takes every entry,
    and nothing is ever evicted.  [setCacheSize] keeps the size between
    100 and 10000. *)
Theorem X21_pruning_keeps_the_newest_entries
    (cacheSize : Z) (cache : EventsProcessor.Cache) :
  let pruned := EventsProcessor.pruneIfOver cacheSize cache in
  (exists evicted, cache = evicted ++ pruned)
  /\ (2 <= cacheSize ->
      Z.of_nat (length pruned) <= cacheSize
      /\ (cacheSize < Z.of_nat (length cache) ->
          Z.of_nat (length pruned) = cacheSize * 3 / 4))
  /\ (0 <= cacheSize <= 1 -> pruned = cache)
  /\ (forall (Rate : Type) (p : EventsProcessor.Processor Rate) size_,
        100 <= EventsProcessor.cacheSize
                 (EventsProcessor.setCacheSize size_ p) <= 10000).
Proof.
  intros pruned. subst pruned.
  unfold EventsProcessor.pruneIfOver, EventsProcessor.pruneCache,
    EventsProcessor.sliceFrom.
  split; [|split; [|split]].
  - destruct (cacheSize <? _); [|now exists []].
    eexists. symmetry. apply take_drop.
  - intros Hc. destruct (Z.ltb_spec cacheSize (Z.of_nat (length cache)))
      as [Hover|Hfit]; [|split; lia].
    assert (Hq : 1 <= cacheSize * 3 / 4 <= cacheSize).
    { split.
      - apply Z.div_le_lower_bound; lia.
      - apply Z.div_le_upper_bound; lia. }
    destruct (Z.ltb_spec (- (cacheSize * 3 / 4)) 0); [|lia].
    rewrite length_drop. split; [lia|]. intros _. lia.
  - intros Hc.
    assert (Hq : cacheSize * 3 / 4 = 0).
    { apply Z.div_small. lia. }
    rewrite Hq. change (- 0) with 0. change (0 <? 0) with false. cbn iota.
    destruct (cacheSize <? _); [|reflexivity].
    replace (Z.to_nat (Z.min 0 (Z.of_nat (length cache)))) with 0%nat by lia.
    reflexivity.
  - intros Rate p size_. simpl. lia.
Qed.

(** X22: a transaction the receipt test emits lists each matched topic
    once, in lower case as it was added, and at least one; its logs are
    logs of the receipt, in the order of the receipt. *)
Theorem X22_emitted_transaction_topics_and_logs
    (chain : Z) (chainName : string) (bloom : EventsService.BloomFilter)
    (txHash : string) (receipt : EventsService.TransactionReceipt)
    (transaction : option EventsService.TransactionResponse)
    (hashes : list string) (ft : EventsService.FilteredTransaction) :
  EventsService.processReceiptFromCache chain chainName bloom txHash
    (Some receipt) transaction hashes = Some ft ->
  NoDup (EventsService.ft_topics ft)
  /\ EventsService.ft_topics ft <> []
  /\ (forall t, t ∈ EventsService.ft_topics ft -> t ∈ hashes)
  /\ EventsService.ft_logs ft `sublist_of` EventsService.r_logs receipt
  /\ EventsService.ft_hash ft = EventsService.r_hash receipt
  /\ EventsService.ft_chainId ft = chain.
Proof.
  unfold EventsService.processReceiptFromCache.
  destruct (EventsService.r_logs receipt) as [|l0 ls] eqn:El; [discriminate|].
  rewrite <- El.
  destruct (EventsService.matchingTopics bloom hashes
              (EventsService.r_logs receipt)) as [|t0 ts] eqn:Et;
    [discriminate|].
  intros [= <-]. cbn [EventsService.ft_topics EventsService.ft_logs
                      EventsService.ft_hash EventsService.ft_chainId].
  rewrite <- Et. split; [apply matchingTopics_NoDup|].
  split; [rewrite Et; discriminate|]. split.
  - intros t Ht. unfold EventsService.matchingTopics in Ht.
    apply matchingTopics_iff in Ht as [Ht|(log & t' & rest & _ & Hm & Htl & ->)];
      [inversion Ht|].
    unfold EventsService.logMatches in Hm. rewrite Htl in Hm.
    apply andb_true_iff in Hm as [_ Hm]. now apply has_spec.
  - split; [apply filter_sublist|]. split; reflexivity.
Qed.

Lemma X22_witness :
  exists ft,
    EventsService.processReceipt 80094 "berachain" EventsService.newBloomFilter
      [MatcherSpec.nftTransferFilter] "0xfeed"
      (Some EventsProcessor.sampleReceipt)
      (Some EventsProcessor.sampleResponse) = Some ft
    /\ NoDup (EventsService.ft_topics ft)
    /\ EventsService.ft_logs ft
       `sublist_of` EventsService.r_logs EventsProcessor.sampleReceipt.
Proof.
  eexists. split; [vm_compute; reflexivity|].
  match goal with
  | |- NoDup (EventsService.ft_topics ?f) /\ _ =>
      destruct (X22_emitted_transaction_topics_and_logs 80094 "berachain"
                  (EventsService.updateTopicBloomFilter
                     EventsService.newBloomFilter
                     [MatcherSpec.nftTransferFilter])
                  "0xfeed" EventsProcessor.sampleReceipt
                  (Some EventsProcessor.sampleResponse)
                  (EventsService.topicHashSet [MatcherSpec.nftTransferFilter])
                  f)
        as (H1 & _ & _ & H4 & _)
  end.
  - vm_compute. reflexivity.
  - split; [exact H1|exact H4].
Defined.

(** X23: the receipt cache spares the provider.  A transaction whose
    receipt is cached is answered from the cache, with no call.  After
    a first call that got the transaction from the provider, and its
    receipt unless the calldata is empty, a second call on the same
    hash gives the same answer without calling the provider again and
    leaves the state as it is; the first call made at most two calls. *)
Theorem X23_second_look_at_a_transaction_costs_no_call
    (chain : Z) (chainName : string) (bloom : EventsService.BloomFilter)
    (provider : EventsProcessor.Provider) (st : EventsProcessor.State)
    (txHash : string) (hashes : list string)
    (tx : EventsService.TransactionResponse) :
  EventsProcessor.cacheGet txHash (EventsProcessor.receiptCache st) = None ->
  EventsProcessor.getTransaction provider txHash = Some (Some tx) ->
  EventsProcessor.emptyData tx = true
  \/ (exists receipt,
        EventsProcessor.getTransactionReceipt provider txHash
        = Some (Some receipt)) ->
  let first :=
    EventsProcessor.processTransactionOptimized chain chainName bloom provider
      false st txHash hashes in
  let second :=
    EventsProcessor.processTransactionOptimized chain chainName bloom provider
      false (snd first) txHash hashes in
  second = first
  /\ EventsProcessor.rpcCallsCount st
     < EventsProcessor.rpcCallsCount (snd first)
     <= EventsProcessor.rpcCallsCount st + 2.
Proof.
  intros Hmiss Htx Hrc first second.
  destruct (EventsProcessor.emptyData tx) eqn:Eempty.
  - assert (Hfirst :
              first
              = (None,
                 EventsProcessor.mkState
                   (EventsProcessor.cacheSet txHash
                      (EventsProcessor.mkEntry None (Some tx))
                      (EventsProcessor.receiptCache st))
                   (EventsProcessor.rpcCallsCount st + 1))).
    { subst first. unfold EventsProcessor.processTransactionOptimized.
      rewrite Hmiss, Htx. cbn [mbind option_bind].
      now rewrite Eempty. }
    subst second. rewrite Hfirst. cbn [snd].
    split; [|cbn [EventsProcessor.rpcCallsCount]; lia].
    unfold EventsProcessor.processTransactionOptimized.
    cbn [EventsProcessor.receiptCache].
    rewrite cacheGet_cacheSet.
    cbn [mbind option_bind EventsProcessor.e_receipt
           EventsProcessor.e_transaction].
    now rewrite Eempty.
  - destruct Hrc as [Hrc|[receipt Hrc]]; [discriminate|].
    assert (Hfirst :
              first
              = (EventsService.processReceiptFromCache chain chainName bloom
                   txHash (Some receipt) (Some tx) hashes,
                 EventsProcessor.mkState
                   (EventsProcessor.cacheSet txHash
                      (EventsProcessor.mkEntry (Some receipt) (Some tx))
                      (EventsProcessor.receiptCache st))
                   (EventsProcessor.rpcCallsCount st + 1 + 1))).
    { subst first. unfold EventsProcessor.processTransactionOptimized.
      rewrite Hmiss, Htx. cbn [mbind option_bind].
      rewrite Eempty, Hrc. reflexivity. }
    subst second. rewrite Hfirst. cbn [snd].
    split; [|cbn [EventsProcessor.rpcCallsCount]; lia].
    unfold EventsProcessor.processTransactionOptimized.
    cbn [EventsProcessor.receiptCache].
    rewrite cacheGet_cacheSet.
    cbn [mbind option_bind EventsProcessor.e_receipt
           EventsProcessor.e_transaction].
    reflexivity.
Qed.

Lemma X23_witness :
  EventsProcessor.processTransactionOptimized 80094 "berachain"
    EventsService.newBloomFilter EventsProcessor.sampleProvider false
    (snd (EventsProcessor.processTransactionOptimized 80094 "berachain"
            EventsService.newBloomFilter EventsProcessor.sampleProvider false
            (EventsProcessor.mkState [] 0) "0xfeed" []))
    "0xfeed" []
  = EventsProcessor.processTransactionOptimized 80094 "berachain"
      EventsService.newBloomFilter EventsProcessor.sampleProvider false
      (EventsProcessor.mkState [] 0) "0xfeed" [].
Proof.
  refine (proj1 (X23_second_look_at_a_transaction_costs_no_call 80094
                   "berachain" EventsService.newBloomFilter
                   EventsProcessor.sampleProvider
                   (EventsProcessor.mkState [] 0) "0xfeed" []
                   EventsProcessor.sampleResponse _ _ _)).
  - reflexivity.
  - reflexivity.
  - right. eexists. reflexivity.
Defined.

(** ** The topic filters of the indexer *)
Section IndexerProperties.
Import EventsService Indexer.

Lemma sameHash_iff a b :
  sameHash a b = true <-> Js.toLowerCase a = Js.toLowerCase b.
Proof. unfold sameHash. apply String.eqb_eq. Qed.

Lemma exists_sameHash (fs : list TopicFilter) h :
  existsb (fun f => sameHash (tf_hash f) h) fs = true
  <-> Js.toLowerCase h ∈ hashesOf fs.
Proof.
  unfold hashesOf. rewrite existsb_exists, list_elem_of_fmap. split.
  - intros (f & Hf & Hs). apply sameHash_iff in Hs.
    exists f. split; [now symmetry|now apply list_elem_of_In].
  - intros (f & Hs & Hf). exists f.
    split; [now apply list_elem_of_In|]. apply sameHash_iff. now symmetry.
Qed.

Lemma removeTopicFilter_fresh (fs : list TopicFilter) h :
  Js.toLowerCase h ∉ hashesOf fs -> removeTopicFilter fs h = fs.
Proof.
  intros Hn. unfold removeTopicFilter. apply filter_all.
  intros f Hf. apply negb_true_iff. apply not_true_is_false. intros Hs.
  apply Hn. apply sameHash_iff in Hs. rewrite <- Hs.
  unfold hashesOf. apply list_elem_of_fmap. now exists f.
Qed.

Lemma hashesOf_remove_sub (fs : list TopicFilter) h x :
  x ∈ hashesOf (removeTopicFilter fs h) -> x ∈ hashesOf fs.
Proof.
  unfold hashesOf, removeTopicFilter. intros Hin.
  apply list_elem_of_fmap in Hin as (g & Hg & Hin).
  apply list_elem_of_In, filter_In in Hin as [Hin _].
  apply list_elem_of_fmap. exists g. split; [exact Hg|].
  now apply list_elem_of_In.
Qed.

Lemma hashesOf_remove_NoDup (fs : list TopicFilter) h :
  NoDup (hashesOf fs) -> NoDup (hashesOf (removeTopicFilter fs h)).
Proof.
  induction fs as [|f r IH]; intros Hnd; [exact Hnd|].
  change (hashesOf (f :: r)) with (Js.toLowerCase (tf_hash f) :: hashesOf r)
    in Hnd.
  apply NoDup_cons in Hnd as [Hf Hr].
  unfold removeTopicFilter. cbn [List.filter].
  fold (removeTopicFilter r h).
  destruct (negb (sameHash (tf_hash f) h)); [|now apply IH].
  change (hashesOf (f :: removeTopicFilter r h))
    with (Js.toLowerCase (tf_hash f) :: hashesOf (removeTopicFilter r h)).
  apply NoDup_cons. split; [|now apply IH].
  intros Hin. apply Hf. eapply hashesOf_remove_sub. exact Hin.
Qed.

Lemma hashesOf_remove_absent (fs : list TopicFilter) h :
  Js.toLowerCase h ∉ hashesOf (removeTopicFilter fs h).
Proof.
  unfold removeTopicFilter, hashesOf.
  intros Hin. apply list_elem_of_fmap in Hin as (f & Hf & Hin).
  apply list_elem_of_In, filter_In in Hin as [_ Hin].
  apply negb_true_iff in Hin.
  assert (sameHash (tf_hash f) h = true)
    by (apply sameHash_iff; now symmetry).
  congruence.
Qed.

Lemma addTopicFilter_cases (fs : list TopicFilter) (filter : TopicFilter) :
  (Js.toLowerCase (tf_hash filter) ∈ hashesOf fs
   /\ addTopicFilter fs filter = fs)
  \/ ((Js.toLowerCase (tf_hash filter) ∉ hashesOf fs)
      /\ exists contract,
           addTopicFilter fs filter
           = fs ++ [mkTopicFilter (Js.toLowerCase (tf_hash filter))
                      (description filter) contract]).
Proof.
  unfold addTopicFilter.
  destruct (existsb _ fs) eqn:Ex; cbn [negb].
  - left. split; [now apply exists_sameHash|reflexivity].
  - right. split; [|eexists; reflexivity].
    intros Hin. apply exists_sameHash in Hin. congruence.
Qed.

End IndexerProperties.

(** X24: the topic filters of the indexer are kept with pairwise
    different hashes, compared without case: [addTopicFilter] ignores a
    filter whose hash is already there, whatever its contract address,
    and otherwise appends it with the hash in lower case;
    [removeTopicFilter] leaves no filter with the hash; and removing a
    hash right after adding it to filters that did not have it gives
    the filters back. *)
Theorem X24_topic_filters_have_distinct_hashes
    (topicFilters : list EventsService.TopicFilter)
    (filter : EventsService.TopicFilter) (topicHash : string) :
  NoDup (Indexer.hashesOf topicFilters) ->
  let added := Indexer.addTopicFilter topicFilters filter in
  let removed := Indexer.removeTopicFilter topicFilters topicHash in
  NoDup (Indexer.hashesOf added)
  /\ NoDup (Indexer.hashesOf removed)
  /\ (Js.toLowerCase (EventsService.tf_hash filter) ∈ Indexer.hashesOf added)
  /\ (Js.toLowerCase topicHash ∉ Indexer.hashesOf removed)
  /\ ((Js.toLowerCase (EventsService.tf_hash filter)
         ∈ Indexer.hashesOf topicFilters) ->
      added = topicFilters)
  /\ ((Js.toLowerCase (EventsService.tf_hash filter)
         ∉ Indexer.hashesOf topicFilters) ->
      Indexer.removeTopicFilter added (EventsService.tf_hash filter)
      = topicFilters).
Proof.
  intros Hnd added removed. subst added removed.
  split; [|split; [|split; [|split; [|split]]]].
  - destruct (addTopicFilter_cases topicFilters filter)
      as [[_ ->]|[Hfresh [contract ->]]]; [exact Hnd|].
    unfold Indexer.hashesOf. rewrite map_app. simpl.
    rewrite toLowerCase_idem. apply NoDup_app. split; [exact Hnd|].
    split; [|apply NoDup_singleton].
    intros x Hx Hx'. apply list_elem_of_singleton in Hx'. subst x.
    contradiction.
  - now apply hashesOf_remove_NoDup.
  - destruct (addTopicFilter_cases topicFilters filter)
      as [[Hin ->]|[_ [contract ->]]]; [exact Hin|].
    unfold Indexer.hashesOf. rewrite map_app. apply elem_of_app. right.
    simpl. rewrite toLowerCase_idem. apply list_elem_of_here.
  - apply hashesOf_remove_absent.
  - intros Hin.
    destruct (addTopicFilter_cases topicFilters filter)
      as [[_ ->]|[Hfresh _]]; [reflexivity|contradiction].
  - intros Hfresh.
    destruct (addTopicFilter_cases topicFilters filter)
      as [[Hin _]|[_ [contract ->]]]; [contradiction|].
    unfold Indexer.removeTopicFilter. rewrite List.filter_app.
    cbn [List.filter EventsService.tf_hash].
    unfold Indexer.sameHash at 2. rewrite toLowerCase_idem, String.eqb_refl.
    cbn [negb]. rewrite app_nil_r. now apply removeTopicFilter_fresh.
Qed.

Lemma X24_witness :
  Indexer.addTopicFilter [MatcherSpec.nftTransferFilter]
    (EventsService.mkTopicFilter
       "0xDDF252AD1BE2C89B69C2B068FC378DAA952BA7F163C4A11628F55A4DF523B3EF"
       (Some "ERC20 Transfer")
       (Some "0xFCBD14DC51f0A4d49d5E53C2E0950e0bC26d0Dce"))
  = [MatcherSpec.nftTransferFilter].
Proof.
  refine (proj1 (proj2 (proj2 (proj2 (proj2
            (X24_topic_filters_have_distinct_hashes
               [MatcherSpec.nftTransferFilter]
               (EventsService.mkTopicFilter
                  "0xDDF252AD1BE2C89B69C2B068FC378DAA952BA7F163C4A11628F55A4DF523B3EF"
                  (Some "ERC20 Transfer")
                  (Some "0xFCBD14DC51f0A4d49d5E53C2E0950e0bC26d0Dce"))
               "" _))))) _).
  - apply NoDup_singleton.
  - vm_compute. apply list_elem_of_here.
Defined.

(** ** Loans: the record of a borrow *)
Section LoanProperties.
Import Num Decimal Models RelayerService RelayerLoans.

Lemma saveUser_saveUser u1 u2 us :
  u_id u1 = u_id u2 -> saveUser u2 (saveUser u1 us) = saveUser u2 us.
Proof.
  intros Hid. unfold saveUser. rewrite map_map. apply map_ext. intros x.
  destruct (String.eqb (u_id x) (u_id u1)) eqn:E.
  - rewrite Hid, String.eqb_refl. now rewrite <- Hid, E.
  - reflexivity.
Qed.

Lemma createBorrowRecord_tables now db request user amountInUsd txHash
    timestamp bid :
  let db1 :=
    fst (createBorrowRecord now db request (Some user) amountInUsd txHash
           timestamp bid) in
  let borrowed :=
    mkUser (u_id user) (walletAddress user) (totalUsdBalance user)
      (formatDecimal (safeAdd (floatingUsdBalance user) amountInUsd))
      (formatDecimal (safeAdd (borrowedUsdAmount user) amountInUsd)) in
  users db1 = saveUser borrowed (users db)
  /\ borrows db1
     = borrows db
         ++ [mkBorrow bid (u_id user) (formatDecimal amountInUsd) active None
               (if 0 <? timestamp then timestamp * 1000 else now) None now
               (asset request) (amount request) txHash]
  /\ deposits db1 = deposits db /\ withdrawals db1 = withdrawals db
  /\ vaultEvents db1 = vaultEvents db.
Proof. simpl. repeat split. Qed.

End LoanProperties.

(** ** Collateral requests: the user and the utilization *)
Section RequestProperties.
Import Num Decimal Models RelayerService RelayerLoans.

Lemma seenProtocols_fold (l : list RelayerEvent) :
  forall seen,
    NoDup seen ->
    NoDup (fold_left
             (fun seen request =>
                if Js.truthy (protocol request)
                then EventsService.setAdd seen
                       (Js.toLowerCase (protocol request))
                else seen) l seen).
Proof.
  induction l as [|r rest IH]; intros seen Hs; simpl; [exact Hs|].
  apply IH. destruct (Js.truthy (protocol r)); [|exact Hs].
  now apply setAdd_NoDup.
Qed.

End RequestProperties.

(** X26: [handleCollateralRequest] gets or creates the user of the
    sender before it validates, and the sender of a parsed request is in
    lower case, as the wallet address of a user is: the validation it
    runs finds the user, so its answer is never "User not found", and
    the only table it touches is the users table. *)
Theorem X26_collateral_request_finds_its_user
    (hashFn : Z -> Z -> Z) (leafHash : string -> string -> Z)
    (env : RelayerService.Env) (store : list NftModels.NftTransfer)
    (db : Models.Db) (decoded : RelayerService.RelayerEvent) (chainId : Z)
    (uid : string) :
  let parsedEvent := RelayerLoans.parseCollateralRequest decoded in
  let out :=
    RelayerLoans.handleCollateralRequest hashFn leafHash env store db
      parsedEvent chainId uid in
  (exists user,
     List.find (fun u => String.eqb (Models.walletAddress u)
                                    (RelayerService.sender parsedEvent))
               (Models.users (fst out)) = Some user)
  /\ snd (RelayerService.validation hashFn leafHash env store (fst out)
            (RelayerLoans.newRequest parsedEvent chainId) chainId)
     <> Some "User not found"
  /\ snd out
     = RelayerService.validateAndProcessRequest hashFn leafHash env store
         (fst out) (RelayerLoans.newRequest parsedEvent chainId) chainId
  /\ Models.deposits (fst out) = Models.deposits db
  /\ Models.borrows (fst out) = Models.borrows db
  /\ Models.withdrawals (fst out) = Models.withdrawals db.
Proof.
  intros parsedEvent out.
  destruct (getOrCreateUser_find db (RelayerService.sender parsedEvent) uid)
    as (Hf & _ & Hd & Hw & Hb & _).
  assert (Hlow : Js.toLowerCase (RelayerService.sender parsedEvent)
                 = RelayerService.sender parsedEvent).
  { subst parsedEvent. simpl. apply toLowerCase_idem. }
  rewrite Hlow in Hf. unfold VaultEventPipeline.findUser in Hf.
  assert (Hout : out
                 = (fst (RelayerService.getOrCreateUser db
                           (RelayerService.sender parsedEvent) uid),
                    RelayerService.validateAndProcessRequest hashFn leafHash
                      env store
                      (fst (RelayerService.getOrCreateUser db
                              (RelayerService.sender parsedEvent) uid))
                      (RelayerLoans.newRequest parsedEvent chainId) chainId)).
  { subst out. unfold RelayerLoans.handleCollateralRequest.
    now destruct (RelayerService.getOrCreateUser db
                    (RelayerService.sender parsedEvent) uid). }
  unfold VaultEventPipeline.getOrCreateUser in *.
  rewrite Hout. cbn [fst snd].
  split; [eexists; exact Hf|]. split; [|repeat split; assumption].
  unfold RelayerService.validation.
  destruct (_ <? RelayerService.currentTime env); [discriminate|].
  change (RelayerService.sender (RelayerLoans.newRequest parsedEvent chainId))
    with (RelayerService.sender parsedEvent).
  rewrite Hf.
  destruct (negb _); [discriminate|].
  destruct (negb _); discriminate.
Qed.

(** X27: the total utilization counts a lending pool once, however many
    approved requests of the token name it and however they spell its
    address: the pools asked are pairwise different, and one more
    approved request on a pool that is already among them leaves the
    total as it is. *)
Theorem X27_a_protocol_is_counted_once
    (hasProvider : bool) (utilization : string -> string -> option Z)
    (requests : list RelayerService.RelayerEvent) (tokenId : string)
    (request : RelayerService.RelayerEvent) :
  let approved :=
    List.filter (fun r => String.eqb (RelayerService.re_tokenId r) tokenId
                          && (RelayerService.status r =? 2)) requests in
  Js.toLowerCase (RelayerService.protocol request)
    ∈ RelayerLoans.seenProtocols approved ->
  NoDup (RelayerLoans.seenProtocols approved)
  /\ RelayerLoans.seenProtocols
       (List.filter (fun r => String.eqb (RelayerService.re_tokenId r) tokenId
                              && (RelayerService.status r =? 2))
                    (requests ++ [request]))
     = RelayerLoans.seenProtocols approved
  /\ RelayerLoans.calculateTotalUtilization hasProvider utilization
       (requests ++ [request]) tokenId
     = RelayerLoans.calculateTotalUtilization hasProvider utilization
         requests tokenId.
Proof.
  intros approved Hin.
  assert (Hsame : RelayerLoans.seenProtocols
                    (List.filter
                       (fun r => String.eqb (RelayerService.re_tokenId r)
                                            tokenId
                                 && (RelayerService.status r =? 2))
                       (requests ++ [request]))
                  = RelayerLoans.seenProtocols approved).
  { rewrite List.filter_app. fold approved. cbn [List.filter].
    destruct (_ && _); [|now rewrite app_nil_r].
    unfold RelayerLoans.seenProtocols. rewrite fold_left_app. cbn [fold_left].
    fold (RelayerLoans.seenProtocols approved).
    destruct (Js.truthy (RelayerService.protocol request)); [|reflexivity].
    unfold EventsService.setAdd.
    apply has_spec in Hin. now rewrite Hin. }
  split; [|split; [exact Hsame|]].
  - apply seenProtocols_fold. apply NoDup_nil. exact I.
  - unfold RelayerLoans.calculateTotalUtilization. now rewrite Hsame.
Qed.

Lemma X27_witness :
  RelayerLoans.calculateTotalUtilization true
    (fun _ _ => Some 250000000)
    ([RelayerLoans.approvedOn "0x9001AB"]
       ++ [RelayerLoans.approvedOn "0x9001ab"]) "7"
  = RelayerLoans.calculateTotalUtilization true
      (fun _ _ => Some 250000000) [RelayerLoans.approvedOn "0x9001AB"] "7".
Proof.
  refine (proj2 (proj2 (X27_a_protocol_is_counted_once true
                          (fun _ _ => Some 250000000)
                          [RelayerLoans.approvedOn "0x9001AB"] "7"
                          (RelayerLoans.approvedOn "0x9001ab") _))).
  vm_compute. apply list_elem_of_here.
Defined.

(** ** Unprocessed blocks: the retry count and the reorg of a block *)
Section UnprocessedProperties.
Import UnprocessedBlocksService.

Lemma save_elem b repository r :
  r ∈ save b repository -> r = b \/ (r ∈ repository /\ id r <> id b).
Proof.
  unfold save. destruct (existsb _ repository) eqn:Ex.
  - intros Hr. apply list_elem_of_fmap in Hr as (x & -> & Hx).
    destruct (String.eqb_spec (id x) (id b)); [now left|right; tauto].
  - intros Hr. apply elem_of_app in Hr as [Hr|Hr].
    + right. split; [exact Hr|]. intros He.
      assert (Hex : existsb (fun r0 => String.eqb (id r0) (id b)) repository
                    = true).
      { apply existsb_exists. exists r.
        split; [now apply list_elem_of_In|]. now apply String.eqb_eq. }
      congruence.
    + apply list_elem_of_singleton in Hr. now left.
Qed.

Lemma saveAll_elem bs :
  forall repository r,
    r ∈ saveAll bs repository -> r ∈ bs \/ r ∈ repository.
Proof.
  unfold saveAll. induction bs as [|b rest IH]; intros repository r Hr;
    [now right|].
  simpl in Hr. apply IH in Hr as [Hr|Hr].
  - left. now apply list_elem_of_further.
  - apply save_elem in Hr as [->|[Hr _]];
      [left; apply list_elem_of_here|now right].
Qed.

Lemma newEntries_elem chain blocks newId :
  forall i r,
    r ∈ newEntries chain blocks newId i ->
    status r = PENDING /\ retryCount r = 0 /\ chainId r = chain
    /\ exists block, block ∈ blocks /\ blockNumber r = number block.
Proof.
  induction blocks as [|b rest IH]; intros i r Hr; [inversion Hr|].
  simpl in Hr. apply elem_of_cons in Hr as [->|Hr].
  - repeat split. exists b. split; [apply list_elem_of_here|reflexivity].
  - destruct (IH _ _ Hr) as (H1 & H2 & H3 & blk & H4 & H5).
    repeat split; try assumption. exists blk.
    split; [now apply list_elem_of_further|exact H5].
Qed.

Lemma addBlocks_elem repository chain blocks newId r :
  r ∈ addBlocks repository chain blocks newId ->
  r ∈ repository \/ status r = REORGED
  \/ (status r = PENDING /\ retryCount r = 0).
Proof.
  unfold addBlocks. intros Hr. apply elem_of_app in Hr as [Hr|Hr].
  - apply saveAll_elem in Hr as [Hr|Hr]; [|now left].
    right. left. apply list_elem_of_omap in Hr as (blk & _ & Hb).
    destruct (existingFor repository chain (number blk)); [|discriminate].
    destruct (hashDiffers _ blk); [|discriminate].
    now inversion Hb.
  - right. right. apply newEntries_elem in Hr. tauto.
Qed.

Lemma insertAscending_perm b l : Permutation (insertAscending b l) (b :: l).
Proof.
  induction l as [|x r IH]; simpl; [reflexivity|].
  destruct (_ <=? _); [reflexivity|].
  rewrite IH. apply perm_swap.
Qed.

Lemma sortAscending_perm l : Permutation (fold_right insertAscending [] l) l.
Proof.
  induction l as [|x r IH]; simpl; [reflexivity|].
  rewrite insertAscending_perm. now constructor.
Qed.

Lemma insertDescending_perm b l : Permutation (insertDescending b l) (b :: l).
Proof.
  induction l as [|x r IH]; simpl; [reflexivity|].
  destruct (_ <=? _); [reflexivity|].
  rewrite IH. apply perm_swap.
Qed.

Lemma sortDescending_perm l : Permutation (fold_right insertDescending [] l) l.
Proof.
  induction l as [|x r IH]; simpl; [reflexivity|].
  rewrite insertDescending_perm. now constructor.
Qed.

Lemma take_elem {A} (n : nat) (l : list A) x : x ∈ take n l -> x ∈ l.
Proof.
  intros H. rewrite <- (take_drop n l). apply elem_of_app. now left.
Qed.

Lemma getBlocksToProcess_elem repository chain limit r :
  r ∈ getBlocksToProcess repository chain limit ->
  r ∈ repository /\ chainId r = chain /\ status r = PENDING
  /\ retryCount r < MAX_RETRIES.
Proof.
  unfold getBlocksToProcess. intros Hr. apply take_elem in Hr.
  rewrite sortAscending_perm in Hr.
  apply list_elem_of_In, filter_In in Hr as [Hin Hp].
  apply andb_true_iff in Hp as [Hp Hretry].
  apply andb_true_iff in Hp as [Hc Hs].
  split; [now apply list_elem_of_In|].
  split; [now apply Z.eqb_eq|].
  split; [now apply bool_decide_eq_true in Hs|now apply Z.ltb_lt].
Qed.

(** What a write of the service leaves: the rows it did not touch, rows
    that are not pending, and new pending rows that never failed. *)
Lemma step_rows repository op r :
  r ∈ step repository op ->
  r ∈ repository \/ status r <> PENDING
  \/ (status r = PENDING /\ retryCount r = 0).
Proof.
  destruct op as [chain block newId|chain blocks newId|block|blocks
                 |block now|blocks now|block message
                 |chain currentBlock chainBlocks newId|chain cutoffDate];
    simpl; intros Hr.
  - unfold addBlock in Hr.
    destruct (List.find _ repository) as [existingBlock|].
    + destruct (hashDiffers existingBlock block); [|now left].
      apply elem_of_app in Hr as [Hr|Hr].
      * apply save_elem in Hr as [->|[Hr _]]; [|now left].
        right. left. discriminate.
      * apply list_elem_of_singleton in Hr. subst r. right. right. tauto.
    + apply elem_of_app in Hr as [Hr|Hr]; [now left|].
      apply list_elem_of_singleton in Hr. subst r. right. right. tauto.
  - apply addBlocks_elem in Hr as [Hr|[Hr|Hr]]; [now left| |tauto].
    right. left. congruence.
  - unfold markAsProcessing in Hr.
    apply save_elem in Hr as [->|[Hr _]]; [|now left].
    right. left. discriminate.
  - unfold markAsProcessingBatch in Hr.
    apply saveAll_elem in Hr as [Hr|Hr]; [|now left].
    apply list_elem_of_fmap in Hr as (x & -> & _). right. left. discriminate.
  - unfold markAsCompleted in Hr.
    apply save_elem in Hr as [->|[Hr _]]; [|now left].
    right. left. discriminate.
  - unfold markAsCompletedBatch in Hr.
    apply saveAll_elem in Hr as [Hr|Hr]; [|now left].
    apply list_elem_of_fmap in Hr as (x & -> & _). right. left. discriminate.
  - unfold markAsFailed in Hr.
    apply save_elem in Hr as [->|[Hr _]]; [|now left].
    right. left. discriminate.
  - unfold checkForReorgs in Hr.
    match type of Hr with
    | r ∈ match ?l with [] => ?a | _ :: _ => ?b end =>
        assert (Hr' : r ∈ a \/ r ∈ b) by (destruct l; tauto)
    end.
    clear Hr.
    assert (Hsaved : forall x,
              x ∈ saveAll
                    (map (fun storedBlock =>
                            setStatus storedBlock REORGED
                              (Some "Block hash mismatch - reorg detected"))
                         (List.filter
                            (fun storedBlock =>
                               match chainBlocks (blockNumber storedBlock) with
                               | Some chainBlock =>
                                   hashDiffers storedBlock chainBlock
                               | None => true
                               end)
                            (fold_right insertDescending []
                               (List.filter
                                  (fun r0 =>
                                     (chainId r0 =? chain)
                                     && (number currentBlock - REORG_DEPTH
                                         <=? blockNumber r0)
                                     && bool_decide (status r0 = COMPLETED))
                                  repository)))) repository ->
              x ∈ repository \/ status x <> PENDING).
    { intros x Hx. apply saveAll_elem in Hx as [Hx|Hx]; [|now left].
      apply list_elem_of_fmap in Hx as (y & -> & _). right. discriminate. }
    destruct Hr' as [Hr|Hr].
    + apply Hsaved in Hr. tauto.
    + apply addBlocks_elem in Hr as [Hr|[Hr|Hr]].
      * apply Hsaved in Hr. tauto.
      * right. left. congruence.
      * tauto.
  - unfold cleanupCompletedBlocks in Hr.
    apply list_elem_of_In, filter_In in Hr as [Hr _].
    left. now apply list_elem_of_In.
Qed.

Lemma run_pendingUntried ops :
  forall repository,
    pendingUntried repository -> pendingUntried (run repository ops).
Proof.
  unfold run. induction ops as [|op rest IH]; intros repository Hinv;
    [exact Hinv|].
  simpl. apply IH. intros r Hr Hp.
  apply step_rows in Hr as [Hr|[Hr|[_ Hr]]];
    [now apply Hinv|contradiction|exact Hr].
Qed.

Lemma find_nothing {A} (f : A -> bool) (l : list A) :
  (forall x, x ∈ l -> f x = false) -> List.find f l = None.
Proof.
  induction l as [|x r IH]; intros H; [reflexivity|]. simpl.
  rewrite (H x) by apply list_elem_of_here.
  apply IH. intros y Hy. apply H. now apply list_elem_of_further.
Qed.

End UnprocessedProperties.

(** X28: in the table of unprocessed blocks a pending row has never
    failed, and this stays so through every write of the service: rows
    are pending only as they are created, with a retry count of 0, and
    [markAsFailed], the one place that raises the count, sets the status
    to failed.  So [getBlocksToProcess], which hands out pending rows of
    the chain only, hands out rows with a retry count of 0 (its retry
    bound excludes nothing), and never a row that [markAsFailed] has
    just written. *)
Theorem X28_pending_blocks_have_never_failed
    (repository : list UnprocessedBlocksService.UnprocessedBlock)
    (ops : list UnprocessedBlocksService.Op) (chain : Z) (limit : nat)
    (block : UnprocessedBlocksService.UnprocessedBlock) (message : string) :
  UnprocessedBlocksService.pendingUntried repository ->
  let repository' := UnprocessedBlocksService.run repository ops in
  UnprocessedBlocksService.pendingUntried repository'
  /\ (forall r,
        r ∈ UnprocessedBlocksService.getBlocksToProcess repository' chain
              limit ->
        r ∈ repository'
        /\ UnprocessedBlocksService.chainId r = chain
        /\ UnprocessedBlocksService.status r
           = UnprocessedBlocksService.PENDING
        /\ UnprocessedBlocksService.retryCount r = 0)
  /\ ((0 < limit)%nat ->
      (length (UnprocessedBlocksService.getBlocksToProcess repository' chain
                 limit) <= limit)%nat)
  /\ (forall r,
        r ∈ UnprocessedBlocksService.getBlocksToProcess
              (UnprocessedBlocksService.markAsFailed repository' block
                 message) chain limit ->
        UnprocessedBlocksService.id r <> UnprocessedBlocksService.id block).
Proof.
  intros Hinv repository'.
  assert (Hinv' : UnprocessedBlocksService.pendingUntried repository')
    by now apply run_pendingUntried.
  split; [exact Hinv'|]. split; [|split].
  - intros r Hr. apply getBlocksToProcess_elem in Hr as (Hin & Hc & Hs & _).
    repeat split; try assumption. now apply Hinv'.
  - intros _. unfold UnprocessedBlocksService.getBlocksToProcess.
    rewrite length_take. lia.
  - intros r Hr. apply getBlocksToProcess_elem in Hr as (Hin & _ & Hs & _).
    unfold UnprocessedBlocksService.markAsFailed in Hin.
    apply save_elem in Hin as [->|[_ Hne]]; [discriminate Hs|exact Hne].
Qed.

Lemma X28_witness :
  UnprocessedBlocksService.pendingUntried
    (UnprocessedBlocksService.run []
       [UnprocessedBlocksService.AddBlock 1 UnprocessedBlocksService.block7
          "r1";
        UnprocessedBlocksService.MarkAsFailed
          (UnprocessedBlocksService.newEntry 1 UnprocessedBlocksService.block7
             "r1") "timeout";
        UnprocessedBlocksService.AddBlock 1 UnprocessedBlocksService.block7'
          "r2"]).
Proof.
  refine (proj1 (X28_pending_blocks_have_never_failed []
                   [UnprocessedBlocksService.AddBlock 1
                      UnprocessedBlocksService.block7 "r1";
                    UnprocessedBlocksService.MarkAsFailed
                      (UnprocessedBlocksService.newEntry 1
                         UnprocessedBlocksService.block7 "r1") "timeout";
                    UnprocessedBlocksService.AddBlock 1
                      UnprocessedBlocksService.block7' "r2"]
                   1 10%nat
                   (UnprocessedBlocksService.newEntry 1
                      UnprocessedBlocksService.block7 "r1") "" _)).
  intros r Hr. inversion Hr.
Defined.

(** X29: [addBlock] on a block number the chain has no row for appends
    a pending row.  Called again with the same block (whose hash is
    not null) it changes nothing; called with a block of the same
    number and another hash it marks the first row as reorged and
    appends a pending row for the new hash.  The id of the first row
    is a fresh one. *)
Theorem X29_add_block_twice_and_after_a_reorg
    (repository : list UnprocessedBlocksService.UnprocessedBlock)
    (chain : Z) (block other : UnprocessedBlocksService.Block)
    (h h' : string) (id1 id2 : string) :
  (forall r, r ∈ repository ->
             ~ (UnprocessedBlocksService.chainId r = chain
                /\ UnprocessedBlocksService.blockNumber r
                   = UnprocessedBlocksService.number block)) ->
  (forall r, r ∈ repository -> UnprocessedBlocksService.id r <> id1) ->
  UnprocessedBlocksService.hash block = Some h ->
  UnprocessedBlocksService.hash other = Some h' ->
  UnprocessedBlocksService.number other
  = UnprocessedBlocksService.number block ->
  h' <> h ->
  let first := UnprocessedBlocksService.newEntry chain block id1 in
  let repository1 :=
    UnprocessedBlocksService.addBlock repository chain block id1 in
  repository1 = repository ++ [first]
  /\ UnprocessedBlocksService.addBlock repository1 chain block id2
     = repository1
  /\ UnprocessedBlocksService.addBlock repository1 chain other id2
     = repository
         ++ [UnprocessedBlocksService.setStatus first
               UnprocessedBlocksService.REORGED
               (Some "Block hash mismatch - possible reorg");
             UnprocessedBlocksService.newEntry chain other id2].
Proof.
  intros Hnone Hfresh Hh Hh' Hnum Hne first repository1.
  assert (Hfind0 : forall n,
            n = UnprocessedBlocksService.number block ->
            List.find
              (fun r => (UnprocessedBlocksService.chainId r =? chain)
                        && (UnprocessedBlocksService.blockNumber r =? n))
              repository = None).
  { intros n ->. apply find_nothing. intros r Hr.
    specialize (Hnone r Hr).
    destruct (Z.eqb_spec (UnprocessedBlocksService.chainId r) chain);
      [|reflexivity].
    destruct (Z.eqb_spec (UnprocessedBlocksService.blockNumber r)
                (UnprocessedBlocksService.number block));
      [tauto|reflexivity]. }
  assert (H1 : repository1 = repository ++ [first]).
  { subst repository1. unfold UnprocessedBlocksService.addBlock.
    now rewrite Hfind0. }
  assert (Hfind1 : forall n,
            n = UnprocessedBlocksService.number block ->
            List.find
              (fun r => (UnprocessedBlocksService.chainId r =? chain)
                        && (UnprocessedBlocksService.blockNumber r =? n))
              repository1 = Some first).
  { intros n Hn. rewrite H1, find_snoc, Hfind0 by exact Hn. subst n.
    simpl. now rewrite !Z.eqb_refl. }
  split; [exact H1|]. split.
  - unfold UnprocessedBlocksService.addBlock. rewrite Hfind1 by reflexivity.
    unfold UnprocessedBlocksService.hashDiffers. rewrite Hh. simpl.
    rewrite Hh. simpl. now rewrite String.eqb_refl.
  - unfold UnprocessedBlocksService.addBlock. rewrite Hfind1 by exact Hnum.
    unfold UnprocessedBlocksService.hashDiffers. rewrite Hh'. simpl.
    rewrite Hh. simpl.
    destruct (String.eqb_spec h h') as [He|_]; [congruence|]. simpl.
    rewrite H1. unfold UnprocessedBlocksService.save.
    rewrite existsb_app. simpl. rewrite String.eqb_refl, orb_true_r.
    rewrite map_app. simpl. rewrite String.eqb_refl.
    rewrite <- app_assoc. simpl. f_equal.
    rewrite <- (map_id repository) at 2. apply map_ext_in.
    intros r Hr. apply list_elem_of_In in Hr.
    destruct (String.eqb_spec (UnprocessedBlocksService.id r) id1) as [He|_];
      [|reflexivity].
    exfalso. now apply (Hfresh r Hr).
Qed.

Lemma X29_witness :
  UnprocessedBlocksService.addBlock
    (UnprocessedBlocksService.addBlock [] 1 UnprocessedBlocksService.block7
       "r1")
    1 UnprocessedBlocksService.block7 "r2"
  = UnprocessedBlocksService.addBlock [] 1 UnprocessedBlocksService.block7
      "r1".
Proof.
  refine (proj1 (proj2 (X29_add_block_twice_and_after_a_reorg [] 1
                          UnprocessedBlocksService.block7
                          UnprocessedBlocksService.block7' "0xh7" "0xh7b"
                          "r1" "r2" _ _ _ _ _ _))).
  - intros r Hr. inversion Hr.
  - intros r Hr. inversion Hr.
  - reflexivity.
  - reflexivity.
  - reflexivity.
  - discriminate.
Defined.

(** ** A CollateralProcess event processed twice *)
Section ProcessReplayProperties.
Import Decimal Models RelayerService RelayerLoans RelayerProcess.

Lemma find_saveRequest (f : StoredRequest -> bool) table stored stored' :
  List.find f table = Some stored ->
  f stored' = true -> s_id stored' = s_id stored ->
  List.find f (saveRequest stored' table) = Some stored'.
Proof.
  intros Hfind Hf Hid. unfold saveRequest.
  induction table as [|x r IH]; simpl in *; [discriminate|].
  destruct (String.eqb (s_id x) (s_id stored')) eqn:Ex.
  - now rewrite Hf.
  - destruct (f x) eqn:Efx.
    + inversion Hfind; subst x. rewrite Hid, String.eqb_refl in Ex.
      discriminate.
    + now apply IH.
Qed.

Lemma existingEvent_saveRequest table stored' txHash chainId logIndex :
  (forall r, r ∈ table -> s_transactionHash r <> txHash) ->
  s_transactionHash stored' <> txHash ->
  existingEvent (saveRequest stored' table) txHash chainId logIndex = false.
Proof.
  intros Hall Hs. unfold existingEvent. destruct logIndex; [reflexivity|].
  apply not_true_is_false. intros Hex.
  apply existsb_exists in Hex as (r & Hr & Hp).
  apply andb_true_iff in Hp as [Hp _]. apply String.eqb_eq in Hp.
  apply list_elem_of_In in Hr. unfold saveRequest in Hr.
  apply list_elem_of_fmap in Hr as (x & -> & Hx).
  destruct (String.eqb (s_id x) (s_id stored')); [contradiction|].
  now apply (Hall x Hx).
Qed.

End ProcessReplayProperties.

(** X30: a [CollateralProcess] event is not remembered.  The duplicate
    lookup of [processRelayerEvent] goes by the hash of the
    transaction, and the stored rows carry the hashes of the request
    transactions only; so, the processing transaction being none of
    those, an approval (status 2) that is processed twice is handled
    twice: each run appends an active borrow, and the borrowed amount
    and the floating balance of the user go through
    [formatDecimal(safeAdd(balance, amountInUsd))] once per run. *)
Theorem X30_collateral_process_replayed_borrows_twice
    (out1 out2 : RelayerProcess.Outside)
    (table : list RelayerProcess.StoredRequest) (db : Models.Db)
    (txHash : string) (chainId : Z) (logIndex : option Z)
    (parsedRequestId : string) (parsedErrorData : option string)
    (stored : RelayerProcess.StoredRequest) (user : Models.User) :
  (forall r, r ∈ table -> RelayerProcess.s_transactionHash r <> txHash) ->
  List.find (fun r => String.eqb (RelayerService.requestId
                                    (RelayerProcess.s_event r))
                                 parsedRequestId
                      && (RelayerService.re_chainId (RelayerProcess.s_event r)
                          =? chainId)) table = Some stored ->
  List.find (fun u => String.eqb (Models.walletAddress u)
                                 (RelayerService.sender
                                    (RelayerProcess.s_event stored)))
            (Models.users db) = Some user ->
  let first :=
    RelayerProcess.processCollateralProcess out1 table db txHash chainId
      logIndex parsedRequestId 2 parsedErrorData in
  let second :=
    RelayerProcess.processCollateralProcess out2 (fst first)
      (fst (snd first)) txHash chainId logIndex parsedRequestId 2
      parsedErrorData in
  snd (snd first) = false /\ snd (snd second) = false
  /\ length (Models.borrows (fst (snd second)))
     = S (S (length (Models.borrows db)))
  /\ exists user2,
       Models.users (fst (snd second))
       = Models.saveUser user2 (Models.users db)
       /\ Models.u_id user2 = Models.u_id user
       /\ Models.borrowedUsdAmount user2
          = Decimal.formatDecimal
              (Decimal.safeAdd
                 (Decimal.formatDecimal
                    (Decimal.safeAdd (Models.borrowedUsdAmount user)
                       (RelayerProcess.amountInUsd out1)))
                 (RelayerProcess.amountInUsd out2))
       /\ Models.floatingUsdBalance user2
          = Decimal.formatDecimal
              (Decimal.safeAdd
                 (Decimal.formatDecimal
                    (Decimal.safeAdd (Models.floatingUsdBalance user)
                       (RelayerProcess.amountInUsd out1)))
                 (RelayerProcess.amountInUsd out2))
       /\ Models.totalUsdBalance user2 = Models.totalUsdBalance user.
Proof.
  intros Hhash Hfind Huser first second.
  assert (Hex0 : RelayerProcess.existingEvent table txHash chainId logIndex
                 = false).
  { unfold RelayerProcess.existingEvent. destruct logIndex; [reflexivity|].
    apply not_true_is_false. intros Hex.
    apply existsb_exists in Hex as (r & Hr & Hp).
    apply andb_true_iff in Hp as [Hp _]. apply String.eqb_eq in Hp.
    apply list_elem_of_In in Hr. now apply (Hhash r Hr). }
  assert (Hst : RelayerProcess.s_transactionHash stored <> txHash).
  { apply Hhash. apply List.find_some in Hfind as [Hin _].
    now apply list_elem_of_In. }
  set (request1 := RelayerService.setStatus (RelayerProcess.s_event stored) 2
                     parsedErrorData).
  set (stored1 := RelayerProcess.mkStoredRequest (RelayerProcess.s_id stored)
                    (RelayerProcess.s_transactionHash stored) request1
                    (Some txHash)).
  set (table1 := RelayerProcess.saveRequest stored1 table).
  set (user1 := Models.mkUser (Models.u_id user) (Models.walletAddress user)
                  (Models.totalUsdBalance user)
                  (Decimal.formatDecimal
                     (Decimal.safeAdd (Models.floatingUsdBalance user)
                        (RelayerProcess.amountInUsd out1)))
                  (Decimal.formatDecimal
                     (Decimal.safeAdd (Models.borrowedUsdAmount user)
                        (RelayerProcess.amountInUsd out1)))).
  assert (Hfirst : first
                   = (table1,
                      RelayerLoans.createBorrowRecord
                        (RelayerProcess.now out1) db request1 (Some user)
                        (RelayerProcess.amountInUsd out1) txHash
                        (RelayerProcess.timestamp out1)
                        (RelayerProcess.bid out1))).
  { subst first. unfold RelayerProcess.processCollateralProcess.
    rewrite Hex0, Hfind, Huser. reflexivity. }
  destruct (createBorrowRecord_tables (RelayerProcess.now out1) db request1
              user (RelayerProcess.amountInUsd out1) txHash
              (RelayerProcess.timestamp out1) (RelayerProcess.bid out1))
    as (Hu1 & Hb1 & _).
  fold user1 in Hu1.
  set (db1 := fst (RelayerLoans.createBorrowRecord (RelayerProcess.now out1)
                     db request1 (Some user)
                     (RelayerProcess.amountInUsd out1) txHash
                     (RelayerProcess.timestamp out1)
                     (RelayerProcess.bid out1))) in *.
  assert (Hfind1 :
            List.find (fun r => String.eqb (RelayerService.requestId
                                              (RelayerProcess.s_event r))
                                           parsedRequestId
                                && (RelayerService.re_chainId
                                      (RelayerProcess.s_event r) =? chainId))
                      table1 = Some stored1).
  { apply (find_saveRequest _ table stored stored1 Hfind); [|reflexivity].
    apply List.find_some in Hfind as [_ Hp]. exact Hp. }
  assert (Huser1 :
            List.find (fun u => String.eqb (Models.walletAddress u)
                                           (RelayerService.sender request1))
                      (Models.users db1) = Some user1).
  { rewrite Hu1.
    apply (find_saveUser _ user1 (Models.users db) user Huser eq_refl).
    apply List.find_some in Huser as [_ E]. now apply String.eqb_eq in E. }
  assert (Hsecond : second
                    = (RelayerProcess.saveRequest
                         (RelayerProcess.mkStoredRequest
                            (RelayerProcess.s_id stored)
                            (RelayerProcess.s_transactionHash stored)
                            (RelayerService.setStatus request1 2
                               parsedErrorData) (Some txHash)) table1,
                       RelayerLoans.createBorrowRecord
                         (RelayerProcess.now out2) db1
                         (RelayerService.setStatus request1 2 parsedErrorData)
                         (Some user1) (RelayerProcess.amountInUsd out2) txHash
                         (RelayerProcess.timestamp out2)
                         (RelayerProcess.bid out2))).
  { subst second. rewrite Hfirst. cbn [fst snd].
    unfold RelayerProcess.processCollateralProcess.
    assert (Hex1 : RelayerProcess.existingEvent table1 txHash chainId
                     logIndex = false)
      by (apply existingEvent_saveRequest; assumption).
    rewrite Hex1, Hfind1.
    change (RelayerProcess.s_event stored1) with request1.
    change (List.find _ (Models.users (fst (RelayerLoans.createBorrowRecord
              (RelayerProcess.now out1) db request1 (Some user)
              (RelayerProcess.amountInUsd out1) txHash
              (RelayerProcess.timestamp out1) (RelayerProcess.bid out1)))))
      with (List.find (fun u => String.eqb (Models.walletAddress u)
                                           (RelayerService.sender request1))
                      (Models.users db1)).
    rewrite Huser1. reflexivity. }
  destruct (createBorrowRecord_tables (RelayerProcess.now out2) db1
              (RelayerService.setStatus request1 2 parsedErrorData) user1
              (RelayerProcess.amountInUsd out2) txHash
              (RelayerProcess.timestamp out2) (RelayerProcess.bid out2))
    as (Hu2 & Hb2 & _).
  rewrite Hfirst, Hsecond. cbn [fst snd].
  split; [reflexivity|]. split; [reflexivity|]. split.
  - rewrite Hb2, length_app, Hb1, length_app. simpl. lia.
  - eexists. split.
    + rewrite Hu2, Hu1. apply saveUser_saveUser. reflexivity.
    + cbn. repeat split.
Qed.

Lemma X30_witness :
  length (Models.borrows
            (fst (snd (RelayerProcess.processCollateralProcess
                         (RelayerProcess.mkOutside 2000 (LedgerSpec.usd 40)
                            1700000100 "b2")
                         (fst (RelayerProcess.processCollateralProcess
                                 (RelayerProcess.mkOutside 1000
                                    (LedgerSpec.usd 40) 1700000100 "b1")
                                 [RelayerProcess.carolRequest]
                                 RelayerSpec.db_carol "0x9a02" 80094 None
                                 "0x77" 2 None))
                         (fst (snd (RelayerProcess.processCollateralProcess
                                      (RelayerProcess.mkOutside 1000
                                         (LedgerSpec.usd 40) 1700000100 "b1")
                                      [RelayerProcess.carolRequest]
                                      RelayerSpec.db_carol "0x9a02" 80094 None
                                      "0x77" 2 None)))
                         "0x9a02" 80094 None "0x77" 2 None))))
  = 2%nat.
Proof.
  refine (proj1 (proj2 (proj2
            (X30_collateral_process_replayed_borrows_twice
               (RelayerProcess.mkOutside 1000 (LedgerSpec.usd 40) 1700000100
                  "b1")
               (RelayerProcess.mkOutside 2000 (LedgerSpec.usd 40) 1700000100
                  "b2")
               [RelayerProcess.carolRequest] RelayerSpec.db_carol "0x9a02"
               80094 None "0x77" None RelayerProcess.carolRequest
               RelayerSpec.carol _ _ _)))).
  - intros r Hr. apply list_elem_of_singleton in Hr. subst r. discriminate.
  - reflexivity.
  - reflexivity.
Defined.
